(** * odl.space.domain: interval products (axis-aligned boxes)

    A shallow embedding of [src/odl/space/domain.py] and the properties
    of [IntervalProd] that its specification states.

    Numbers are IEEE-754 binary64 values ([np.float64]), taken from the
    Standard Library's executable specification of floating-point
    arithmetic ([SpecFloat], precision 53, maximal exponent 1024):
    rounding, signed zeros, infinities and NaN are the real ones.
    One-dimensional [numpy] arrays are lists; index arrays hold [Z]
    ([np.int64]); Python exceptions are values of [error]. *)

From Stdlib Require Import ZArith Lia Bool.
From Stdlib Require Import Floats.SpecFloat.
From stdpp Require Import base list gmap.

Local Open Scope Z_scope.

(** ** binary64 *)

Module F64.

Definition prec : Z := 53.
Definition emax : Z := 1024.

Definition float64 : Type := spec_float.

Definition zero : float64 := S754_zero false.
Definition inf : float64 := S754_infinity false.
Definition nan : float64 := S754_nan.
Definition one : float64 := Eval cbv in SFone prec emax.

Definition add : float64 -> float64 -> float64 := SFadd prec emax.
Definition sub : float64 -> float64 -> float64 := SFsub prec emax.
Definition mul : float64 -> float64 -> float64 := SFmul prec emax.
Definition div : float64 -> float64 -> float64 := SFdiv prec emax.
Definition abs : float64 -> float64 := SFabs.

(** Conversion of an integer ([np.int64] or a Python [int]) to binary64,
    rounding to nearest even. *)
Definition of_int (n : Z) : float64 := binary_normalize prec emax n 0 false.

(** The six comparisons of IEEE-754; all but [ne] are false on NaN. *)
Definition eq (x y : float64) : bool := SFeqb x y.
Definition ne (x y : float64) : bool := negb (SFeqb x y).
Definition lt (x y : float64) : bool := SFltb x y.
Definition le (x y : float64) : bool := SFleb x y.
Definition gt (x y : float64) : bool :=
  match SFcompare x y with Some Gt => true | _ => false end.
Definition ge (x y : float64) : bool :=
  match SFcompare x y with Some (Gt | Eq) => true | _ => false end.

Definition isnan (x : float64) : bool :=
  match x with S754_nan => true | _ => false end.
Definition isinf (x : float64) : bool :=
  match x with S754_infinity _ => true | _ => false end.
Definition isfinite (x : float64) : bool :=
  match x with S754_zero _ | S754_finite _ _ _ => true | _ => false end.

(** A well-formed binary64 value: the mantissa and exponent of a finite
    number are the canonical ones. *)
Definition valid (x : float64) : bool := valid_binary prec emax x.

(** A number other than zero, of the sign [s] ([true] for negative):
    an infinity or a finite number. *)
Definition nonzero (s : bool) (x : float64) : Prop :=
  x = S754_infinity s \/ exists m e, x = S754_finite s m e.

End F64.

Import F64.

(** ** Exceptions

    The failures of the module, under the names the specification gives
    them, and the Python class each one is raised as. *)

Inductive pyclass := ValueError | IndexError.

Inductive error :=
  | DimensionMismatch
  | OrderingViolation
  | LengthMismatch
  | IndexOutOfRange
  | ValueOutOfBounds
  | UnboundedDomain
  | ShapeMismatch
  | NonPositiveCount
  | DegenerateOversample
  | BroadcastError.

Definition python_class (e : error) : pyclass :=
  match e with
  | IndexOutOfRange => IndexError
  | _ => ValueError
  end.

Inductive result (A : Type) :=
  | Ok (a : A)
  | Raise (e : error).

Arguments Ok {A} a.
Arguments Raise {A} e.

#[global] Instance result_ret : MRet result := @Ok.
#[global] Instance result_bind : MBind result :=
  fun A B f m => match m with Ok a => f a | Raise e => Raise e end.

(** ** The fragment of numpy the module uses *)

Module np.

Inductive array_like (A : Type) :=
  | scalar (x : A)
  | array (xs : list A).

Arguments scalar {A} x.
Arguments array {A} xs.

Definition atleast_1d {A} (a : array_like A) : list A :=
  match a with
  | scalar x => [x]
  | array xs => xs
  end.

Definition all (m : list bool) : bool := forallb id m.
Definition any (m : list bool) : bool := existsb id m.

Fixpoint where_from (i : nat) (m : list bool) : list Z :=
  match m with
  | [] => []
  | b :: m' => (if b then [Z.of_nat i] else []) ++ where_from (S i) m'
  end.

(** [np.where(mask)[0]]: the positions at which [mask] holds, ascending. *)
Definition where_ (m : list bool) : list Z := where_from 0 m.

(** [a[i]] for an integer [i]: negative indices count from the end,
    anything else out of range raises [IndexError]. *)
Definition index {A} (a : list A) (i : Z) : result nat :=
  let n := Z.of_nat (length a) in
  let j := if i <? 0 then i + n else i in
  if (0 <=? j) && (j <? n) then Ok (Z.to_nat j) else Raise IndexOutOfRange.

Definition getitem {A} (a : list A) (i : Z) : result A :=
  j ← index a i;
  match a !! j with
  | Some x => Ok x
  | None => Raise IndexOutOfRange
  end.

(** [a[idx]] for an index array [idx]. *)
Definition take {A} (a : list A) (idx : list Z) : result (list A) :=
  mapM (getitem a) idx.

Definition setitem {A} (a : list A) (i : Z) (v : A) : result (list A) :=
  j ← index a i;
  Ok (<[j := v]> a).

(** [a[idx] = vals] for an index array [idx] and as many values: the
    assignments are made in order, so that the last one to an index
    stays.  (A single value broadcast to several indices is not used by
    the module and raises here.) *)
Fixpoint assign {A} (a : list A) (idx : list Z) (vals : list A) : result (list A) :=
  match idx, vals with
  | [], [] => Ok a
  | i :: idx', v :: vals' => a' ← setitem a i v; assign a' idx' vals'
  | _, _ => Raise BroadcastError
  end.

(** [a[start:stop]] for [0 <= start], [0 <= stop]. *)
Definition slice {A} (a : list A) (start stop : nat) : list A :=
  List.firstn (stop - start) (List.skipn start a).

(** [a[start:stop] = v]: the lengths must agree. *)
Definition set_slice {A} (a : list A) (start stop : nat) (v : list A)
  : result (list A) :=
  if decide (length v = length (slice a start stop))
  then Ok (List.firstn start a ++ v ++ List.skipn (start + length v) a)
  else Raise BroadcastError.

Definition concatenate {A} (a b : list A) : list A := a ++ b.

Definition prod (a : list float64) : float64 := foldl mul one a.

(** Elementwise operations on two arrays follow numpy's broadcasting:
    equal lengths pair up, an array of length one is repeated, any other
    pair of lengths raises [ValueError]. *)
Definition broadcast {A B} (x : list A) (y : list B) : result (list (A * B)) :=
  if decide (length x = length y) then Ok (zip x y)
  else match x, y with
       | [a], _ => Ok ((fun b => (a, b)) <$> y)
       | _, [b] => Ok ((fun a => (a, b)) <$> x)
       | _, _ => Raise BroadcastError
       end.

Definition within_tol (atol rtol x y : float64) : bool :=
  le (abs (sub x y)) (add atol (mul rtol (abs y))).

(** [np.isclose] on two scalars ([equal_nan=False]), as numpy computes
    it before version 2.0: the tolerance test where both are finite,
    equality otherwise.  ([np2.isclose] below is that of numpy from 2.0
    on; the two agree at [atol=0].) *)
Definition isclose (rtol atol x y : float64) : bool :=
  if isfinite x && isfinite y then within_tol atol rtol x y else eq x y.

Definition allclose (a b : list float64) (rtol atol : float64) : result bool :=
  xy ← broadcast a b;
  Ok (all ((fun p => isclose rtol atol p.1 p.2) <$> xy)).

(** [np.maximum(x, y)]: a NaN operand is returned, else the larger. *)
Definition maximum (x y : float64) : float64 :=
  if isnan x then x else if isnan y then y else if ge x y then x else y.

(** [a.max()]: the reduction of [a] with [np.maximum]; numpy raises
    [ValueError] for an array without entries, which is [None] here. *)
Definition amax (a : list float64) : option float64 :=
  match a with
  | [] => None
  | x :: xs => Some (foldl maximum x xs)
  end.

End np.

(** Modelled from the spec: [RealNumbers().contains(x)], the real-number
    membership predicate of [odl.space.set], a module outside
    [odl.space.domain]; it rejects a point whose scalar type is not a
    real number.  The points of this development are arrays of binary64
    values, whose scalars are real numbers for it. *)
Definition RealNumbers_contains (x : float64) : bool := true.

(** [np.int64] arithmetic wraps around. *)
Definition int64 (n : Z) : Z := (n + 2 ^ 63) mod 2 ^ 64 - 2 ^ 63.

Definition two : float64 := Eval cbv in of_int 2.

(** ** The class [IntervalProd] *)

Record IntervalProd := {
  _begin : list float64;
  _end : list float64;
  _ideg : list Z;
  _inondeg : list Z
}.

(** An arbitrary Python object, as [equals] tests it with [isinstance]. *)
Inductive object :=
  | is_IntervalProd (o : IntervalProd)
  | not_IntervalProd.

(** [IntervalProd.__init__] *)
Definition IntervalProd_init (begin end_ : np.array_like float64)
  : result IntervalProd :=
  let begin := np.atleast_1d begin in
  let end_ := np.atleast_1d end_ in
  if decide (length begin ≠ length end_) then Raise DimensionMismatch
  else if negb (np.all (zip_with le begin end_)) then Raise OrderingViolation
  else Ok {| _begin := begin;
             _end := end_;
             _ideg := np.where_ (zip_with eq begin end_);
             _inondeg := np.where_ (zip_with ne begin end_) |}.

Definition dim (self : IntervalProd) : nat := length (_begin self).

Definition truedim (self : IntervalProd) : nat := length (_inondeg self).

Definition size (self : IntervalProd) : list float64 :=
  zip_with sub (_end self) (_begin self).

(** [measure] called with an integer [dim]. *)
Definition measure_dim (self : IntervalProd) (dim : Z) : result float64 :=
  if decide (truedim self = 0%nat) then Ok zero
  else if dim <? Z.of_nat (truedim self) then Ok inf
  else if dim >? Z.of_nat (truedim self) then Ok zero
  else sizes ← np.take (zip_with sub (_end self) (_begin self)) (_inondeg self);
       Ok (np.prod sizes).

(** [measure(dim=None)]; with [dim] omitted it calls itself at
    [truedim]. *)
Definition measure (self : IntervalProd) (dim : option Z) : result float64 :=
  if decide (truedim self = 0%nat) then Ok zero
  else match dim with
       | None => measure_dim self (Z.of_nat (truedim self))
       | Some d => measure_dim self d
       end.

Definition volume (self : IntervalProd) : result float64 :=
  measure self (Some (Z.of_nat (dim self))).

Definition midpoint (self : IntervalProd) : result (np.array_like float64) :=
  let midp := (fun x => div x two) <$> zip_with add (_end self) (_begin self) in
  vals ← np.take (_begin self) (_ideg self);
  midp ← np.assign midp (_ideg self) vals;
  if decide (dim self = 1%nat)
  then x ← np.getitem midp 0; Ok (np.scalar x)
  else Ok (np.array midp).

Definition element (self : IntervalProd) : result (np.array_like float64) :=
  midpoint self.

Definition equals (self : IntervalProd) (other : object) (tol : float64)
  : result bool :=
  match other with
  | not_IntervalProd => Ok false
  | is_IntervalProd other =>
      np.allclose (_begin self) (_begin other) zero tol ≫= fun b : bool =>
      if b then np.allclose (_end self) (_end other) zero tol else Ok false
  end.

Definition squeeze (self : IntervalProd) : result IntervalProd :=
  b_new ← np.take (_begin self) (_inondeg self);
  e_new ← np.take (_end self) (_inondeg self);
  IntervalProd_init (np.array b_new) (np.array e_new).

(** [IntervalProd.collapse].  [b_new] and [e_new] are copies of the bound
    arrays with the values assigned; [Heap.collapse] below has the
    copies and the assignments in memory. *)
Definition collapse (self : IntervalProd) (indcs : np.array_like Z)
    (values : np.array_like float64) : result IntervalProd :=
  let indcs := np.atleast_1d indcs in
  let values := np.atleast_1d values in
  if decide (length indcs ≠ length values) then Raise LengthMismatch
  else if np.any ((fun i => i <? 0) <$> indcs)
          || np.any ((fun i => i >=? Z.of_nat (dim self)) <$> indcs)
  then Raise IndexOutOfRange
  else
    lo ← np.take (_begin self) indcs;
    if np.any (zip_with lt values lo) then Raise ValueOutOfBounds
    else
      hi ← np.take (_end self) indcs;
      if np.any (zip_with gt values hi) then Raise ValueOutOfBounds
      else
        b_new ← np.assign (_begin self) indcs values;
        e_new ← np.assign (_end self) indcs values;
        IntervalProd_init (np.array b_new) (np.array e_new).

Section Externals.

(** [numpy.linalg.norm(x, ord)] on a vector. *)
Variable norm : float64 -> list float64 -> float64.

(** The contents of the array [np.empty(n)] returns: whatever the
    memory holds. *)
Variable uninitialized : nat -> float64.

(** [odl.discr.grid.RegularGrid(shape, center, stride)], the grid
    constructor [uniform_sampling] hands over to. *)
Variable Grid : Type.
Variable RegularGrid :
  list Z -> np.array_like float64 -> list float64 -> result Grid.

Definition np_empty (n : nat) : list float64 := uninitialized <$> seq 0 n.

Definition dist (self : IntervalProd) (point : np.array_like float64)
    (ord : float64) : result float64 :=
  let point := np.atleast_1d point in
  if decide (length point ≠ dim self) then Raise DimensionMismatch
  else
    let i_larger := np.where_ (zip_with gt point (_end self)) in
    let i_smaller := np.where_ (zip_with lt point (_begin self)) in
    if decide (length i_larger = 0%nat ∧ length i_smaller = 0%nat) then Ok zero
    else
      p_larger ← np.take point i_larger;
      p_smaller ← np.take point i_smaller;
      let proj := np.concatenate p_larger p_smaller in
      e_larger ← np.take (_end self) i_larger;
      b_smaller ← np.take (_begin self) i_smaller;
      let border := np.concatenate e_larger b_smaller in
      Ok (norm ord (zip_with sub proj border)).

Definition contains (self : IntervalProd) (point : np.array_like float64)
    (tol : float64) : result bool :=
  let point := np.atleast_1d point in
  if decide (length point ≠ dim self) then Ok false
  else
    p0 ← np.getitem point 0;
    if negb (RealNumbers_contains p0) then Ok false
    else
      dist self (np.array point) inf ≫= fun d : float64 =>
      if gt d tol then Ok false else Ok true.

Definition insert (self : IntervalProd)
    (other : IntervalProd + np.array_like float64) (index : Z)
  : result IntervalProd :=
  if negb ((0 <=? index) && (index <=? Z.of_nat (dim self)))
  then Raise IndexOutOfRange
  else
    other ← match other with
            | inl o => Ok o
            | inr a => IntervalProd_init a a
            end;
    let i := Z.to_nat index in
    let n := (dim self + dim other)%nat in
    let new_beg := np_empty n in
    let new_end := np_empty n in
    new_beg ← np.set_slice new_beg 0 i (np.slice (_begin self) 0 i);
    new_end ← np.set_slice new_end 0 i (np.slice (_end self) 0 i);
    new_beg ← np.set_slice new_beg i (i + dim other) (_begin other);
    new_end ← np.set_slice new_end i (i + dim other) (_end other);
    if decide (i < dim self)%nat
    then
      new_beg ← np.set_slice new_beg (i + dim other) n
                  (np.slice (_begin self) i (dim self));
      new_end ← np.set_slice new_end (i + dim other) n
                  (np.slice (_end self) i (dim self));
      IntervalProd_init (np.array new_beg) (np.array new_end)
    else IntervalProd_init (np.array new_beg) (np.array new_end).

Definition uniform_sampling (self : IntervalProd) (num_nodes : np.array_like Z)
    (as_midp : bool) : result Grid :=
  let num_nodes := np.atleast_1d num_nodes in
  if np.any (isinf <$> _begin self) || np.any (isinf <$> _end self)
  then Raise UnboundedDomain
  else if decide (length num_nodes ≠ dim self) then Raise ShapeMismatch
  else if np.any ((fun n => n <=? 0) <$> num_nodes) then Raise NonPositiveCount
  else
    on_deg ← np.take num_nodes (_ideg self);
    if np.any ((fun n => n >? 1) <$> on_deg) then Raise DegenerateOversample
    else
      center ← midpoint self;
      let stride :=
        if as_midp
        then zip_with div (size self) (of_int <$> num_nodes)
        else zip_with div (size self)
               (of_int <$> ((fun n => int64 (n - 1)) <$> num_nodes)) in
      RegularGrid num_nodes center stride.

End Externals.

(** ** Arrays in memory

    [collapse] copies the bound arrays of the receiver and assigns into
    the copies in place.  To say that the receiver is left as it was,
    the arrays are put in a store and an [IntervalProd] object refers to
    its two bound arrays by their locations. *)

Module Heap.

Abbreviation loc := positive.
Abbreviation store := (gmap positive (list float64)).

(** A new array ([a.copy()], [a.astype(np.float64)]). *)
Definition alloc (σ : store) (a : list float64) : loc * store :=
  let l := fresh (dom σ) in (l, <[l := a]> σ).

Definition deref (σ : store) (l : loc) : list float64 := default [] (σ !! l).

Record IntervalProd_ref := {
  begin_at : loc;
  end_at : loc;
  ideg_at : list Z;
  inondeg_at : list Z
}.

(** The box an object stands for in a store. *)
Definition contents (σ : store) (o : IntervalProd_ref) : IntervalProd :=
  {| _begin := deref σ (begin_at o);
     _end := deref σ (end_at o);
     _ideg := ideg_at o;
     _inondeg := inondeg_at o |}.

Definition allocated (σ : store) (o : IntervalProd_ref) : Prop :=
  is_Some (σ !! begin_at o) /\ is_Some (σ !! end_at o).

(** [IntervalProd.__init__] on two arrays of the store. *)
Definition init (σ : store) (begin end_ : loc)
  : store * result IntervalProd_ref :=
  let '(b, σ) := alloc σ (deref σ begin) in
  let '(e, σ) := alloc σ (deref σ end_) in
  let vb := deref σ b in
  let ve := deref σ e in
  if decide (length vb ≠ length ve) then (σ, Raise DimensionMismatch)
  else if negb (np.all (zip_with le vb ve)) then (σ, Raise OrderingViolation)
  else (σ, Ok {| begin_at := b;
                 end_at := e;
                 ideg_at := np.where_ (zip_with eq vb ve);
                 inondeg_at := np.where_ (zip_with ne vb ve) |}).

(** [IntervalProd.collapse] on an object of the store. *)
Definition collapse (σ : store) (self : IntervalProd_ref)
    (indcs : np.array_like Z) (values : np.array_like float64)
  : store * result IntervalProd_ref :=
  let indcs := np.atleast_1d indcs in
  let values := np.atleast_1d values in
  let n := length (deref σ (begin_at self)) in
  if decide (length indcs ≠ length values) then (σ, Raise LengthMismatch)
  else if np.any ((fun i => i <? 0) <$> indcs)
          || np.any ((fun i => i >=? Z.of_nat n) <$> indcs)
  then (σ, Raise IndexOutOfRange)
  else
    match np.take (deref σ (begin_at self)) indcs with
    | Raise e => (σ, Raise e)
    | Ok lo =>
    if np.any (zip_with lt values lo) then (σ, Raise ValueOutOfBounds)
    else
    match np.take (deref σ (end_at self)) indcs with
    | Raise e => (σ, Raise e)
    | Ok hi =>
    if np.any (zip_with gt values hi) then (σ, Raise ValueOutOfBounds)
    else
    let '(b_new, σ) := alloc σ (deref σ (begin_at self)) in
    match np.assign (deref σ b_new) indcs values with
    | Raise e => (σ, Raise e)
    | Ok a =>
    let σ := <[b_new := a]> σ in
    let '(e_new, σ) := alloc σ (deref σ (end_at self)) in
    match np.assign (deref σ e_new) indcs values with
    | Raise e => (σ, Raise e)
    | Ok a =>
    let σ := <[e_new := a]> σ in
    init σ b_new e_new
    end end end end.

(** Every array of [σ] is in [σ'], as it was. *)
Definition preserved (σ σ' : store) : Prop :=
  forall l, is_Some (σ !! l) -> σ' !! l = σ !! l.

End Heap.

Definition result_map {A B} (f : A -> B) (r : result A) : result B :=
  match r with
  | Ok a => Ok (f a)
  | Raise e => Raise e
  end.

(** ** The rest of the module: [contains_set], [corners], the variants *)

(** The two failures of the module that [error] has no name for:
    [corners] raises [ValueError] for an order other than ['C'] and
    ['F'], [contains_set] raises [TypeError] for an argument without
    [min] or [max]. *)
Inductive more_error :=
  | InvalidOption
  | CapabilityMissing.

(** A call that raises one of them, or goes on as the rest of the module
    does. *)
Inductive outcome (A : Type) :=
  | raised (e : more_error)
  | ran (r : result A).

Arguments raised {A} e.
Arguments ran {A} r.

(** An object given to [contains_set]: what its attributes [min] and
    [max] hold, if it has them.  The code hands the attributes themselves
    to [contains], without calling them, so that they are the points
    here. *)
Record set_like := {
  attr_min : option (np.array_like float64);
  attr_max : option (np.array_like float64)
}.

(** The argument [order] of [corners]. *)
Inductive order_arg :=
  | order_C
  | order_F
  | order_other.

(** An entry of [minmax_vecs] in [corners]: the [0] the list is made of,
    the bound of a degenerate axis, or the two bounds of another. *)
Inductive coord_vector :=
  | placeholder
  | single (x : float64)
  | pair_of (b e : float64).

(** [for axis in axes: vecs = body(axis, vecs)] *)
Fixpoint for_axes {A} (body : Z -> A -> result A) (axes : list Z) (vecs : A)
  : result A :=
  match axes with
  | [] => Ok vecs
  | axis :: rest => vecs' ← body axis vecs; for_axes body rest vecs'
  end.

(** [minmax_vecs] as [corners] builds it. *)
Definition minmax_vecs (self : IntervalProd) : result (list coord_vector) :=
  let vecs := replicate (dim self) placeholder in
  vecs ← for_axes
           (fun axis vecs =>
              b ← np.getitem (_begin self) axis;
              np.setitem vecs axis (single b))
           (_ideg self) vecs;
  for_axes
    (fun axis vecs =>
       b ← np.getitem (_begin self) axis;
       e ← np.getitem (_end self) axis;
       np.setitem vecs axis (pair_of b e))
    (_inondeg self) vecs.

Section MoreExternals.

Variable norm : float64 -> list float64 -> float64.

(** [odl.discr.grid.TensorGrid], given the vectors as its arguments, and
    [points(order=order)] of the grid. *)
Variable Points : Type.
Variable TensorGrid_points : list coord_vector -> order_arg -> result Points.

Definition contains_set (self : IntervalProd) (other : set_like)
    (tol : float64) : outcome bool :=
  match attr_min other, attr_max other with
  | Some other_min, Some other_max =>
      ran (contains norm self other_min tol ≫= fun b : bool =>
           if b then contains norm self other_max tol else Ok false)
  | _, _ => raised CapabilityMissing
  end.

Definition corners (self : IntervalProd) (order : order_arg) : outcome Points :=
  match order with
  | order_other => raised InvalidOption
  | _ => ran (vecs ← minmax_vecs self; TensorGrid_points vecs order)
  end.

End MoreExternals.

(** [IntervalProd.__len__] *)
Definition IntervalProd_len (self : IntervalProd) : nat := dim self.

(** [Interval.__init__], [Rectangle.__init__], [Cube.__init__]: the
    constructor of [IntervalProd], then the check of the dimension. *)
Definition Interval_init (begin end_ : np.array_like float64)
  : result IntervalProd :=
  self ← IntervalProd_init begin end_;
  if decide (dim self ≠ 1%nat) then Raise DimensionMismatch else Ok self.

Definition Rectangle_init (begin end_ : np.array_like float64)
  : result IntervalProd :=
  self ← IntervalProd_init begin end_;
  if decide (dim self ≠ 2%nat) then Raise DimensionMismatch else Ok self.

Definition Cube_init (begin end_ : np.array_like float64)
  : result IntervalProd :=
  self ← IntervalProd_init begin end_;
  if decide (dim self ≠ 3%nat) then Raise DimensionMismatch else Ok self.

(** [Interval.length] *)
Definition Interval_length (self : IntervalProd) : list float64 :=
  zip_with sub (_end self) (_begin self).

(** [Rectangle.area] *)
Definition Rectangle_area (self : IntervalProd) : result float64 :=
  volume self.

(** ** [equals] with numpy from version 2.0 on

    From numpy 2.0 on, [np.isclose] is
    [(abs(x - y) <= atol + rtol * abs(y)) & isfinite(y) | (x == y)]. *)

Module np2.

Definition isclose (rtol atol x y : float64) : bool :=
  (le (abs (sub x y)) (add atol (mul rtol (abs y))) && isfinite y) || eq x y.

Definition allclose (a b : list float64) (rtol atol : float64) : result bool :=
  xy ← np.broadcast a b;
  Ok (np.all ((fun p => isclose rtol atol p.1 p.2) <$> xy)).

End np2.

(** [IntervalProd.equals], run with such a numpy. *)
Definition equals_np2 (self : IntervalProd) (other : object) (tol : float64)
  : result bool :=
  match other with
  | not_IntervalProd => Ok false
  | is_IntervalProd other =>
      np2.allclose (_begin self) (_begin other) zero tol ≫= fun b : bool =>
      if b then np2.allclose (_end self) (_end other) zero tol else Ok false
  end.

(** ** Vocabulary of the specification *)

(** [a[mask]]: the entries of [a] at which the boolean array [mask]
    holds. *)
Fixpoint compress {A} (mask : list bool) (a : list A) : list A :=
  match mask, a with
  | b :: mask', x :: a' => (if b then [x] else []) ++ compress mask' a'
  | _, _ => []
  end.

(** A box is a value the constructor returned. *)
Definition constructed (self : IntervalProd) : Prop :=
  exists begin end_, IntervalProd_init begin end_ = Ok self.

(** The lengths [size[i]] of the non-degenerate axes [i], in the order
    of the axes. *)
Definition nondegenerate_sizes (self : IntervalProd) : list float64 :=
  (fun be => sub be.2 be.1)
    <$> filter (fun be => ne be.1 be.2 = true) (zip (_begin self) (_end self)).

(** The overshoot of a point: [point[i] - end[i]] on the axes where the
    point lies above the box, then [point[i] - begin[i]] on the axes
    where it lies below. *)
Definition overshoot (self : IntervalProd) (point : list float64)
  : list float64 :=
  ((fun pe => sub pe.1 pe.2)
     <$> filter (fun pe => gt pe.1 pe.2 = true) (zip point (_end self)))
  ++ ((fun pb => sub pb.1 pb.2)
     <$> filter (fun pb => lt pb.1 pb.2 = true) (zip point (_begin self))).

(** The point lies outside the box on some axis: above [end[i]] or below
    [begin[i]]. *)
Definition outside (self : IntervalProd) (p : list float64) : Prop :=
  exists (i : nat) (x b e : float64),
    p !! i = Some x /\ _begin self !! i = Some b /\ _end self !! i = Some e /\
    (gt x e = true \/ lt x b = true).

(** The argument of [insert] stands for a degenerate box: a box without
    a non-degenerate axis, or a scalar or an array of numbers. *)
Definition degenerate_arg (other : IntervalProd + np.array_like float64)
  : Prop :=
  match other with
  | inl d => constructed d /\ truedim d = 0%nat
  | inr a => Forall (fun v => isnan v = false) (np.atleast_1d a)
  end.

(** Two numbers match within the absolute tolerance [tol]: finite
    numbers when [|x - y| <= tol], an infinity only with itself, NaN
    with nothing. *)
Definition within (tol x y : float64) : bool :=
  if isfinite x && isfinite y then le (abs (sub x y)) tol else eq x y.

(** Some value to collapse to lies outside the interval of its axis. *)
Definition value_outside (self : IntervalProd) (idx : list Z)
    (vals : list float64) : Prop :=
  exists (k : nat) (j : Z) (v b e : float64),
    idx !! k = Some j /\ vals !! k = Some v /\
    _begin self !! Z.to_nat j = Some b /\ _end self !! Z.to_nat j = Some e /\
    (lt v b = true \/ gt v e = true).

(** Some bound of the box is infinite. *)
Definition unbounded (self : IntervalProd) : Prop :=
  exists x, (x ∈ _begin self \/ x ∈ _end self) /\ isinf x = true.

(** A degenerate axis is asked for more than one node. *)
Definition oversampled (self : IntervalProd) (num_nodes : list Z) : Prop :=
  exists (i : nat) (b e : float64) (k : Z),
    _begin self !! i = Some b /\ _end self !! i = Some e /\ eq b e = true /\
    num_nodes !! i = Some k /\ 1 < k.

(** The bounds of the box are well-formed binary64 values. *)
Definition binary64 (self : IntervalProd) : Prop :=
  Forall (fun x => valid x = true) (_begin self) /\
  Forall (fun x => valid x = true) (_end self).

(** The values an [np.int64] holds. *)
Definition is_int64 (n : Z) : Prop := - 2 ^ 63 <= n < 2 ^ 63.

(** The stride of the specification: [size[i] / num_nodes[i]] for
    midpoint sampling, [size[i] / (num_nodes[i] - 1)] otherwise. *)
Definition stride (self : IntervalProd) (num_nodes : list Z) (as_midp : bool)
  : list float64 :=
  zip_with (fun s k => div s (of_int (if as_midp then k else k - 1)))
           (size self) num_nodes.

(** [numpy.linalg.norm] at the two orders of the docstring of [dist]:
    the largest absolute value for [ord=inf], the square root of the sum
    of the squares for [ord=2]. *)
Definition norm_2_or_inf (ord : float64) (x : list float64) : float64 :=
  match ord with
  | S754_infinity false =>
      foldl (fun m v => if gt (abs v) m then abs v else m) zero x
  | _ => SFsqrt prec emax (foldl add zero ((fun v => mul v v) <$> x))
  end.

(** ** The boxes of the docstrings *)

(** The binary64 value nearest to the fraction [n / d]. *)
Definition frac (n d : Z) : float64 := div (of_int n) (of_int d).

(** [IntervalProd([-1, 2.5, 0], [-0.5, 10, 0])] *)
Definition flat_box : IntervalProd :=
  {| _begin := [of_int (-1); frac 5 2; of_int 0];
     _end := [frac (-1) 2; of_int 10; of_int 0];
     _ideg := [2];
     _inondeg := [0; 1] |}.

(** [IntervalProd([-1, 0, 2], [-0.5, 1, 3])] *)
Definition solid_box : IntervalProd :=
  {| _begin := [of_int (-1); of_int 0; of_int 2];
     _end := [frac (-1) 2; of_int 1; of_int 3];
     _ideg := [];
     _inondeg := [0; 1; 2] |}.

(** [IntervalProd([-1, 2], [-0.5, 3])] *)
Definition rbox : IntervalProd :=
  {| _begin := [of_int (-1); of_int 2];
     _end := [frac (-1) 2; of_int 3];
     _ideg := [];
     _inondeg := [0; 1] |}.

(** [IntervalProd([], [])] *)
Definition point_box : IntervalProd :=
  {| _begin := []; _end := []; _ideg := []; _inondeg := [] |}.

(** [IntervalProd([-1, 0, 2], [-0.5, 0, 3])] *)
Definition slab_box : IntervalProd :=
  {| _begin := [of_int (-1); of_int 0; of_int 2];
     _end := [frac (-1) 2; of_int 0; of_int 3];
     _ideg := [1];
     _inondeg := [0; 2] |}.

(** [IntervalProd([0, 1], [0, 2])], degenerate on its first axis. *)
Definition wall_box : IntervalProd :=
  {| _begin := [of_int 0; of_int 1];
     _end := [of_int 0; of_int 2];
     _ideg := [0];
     _inondeg := [1] |}.

(** The unit interval, square and cube. *)
Definition unit_box (n : nat) : IntervalProd :=
  {| _begin := replicate n zero;
     _end := replicate n one;
     _ideg := [];
     _inondeg := Z.of_nat <$> seq 0 n |}.

(** The invariants of the data model: [begin] and [end] have the length
    [dim], which is a natural number, and [begin[i] <= end[i]] on every
    axis. *)
Definition invariants (x : IntervalProd) : Prop :=
  length (_begin x) = dim x /\ length (_end x) = dim x /\ (0 <= dim x)%nat /\
  forall (i : nat) (b e : float64),
    _begin x !! i = Some b -> _end x !! i = Some e -> le b e = true.

(** ** Vocabulary of the further properties *)

(** The entry of [midpoint] for one axis: the bound of a degenerate
    axis, half the sum of the bounds of another. *)
Definition axis_midpoint (b e : float64) : float64 :=
  if eq b e then b else div (add e b) two.

(** The entry of [minmax_vecs] for one axis. *)
Definition axis_corners (b e : float64) : coord_vector :=
  if eq b e then single b else pair_of b e.

Definition is_pair (v : coord_vector) : bool :=
  match v with pair_of _ _ => true | _ => false end.

Definition is_scalar {A} (a : np.array_like A) : Prop :=
  match a with np.scalar _ => True | np.array _ => False end.

(** A value that is not below zero: NaN, a zero, or a number with a
    clear sign bit. *)
Definition not_negative (x : float64) : Prop :=
  match x with
  | S754_nan | S754_zero _ => True
  | S754_infinity s | S754_finite s _ _ => s = false
  end.

(** [IntervalProd([0, 0, -M], [t, t, M])] for [t = 2**-600] and the
    largest binary64 number [M]. *)
Definition thin_box : IntervalProd :=
  {| _begin := [of_int 0; of_int 0; of_int (2 ^ 971 - 2 ^ 1024)];
     _end := [frac 1 (2 ^ 600); frac 1 (2 ^ 600); of_int (2 ^ 1024 - 2 ^ 971)];
     _ideg := [];
     _inondeg := [0; 1; 2] |}.

(** The place of a number in the order of the comparisons: the sign
    class first, then the exponent and the mantissa, both reversed for
    negative numbers. *)
Definition rank (x : float64) : Z * Z * Z :=
  match x with
  | S754_nan | S754_zero _ => (0, 0, 0)
  | S754_infinity true => (-2, 0, 0)
  | S754_infinity false => (2, 0, 0)
  | S754_finite false m e => (1, e, Zpos m)
  | S754_finite true m e => (-1, - e, Zneg m)
  end.

Definition lex_compare (a b : Z * Z * Z) : comparison :=
  match a.1.1 ?= b.1.1 with
  | Eq => match a.1.2 ?= b.1.2 with Eq => a.2 ?= b.2 | c => c end
  | c => c
  end.

(** * Properties *)

(** ** Comparisons of binary64 values *)

Module F64Facts.

Lemma compare_swap (x y : float64) :
  SFcompare y x = CompOpp <$> SFcompare x y.
Proof.
  destruct x as [sx|sx| |sx mx ex], y as [sy|sy| |sy my ey];
    try destruct sx; try destruct sy; simpl; try reflexivity.
  all: rewrite (Z.compare_antisym ex ey); destruct (ex ?= ey); simpl;
    try reflexivity.
  all: replace (Pos.compare_cont Eq my mx)
         with (CompOpp (Pos.compare_cont Eq mx my))
         by apply (Pos.compare_cont_antisym mx my Eq);
    destruct (Pos.compare_cont Eq mx my); reflexivity.
Qed.

Lemma compare_self (x : float64) :
  isnan x = false -> SFcompare x x = Some Eq.
Proof.
  destruct x as [sx|sx| |sx mx ex]; try destruct sx; simpl; try done.
  all: intros _; rewrite Z.compare_refl, Pos.compare_cont_refl; reflexivity.
Qed.

Lemma compare_nan_l (x y : float64) : isnan x = true -> SFcompare x y = None.
Proof. destruct x; try done. Qed.

Lemma compare_nan_r (x y : float64) : isnan y = true -> SFcompare x y = None.
Proof. destruct y; try done. destruct x; done. Qed.

Lemma le_self (x : float64) : isnan x = false -> le x x = true.
Proof. intros H. unfold le, SFleb. by rewrite compare_self. Qed.

Lemma eq_self (x : float64) : isnan x = false -> eq x x = true.
Proof. intros H. unfold eq, SFeqb. by rewrite compare_self. Qed.

Lemma lt_self (x : float64) : lt x x = false.
Proof.
  unfold lt, SFltb. destruct (isnan x) eqn:E.
  - by rewrite compare_nan_l.
  - by rewrite compare_self.
Qed.

Lemma gt_self (x : float64) : gt x x = false.
Proof.
  unfold gt. destruct (isnan x) eqn:E.
  - by rewrite compare_nan_l.
  - by rewrite compare_self.
Qed.

Lemma le_numbers (x y : float64) :
  le x y = true -> isnan x = false /\ isnan y = false.
Proof. destruct x, y; done. Qed.

Lemma le_no_gt (x y : float64) : le x y = true -> gt x y = false.
Proof. unfold le, SFleb, gt. by destruct (SFcompare x y) as [[]|]. Qed.

Lemma le_no_lt (x y : float64) : le x y = true -> lt y x = false.
Proof.
  unfold le, SFleb, lt, SFltb. rewrite (compare_swap x y).
  by destruct (SFcompare x y) as [[]|].
Qed.

Lemma gt_lt (x y : float64) : gt x y = lt y x.
Proof.
  unfold gt, lt, SFltb. rewrite (compare_swap x y).
  by destruct (SFcompare x y) as [[]|].
Qed.

Lemma compare_numbers (x y : float64) :
  isnan x = false -> isnan y = false -> is_Some (SFcompare x y).
Proof. destruct x, y; try done; simpl; eauto. Qed.

(** Among numbers, "neither above nor below" is "between". *)
Lemma between (b p e : float64) :
  isnan p = false -> isnan b = false -> isnan e = false ->
  (le b p && le p e) = (negb (gt p e) && negb (lt p b)).
Proof.
  intros Hp Hb He. unfold le, SFleb, gt, lt, SFltb.
  rewrite (compare_swap b p).
  destruct (compare_numbers b p Hb Hp) as [c1 ->].
  destruct (compare_numbers p e Hp He) as [c2 ->].
  by destruct c1, c2.
Qed.

Lemma le_ne_lt (x y : float64) : le x y = true -> ne x y = true -> lt x y = true.
Proof. unfold le, SFleb, ne, SFeqb, lt, SFltb. by destruct (SFcompare x y) as [[]|]. Qed.

Lemma ne_eq (x y : float64) : ne x y = negb (eq x y).
Proof. reflexivity. Qed.

(** The difference of a finite number with itself is zero. *)
Lemma sub_self (x : float64) : isfinite x = true -> abs (sub x x) = zero.
Proof.
  destruct x as [sx|sx| |sx mx ex]; try done.
  - by destruct sx.
  - intros _. unfold sub, SFsub. by rewrite Z.sub_diag.
Qed.

(** The right-hand side of numpy's tolerance test without relative
    tolerance compares like the absolute tolerance itself. *)
Lemma le_atol_only (a tol y : float64) :
  isfinite y = true -> le a (add tol (mul zero (abs y))) = le a tol.
Proof.
  intros Hy. assert (mul zero (abs y) = zero) as -> by (by destruct y).
  destruct tol as [s|s| |s m e]; try done. by destruct s, a.
Qed.

Lemma isclose_self (x : float64) :
  isnan x = false -> np.isclose zero zero x x = true.
Proof.
  intros H. unfold np.isclose. destruct (isfinite x) eqn:E; simpl.
  - unfold np.within_tol. rewrite le_atol_only by done. by rewrite sub_self.
  - by apply eq_self.
Qed.

End F64Facts.

(** ** Index arrays and masks *)

Module npFacts.

Lemma index_nat {A} (a : list A) (i : nat) :
  (i < length a)%nat -> np.index a (Z.of_nat i) = Ok i.
Proof.
  intros H. unfold np.index.
  destruct (Z.ltb_spec (Z.of_nat i) 0) as [?|_]; [lia|].
  destruct (Z.leb_spec 0 (Z.of_nat i)) as [_|?]; [|lia].
  destruct (Z.ltb_spec (Z.of_nat i) (Z.of_nat (length a))) as [_|?]; [|lia].
  simpl. by rewrite Nat2Z.id.
Qed.

Lemma index_bound {A} (a : list A) (i : Z) (j : nat) :
  np.index a i = Ok j -> (j < length a)%nat.
Proof.
  unfold np.index. intros H.
  destruct (_ && _) eqn:E; [|done]. inversion H. lia.
Qed.

Lemma getitem_nat {A} (a : list A) (i : nat) (x : A) :
  a !! i = Some x -> np.getitem a (Z.of_nat i) = Ok x.
Proof.
  intros H. unfold np.getitem.
  rewrite index_nat by (by eapply lookup_lt_Some). simpl. by rewrite H.
Qed.

Lemma take_cons {A} (a : list A) (i : Z) (idx : list Z) :
  np.take a (i :: idx)
  = x ← np.getitem a i; xs ← np.take a idx; Ok (x :: xs).
Proof. reflexivity. Qed.

Lemma take_where_from {A} (m : list bool) :
  forall (pre a : list A),
    (length m <= length a)%nat ->
    np.take (pre ++ a) (np.where_from (length pre) m) = Ok (compress m a).
Proof.
  induction m as [|b m IH]; intros pre a Hlen; [done|].
  destruct a as [|x a]; simpl in Hlen; [lia|].
  assert (np.take (pre ++ x :: a) (np.where_from (S (length pre)) m)
          = Ok (compress m a)) as Hrest.
  { specialize (IH (pre ++ [x]) a).
    rewrite <- app_assoc, length_app in IH. simpl in IH.
    rewrite Nat.add_1_r in IH. apply IH. lia. }
  destruct b; [|exact Hrest].
  change (np.where_from (length pre) (true :: m))
    with (Z.of_nat (length pre) :: np.where_from (S (length pre)) m).
  rewrite take_cons, (getitem_nat _ _ x) by (by apply list_lookup_middle).
  simpl. by rewrite Hrest.
Qed.

Lemma take_where {A} (m : list bool) (a : list A) :
  (length m <= length a)%nat -> np.take a (np.where_ m) = Ok (compress m a).
Proof. intros H. exact (take_where_from m [] a H). Qed.

Lemma length_where_from (m : list bool) :
  forall i, length (np.where_from i m) = length (compress m m).
Proof.
  induction m as [|b m IH]; intros i; [done|].
  simpl. rewrite !length_app, IH. by destruct b.
Qed.

Lemma length_compress {A} (m : list bool) :
  forall a : list A,
    (length m <= length a)%nat -> length (compress m a) = length (compress m m).
Proof.
  induction m as [|b m IH]; intros a H; [done|].
  destruct a as [|x a]; simpl in *; [lia|].
  rewrite !length_app, (IH a) by lia. by destruct b.
Qed.

Lemma length_compress_le {A} (m : list bool) :
  forall a : list A, (length (compress m a) <= length m)%nat.
Proof.
  induction m as [|b m IH]; intros a; [done|].
  destruct a as [|x a]; simpl; [lia|].
  rewrite length_app. specialize (IH a). destruct b; simpl; lia.
Qed.

Lemma length_compress_lt (m : list bool) :
  false ∈ m -> (length (compress m m) < length m)%nat.
Proof.
  induction m as [|b m IH]; intros H; [by apply elem_of_nil in H|].
  simpl. rewrite length_app. pose proof (length_compress_le m m).
  apply elem_of_cons in H as [<-|H]; simpl; [lia|].
  specialize (IH H). destruct b; simpl; lia.
Qed.

Lemma compress_zip_with {A B C} (f : A -> B -> C) (m : list bool) :
  forall a b,
    compress m (zip_with f a b) = zip_with f (compress m a) (compress m b).
Proof.
  induction m as [|c m IH]; intros a b; [done|].
  destruct a as [|x a], b as [|y b]; simpl; try done.
  - by destruct c; simpl; destruct (compress m a).
  - rewrite IH. by destruct c.
Qed.

Lemma compress_all {A} (m : list bool) :
  forall a : list A,
    Forall (fun b => b = true) m -> length m = length a -> compress m a = a.
Proof.
  induction m as [|b m IH]; intros a Hm Hlen; destruct a as [|x a]; try done.
  inversion Hm; subst. simpl. f_equal. apply IH; [done|]. simpl in Hlen. lia.
Qed.

Lemma compress_none {A} (m : list bool) :
  forall a : list A, Forall (fun b => b = false) m -> compress m a = [].
Proof.
  induction m as [|b m IH]; intros a Hm; destruct a as [|x a]; try done.
  inversion Hm; subst. simpl. by apply IH.
Qed.

Lemma compress_app {A} (m1 m2 : list bool) :
  forall a1 a2 : list A,
    length m1 = length a1 ->
    compress (m1 ++ m2) (a1 ++ a2) = compress m1 a1 ++ compress m2 a2.
Proof.
  induction m1 as [|b m1 IH]; intros a1 a2 H; destruct a1 as [|x a1];
    try done.
  simpl. rewrite IH by (simpl in H; lia). by rewrite app_assoc.
Qed.

Lemma compress_self_all (m : list bool) :
  Forall (fun b => b = true) (compress m m).
Proof.
  induction m as [|b m IH]; [constructor|].
  simpl. destruct b; simpl; [by constructor|done].
Qed.

(** Selecting with the mask a test computes is filtering by the test. *)
Lemma compress_filter {A B C} (t : A -> B -> bool) (f : A -> B -> C) :
  forall a b,
    zip_with f (compress (zip_with t a b) a) (compress (zip_with t a b) b)
    = (fun p => f p.1 p.2) <$> filter (fun p => t p.1 p.2 = true) (zip a b).
Proof.
  induction a as [|x a IH]; intros b; [done|].
  destruct b as [|y b]; [done|]. simpl.
  rewrite filter_cons. simpl. destruct (t x y) eqn:E.
  - rewrite decide_True by done. simpl. by rewrite IH.
  - rewrite decide_False by done. apply IH.
Qed.

Lemma where_from_nil (m : list bool) (i : nat) :
  length (np.where_from i m) = 0%nat <-> np.any m = false.
Proof.
  revert i. induction m as [|b m IH]; intros i; [done|].
  simpl. rewrite length_app. destruct b; simpl; [split; [lia|done]|].
  apply IH.
Qed.

End npFacts.

(** ** Boxes *)

Module BoxFacts.

Import F64Facts npFacts.

Lemma all_zip_with {A B} (t : A -> B -> bool) (a : list A) (b : list B) :
  length a = length b ->
  np.all (zip_with t a b) = true <-> Forall2 (fun x y => t x y = true) a b.
Proof.
  revert b. induction a as [|x a IH]; intros [|y b] Hlen; try done.
  simpl in Hlen. unfold np.all in *. simpl. split.
  - intros [H1 H2]%andb_prop. constructor; [done|]. apply IH; [lia|done].
  - intros H. inversion H; subst. apply andb_true_intro. split; [done|].
    apply IH; [lia|done].
Qed.

Lemma any_zip_with {A B} (t : A -> B -> bool) (a : list A) (b : list B) :
  Forall2 (fun x y => t x y = false) a b -> np.any (zip_with t a b) = false.
Proof.
  induction 1 as [|x y a b Hxy _ IH]; [done|].
  unfold np.any in *. simpl. by rewrite Hxy, IH.
Qed.

Lemma Forall2_compress {A B} (P : A -> B -> Prop) (m : list bool)
    (a : list A) (b : list B) :
  Forall2 P a b -> Forall2 P (compress m a) (compress m b).
Proof.
  intros H. revert m. induction H as [|x y a b Hxy _ IH]; intros [|c m];
    try constructor.
  simpl. apply Forall2_app; [|apply IH]. destruct c; repeat constructor; done.
Qed.

(** What the constructor checks and stores. *)
Lemma init_inv (begin end_ : np.array_like float64) (self : IntervalProd) :
  IntervalProd_init begin end_ = Ok self ->
  _begin self = np.atleast_1d begin /\ _end self = np.atleast_1d end_ /\
  Forall2 (fun x y => le x y = true) (_begin self) (_end self) /\
  _ideg self = np.where_ (zip_with eq (_begin self) (_end self)) /\
  _inondeg self = np.where_ (zip_with ne (_begin self) (_end self)).
Proof.
  unfold IntervalProd_init. intros H.
  case_decide as Hlen; [done|].
  destruct (np.all _) eqn:Hall; [|done]. simpl in H.
  inversion H; subst; simpl. by rewrite <- all_zip_with.
Qed.

Lemma init_ok (b e : list float64) :
  Forall2 (fun x y => le x y = true) b e ->
  IntervalProd_init (np.array b) (np.array e)
  = Ok {| _begin := b; _end := e;
          _ideg := np.where_ (zip_with eq b e);
          _inondeg := np.where_ (zip_with ne b e) |}.
Proof.
  intros H. unfold IntervalProd_init. simpl.
  pose proof (Forall2_length _ _ _ H) as Hlen.
  rewrite decide_False by (by intros ?).
  by rewrite (proj2 (all_zip_with le b e Hlen) H).
Qed.

Lemma constructed_inv (self : IntervalProd) :
  constructed self ->
  Forall2 (fun x y => le x y = true) (_begin self) (_end self) /\
  _ideg self = np.where_ (zip_with eq (_begin self) (_end self)) /\
  _inondeg self = np.where_ (zip_with ne (_begin self) (_end self)).
Proof. intros (b & e & H). apply init_inv in H. tauto. Qed.

Lemma constructed_lengths (self : IntervalProd) :
  constructed self -> length (_end self) = dim self.
Proof.
  intros (H & _)%constructed_inv. symmetry. by eapply Forall2_length.
Qed.

Lemma init_constructed (b e : np.array_like float64) (self : IntervalProd) :
  IntervalProd_init b e = Ok self -> constructed self.
Proof. intros H. by exists b, e. Qed.

Lemma truedim_count (self : IntervalProd) :
  constructed self ->
  truedim self
  = length (compress (zip_with ne (_begin self) (_end self))
                     (zip_with ne (_begin self) (_end self))).
Proof.
  intros (_ & _ & H)%constructed_inv. unfold truedim. rewrite H.
  apply length_where_from.
Qed.

Lemma truedim_le_dim (self : IntervalProd) :
  constructed self -> (truedim self <= dim self)%nat.
Proof.
  intros H. rewrite truedim_count by done.
  etrans; [apply length_compress_le|].
  rewrite length_zip_with. unfold dim. lia.
Qed.

(** The sizes [measure] multiplies are those of the non-degenerate
    axes. *)
Lemma sizes_nondegenerate (self : IntervalProd) :
  constructed self ->
  np.take (zip_with sub (_end self) (_begin self)) (_inondeg self)
  = Ok (nondegenerate_sizes self).
Proof.
  intros H. destruct (constructed_inv _ H) as (Hle & _ & ->).
  rewrite take_where by (rewrite !length_zip_with; lia).
  f_equal. unfold nondegenerate_sizes.
  rewrite <- (compress_filter ne (fun b e => sub e b)).
  rewrite compress_zip_with. apply (zip_with_flip (fun b e => sub e b)).
Qed.

Lemma measure_dim_exact (self : IntervalProd) :
  constructed self -> truedim self <> 0%nat ->
  measure_dim self (Z.of_nat (truedim self))
  = Ok (np.prod (nondegenerate_sizes self)).
Proof.
  intros H Ht. unfold measure_dim. rewrite decide_False by done.
  rewrite Z.ltb_irrefl, Z.gtb_ltb, Z.ltb_irrefl.
  by rewrite sizes_nondegenerate.
Qed.

(** [squeeze] keeps the axes at which [begin != end]. *)
Lemma squeeze_ok (self : IntervalProd) :
  constructed self ->
  let m := zip_with ne (_begin self) (_end self) in
  let b := compress m (_begin self) in
  let e := compress m (_end self) in
  squeeze self
  = Ok {| _begin := b; _end := e;
          _ideg := np.where_ (zip_with eq b e);
          _inondeg := np.where_ (zip_with ne b e) |}.
Proof.
  intros H m b e. destruct (constructed_inv _ H) as (Hle & _ & Hnd).
  pose proof (Forall2_length _ _ _ Hle) as Hlen.
  unfold squeeze. rewrite Hnd.
  rewrite !take_where by (rewrite length_zip_with; lia). simpl.
  apply init_ok. by apply Forall2_compress.
Qed.

Lemma squeezed_mask (b e : list float64) :
  zip_with ne (compress (zip_with ne b e) b) (compress (zip_with ne b e) e)
  = compress (zip_with ne b e) (zip_with ne b e).
Proof. by rewrite <- compress_zip_with. Qed.

Lemma squeeze_dims (self s : IntervalProd) :
  constructed self -> squeeze self = Ok s ->
  constructed s /\ dim s = truedim self /\ truedim s = truedim self /\
  nondegenerate_sizes s = nondegenerate_sizes self.
Proof.
  intros H Hs. pose proof (squeeze_ok _ H) as Hs'. simpl in Hs'.
  rewrite Hs in Hs'.
  assert (constructed s) as Hc.
  { unfold squeeze in Hs.
    destruct (np.take (_begin self) _); [|done].
    destruct (np.take (_end self) _); [|done].
    by eapply init_constructed. }
  destruct (constructed_inv _ H) as (Hle & _ & Hnd).
  pose proof (Forall2_length _ _ _ Hle) as Hlen.
  pose proof (sizes_nondegenerate _ Hc) as Hsz.
  pose proof (sizes_nondegenerate _ H) as Hsz'.
  rewrite Hnd, take_where in Hsz' by (rewrite !length_zip_with; lia).
  rewrite (truedim_count self H).
  injection Hs' as ->.
  unfold dim, truedim. simpl in *.
  rewrite squeezed_mask in *.
  set (m := zip_with ne (_begin self) (_end self)) in *.
  assert (length m = length (_begin self)) as Hm
    by (unfold m; rewrite length_zip_with; lia).
  assert (compress (compress m m) (compress m m) = compress m m) as Hmm
    by (apply compress_all; [apply compress_self_all|done]).
  rewrite take_where in Hsz
    by (rewrite length_zip_with, (length_compress m (_end self)),
          (length_compress m (_begin self)) by lia; lia).
  unfold np.where_. rewrite length_where_from, Hmm.
  split; [done|]. split; [apply length_compress; lia|]. split; [done|].
  rewrite compress_all in Hsz.
  - rewrite <- compress_zip_with in Hsz.
    injection Hsz as Hsz. injection Hsz' as Hsz'.
    etrans; [symmetry; exact Hsz|exact Hsz'].
  - apply compress_self_all.
  - rewrite length_zip_with, (length_compress m (_end self)),
      (length_compress m (_begin self)) by lia. lia.
Qed.

End BoxFacts.

(** Inversion of a computation that returned. *)
Ltac ok_inv H :=
  repeat
    (simpl in H;
     match type of H with
     | Raise _ = Ok _ => discriminate H
     | (?m ≫= _) = Ok _ =>
         let a := fresh "a" in
         let E := fresh "E" in
         destruct m as [a|] eqn:E; [|discriminate H]
     | (if decide ?P then _ else _) = Ok _ =>
         let D := fresh "D" in destruct (decide P) as [D|D]
     | (if ?c then _ else _) = Ok _ =>
         let C := fresh "C" in destruct c eqn:C
     end).

Lemma example_boxes_constructed :
  constructed flat_box /\ constructed solid_box /\ constructed rbox /\
  constructed point_box.
Proof.
  repeat split.
  - by exists (np.array (_begin flat_box)), (np.array (_end flat_box)).
  - by exists (np.array (_begin solid_box)), (np.array (_end solid_box)).
  - by exists (np.array (_begin rbox)), (np.array (_end rbox)).
  - by exists (np.array []), (np.array []).
Qed.

Lemma more_boxes_constructed :
  constructed slab_box /\ constructed wall_box /\
  constructed (unit_box 1) /\ constructed (unit_box 2) /\
  constructed (unit_box 3).
Proof.
  repeat split.
  - by exists (np.array (_begin slab_box)), (np.array (_end slab_box)).
  - by exists (np.array (_begin wall_box)), (np.array (_end wall_box)).
  - by exists (np.scalar zero), (np.scalar one).
  - by exists (np.array [zero; zero]), (np.array [one; one]).
  - by exists (np.array [zero; zero; zero]), (np.array [one; one; one]).
Qed.

(** ** Measure *)

(** C1. [measure(dim)] follows the generalized Hausdorff convention: a
    box of true dimension 0 measures 0.0 at every requested dimension;
    otherwise, [dim] standing for [truedim] when it is omitted, the
    measure is +infinity for [dim < truedim], 0.0 for [dim > truedim],
    and the product of [size[i]] over the non-degenerate axes for
    [dim == truedim]. *)
Theorem measure_hausdorff (self : IntervalProd) (dim : option Z) :
  constructed self ->
  (truedim self = 0%nat -> measure self dim = Ok zero) /\
  (truedim self <> 0%nat ->
   let d := default (Z.of_nat (truedim self)) dim in
   (d < Z.of_nat (truedim self) -> measure self dim = Ok inf) /\
   (d > Z.of_nat (truedim self) -> measure self dim = Ok zero) /\
   (d = Z.of_nat (truedim self) ->
    measure self dim = Ok (np.prod (nondegenerate_sizes self)))).
Proof.
  intros H. split.
  - intros Ht. unfold measure. by rewrite decide_True.
  - intros Ht d.
    assert (measure self dim = measure_dim self d) as ->.
    { unfold measure. rewrite decide_False by done. by destruct dim. }
    repeat split; intros Hd.
    + unfold measure_dim. rewrite decide_False by done.
      by destruct (Z.ltb_spec d (Z.of_nat (truedim self))); [|lia].
    + unfold measure_dim. rewrite decide_False by done.
      destruct (Z.ltb_spec d (Z.of_nat (truedim self))); [lia|].
      rewrite Z.gtb_ltb.
      by destruct (Z.ltb_spec (Z.of_nat (truedim self)) d); [|lia].
    + rewrite Hd. by apply BoxFacts.measure_dim_exact.
Qed.

(** The box of the docstring of [measure]: 3.75, 0.0 at [dim=3] and
    infinity at [dim=1]. *)
Lemma measure_hausdorff_witness :
  constructed flat_box /\
  measure flat_box None = Ok (frac 15 4) /\
  measure flat_box (Some 3) = Ok zero /\
  measure flat_box (Some 1) = Ok inf.
Proof.
  pose proof (proj1 example_boxes_constructed) as Hc.
  split; [exact Hc|].
  destruct (measure_hausdorff flat_box None Hc) as [_ H0].
  destruct (measure_hausdorff flat_box (Some 3) Hc) as [_ H3].
  destruct (measure_hausdorff flat_box (Some 1) Hc) as [_ H1].
  split; [|split].
  - rewrite (proj2 (proj2 (H0 ltac:(done))) eq_refl). reflexivity.
  - apply (proj1 (proj2 (H3 ltac:(done)))). reflexivity.
  - apply (proj1 (H1 ltac:(done))). reflexivity.
Defined.

(** [measure] returns, whatever dimension is asked for. *)
Lemma measure_returns (self : IntervalProd) (dim : option Z) :
  constructed self -> exists r, measure self dim = Ok r.
Proof.
  intros H.
  assert (forall d, exists r, measure_dim self d = Ok r) as Hd.
  { intros d. unfold measure_dim. case_decide; [by eexists|].
    destruct (d <? _); [by eexists|]. destruct (d >? _); [by eexists|].
    rewrite BoxFacts.sizes_nondegenerate by done. by eexists. }
  unfold measure. case_decide; [by eexists|]. destruct dim; apply Hd.
Qed.

(** [x == x] holds of every value but NaN. *)
Lemma eq_same (x : float64) : eq x x = negb (isnan x).
Proof.
  destruct (isnan x) eqn:E; [by destruct x|]. by apply F64Facts.eq_self.
Qed.

(** C3, with [==] read as the comparison of the two values.  [volume]
    is [measure(dim=dim)], so that a box with a degenerate axis has volume
    0.0, and [measure()] is [squeeze().volume]: in both pairs the two
    calls return the same value, and [==] on them answers [True] exactly
    when that value is not NaN. *)
Theorem volume_measure_squeeze (self : IntervalProd) :
  constructed self ->
  volume self = measure self (Some (Z.of_nat (dim self))) /\
  ((exists (i : nat) (b e : float64),
       _begin self !! i = Some b /\ _end self !! i = Some e /\
       eq b e = true) ->
   volume self = Ok zero) /\
  (exists s, squeeze self = Ok s /\ measure self None = volume s) /\
  (exists v w,
      volume self = Ok v /\ measure self (Some (Z.of_nat (dim self))) = Ok w /\
      v = w /\ eq v w = negb (isnan v)) /\
  (exists s m v,
      squeeze self = Ok s /\ measure self None = Ok m /\ volume s = Ok v /\
      m = v /\ eq m v = negb (isnan m)).
Proof.
  intros H. split; [done|].
  assert (exists s, squeeze self = Ok s /\ measure self None = volume s)
    as (s & Hs & Hm).
  { pose proof (BoxFacts.squeeze_ok _ H) as Hs. simpl in Hs.
    eexists. split; [exact Hs|].
    destruct (BoxFacts.squeeze_dims _ _ H Hs) as (Hc & Hd & Ht & Hsz).
    unfold volume. rewrite Hd, <- Ht. unfold measure.
    rewrite Ht. case_decide as H0; [done|].
    rewrite <- Ht at 2.
    rewrite !BoxFacts.measure_dim_exact by (done || by rewrite Ht).
    by rewrite Hsz. }
  split; [|split; [by exists s|split]].
  - intros (i & b & e & Hb & He & Hbe).
    assert (truedim self < dim self)%nat as Hlt.
    { rewrite BoxFacts.truedim_count by done.
      eapply Nat.lt_le_trans; [apply npFacts.length_compress_lt|].
      - apply list_elem_of_lookup. exists i.
        rewrite lookup_zip_with, Hb. simpl. rewrite He. simpl.
        by rewrite F64Facts.ne_eq, Hbe.
      - rewrite length_zip_with. unfold dim. lia. }
    unfold volume, measure. case_decide; [done|].
    unfold measure_dim. rewrite decide_False by done.
    destruct (Z.ltb_spec (Z.of_nat (dim self)) (Z.of_nat (truedim self)));
      [lia|].
    rewrite Z.gtb_ltb.
    by destruct (Z.ltb_spec (Z.of_nat (truedim self)) (Z.of_nat (dim self)));
      [|lia].
  - destruct (measure_returns self (Some (Z.of_nat (dim self))) H) as [v Hv].
    exists v, v. split; [done|]. split; [done|]. split; [done|].
    apply eq_same.
  - destruct (measure_returns self None H) as [m Hr].
    exists s, m, m. split; [done|]. split; [done|].
    split; [by rewrite <- Hm|]. split; [done|]. apply eq_same.
Qed.

(** The same box has volume 0.0, and squeezed the volume 3.75. *)
Lemma volume_measure_squeeze_witness :
  constructed flat_box /\ volume flat_box = Ok zero /\
  exists s, squeeze flat_box = Ok s /\ volume s = Ok (frac 15 4).
Proof.
  pose proof (proj1 example_boxes_constructed) as Hc.
  split; [exact Hc|].
  destruct (volume_measure_squeeze flat_box Hc)
    as (_ & Hdeg & (s & Hs & Hm) & _).
  split.
  - apply Hdeg. by exists 2%nat, zero, zero.
  - exists s. split; [exact Hs|]. by rewrite <- Hm.
Defined.

(** C3 as stated, at a box whose measure is NaN: the two sides of
    length [2**-600] multiply to zero and the third has an infinite
    length.  [measure()] and [squeeze().volume] are both NaN, and so are
    [volume] and [measure(dim=3)]: [==] answers [False] on both pairs. *)
Lemma measure_nan_compares_unequal :
  constructed thin_box /\
  (m ← measure thin_box None;
   s ← squeeze thin_box;
   v ← volume s;
   Ok (m, v, eq m v)) = Ok (nan, nan, false) /\
  (v ← volume thin_box;
   w ← measure thin_box (Some 3);
   Ok (v, w, eq v w)) = Ok (nan, nan, false).
Proof.
  split.
  - by exists (np.array (_begin thin_box)), (np.array (_end thin_box)).
  - split; by vm_compute.
Qed.

(** ** Invariants *)

Lemma constructed_invariants (x : IntervalProd) :
  constructed x -> invariants x.
Proof.
  intros H. destruct (BoxFacts.constructed_inv _ H) as (Hle & _).
  repeat split; [by apply BoxFacts.constructed_lengths|lia|].
  intros i b e Hb He. exact (Forall2_lookup_lr _ _ _ _ _ _ Hle Hb He).
Qed.

Lemma squeeze_constructed (self x : IntervalProd) :
  squeeze self = Ok x -> constructed x.
Proof. unfold squeeze. intros H. ok_inv H. by eapply BoxFacts.init_constructed. Qed.

Lemma collapse_constructed (self x : IntervalProd) indcs values :
  collapse self indcs values = Ok x -> constructed x.
Proof.
  unfold collapse. intros H. ok_inv H. by eapply BoxFacts.init_constructed.
Qed.

Lemma insert_constructed uninitialized (self x : IntervalProd) other index :
  insert uninitialized self other index = Ok x -> constructed x.
Proof.
  unfold insert. intros H. ok_inv H; by eapply BoxFacts.init_constructed.
Qed.

(** C9. Every [IntervalProd] a caller can get hold of, from the
    constructor or from [collapse], [squeeze] or [insert], has [begin]
    and [end] of the length [dim >= 0] and [begin[i] <= end[i]] on every
    axis: each of the four either returns such a value or raises. *)
Theorem results_satisfy_invariants (uninitialized : nat -> float64) :
  (forall begin end_ x, IntervalProd_init begin end_ = Ok x -> invariants x) /\
  (forall self indcs values x,
      collapse self indcs values = Ok x -> invariants x) /\
  (forall self x, squeeze self = Ok x -> invariants x) /\
  (forall self other index x,
      insert uninitialized self other index = Ok x -> invariants x).
Proof.
  split; [|split; [|split]]; intros; apply constructed_invariants.
  - by eapply BoxFacts.init_constructed.
  - by eapply collapse_constructed.
  - by eapply squeeze_constructed.
  - by eapply insert_constructed.
Qed.

(** The boxes of the docstrings of [collapse], [squeeze] and [insert]. *)
Lemma results_satisfy_invariants_witness :
  invariants rbox /\
  (exists x, collapse solid_box (np.scalar 1) (np.scalar zero) = Ok x /\
             invariants x) /\
  (exists x, squeeze flat_box = Ok x /\ invariants x) /\
  (exists x, insert (fun _ => nan) rbox (inr (np.scalar zero)) 1 = Ok x /\
             invariants x).
Proof.
  destruct (results_satisfy_invariants (fun _ => nan)) as (Hi & Hc & Hs & Hn).
  split; [|split; [|split]].
  - by apply (Hi (np.array (_begin rbox)) (np.array (_end rbox))).
  - eexists. split; [reflexivity|].
    by apply (Hc solid_box (np.scalar 1) (np.scalar zero)).
  - eexists. split; [reflexivity|]. by apply (Hs flat_box).
  - eexists. split; [reflexivity|].
    by apply (Hn rbox (inr (np.scalar zero)) 1).
Defined.

(** ** Distance and containment *)

Lemma any_true (m : list bool) : np.any m = true <-> true ∈ m.
Proof.
  unfold np.any. induction m as [|b m IH]; simpl.
  - split; [done|]. by intros ?%elem_of_nil.
  - rewrite elem_of_cons. destruct b; simpl.
    + split; [by left|done].
    + rewrite IH. split; [by right|]. by intros [?|?].
Qed.

Lemma any_zip_with_true {A B} (t : A -> B -> bool) (a : list A) (b : list B) :
  np.any (zip_with t a b) = true
  <-> exists (i : nat) x y, a !! i = Some x /\ b !! i = Some y /\ t x y = true.
Proof.
  rewrite any_true, elem_of_lookup_zip_with. split.
  - intros (i & x & y & Ht & Hx & Hy). by exists i, x, y.
  - intros (i & x & y & Hx & Hy & Ht). by exists i, x, y.
Qed.

Lemma any_zip_with_false {A B} (t : A -> B -> bool) (a : list A) (b : list B) :
  np.any (zip_with t a b) = false
  <-> forall (i : nat) x y, a !! i = Some x -> b !! i = Some y -> t x y = false.
Proof.
  rewrite <- not_true_iff_false, any_zip_with_true. split.
  - intros H i x y Hx Hy. apply not_true_iff_false. intros Ht.
    apply H. by exists i, x, y.
  - intros H (i & x & y & Hx & Hy & Ht). rewrite (H i x y) in Ht; done.
Qed.

Section Dist.

Variable norm : float64 -> list float64 -> float64.

Lemma dist_cases (self : IntervalProd) (p : list float64) (ord : float64) :
  constructed self -> length p = dim self ->
  dist norm self (np.array p) ord
  = if np.any (zip_with gt p (_end self)) || np.any (zip_with lt p (_begin self))
    then Ok (norm ord (overshoot self p))
    else Ok zero.
Proof.
  intros H Hlen. pose proof (BoxFacts.constructed_lengths _ H) as Hlen'.
  unfold dist. simpl. rewrite decide_False by (by intros ?).
  set (mg := zip_with gt p (_end self)).
  set (ml := zip_with lt p (_begin self)).
  assert (length mg = length p /\ length ml = length p) as [Hmg Hml].
  { unfold mg, ml, dim in *. rewrite !length_zip_with. lia. }
  case_decide as Hd.
  - destruct Hd as [Hg Hl]. apply npFacts.where_from_nil in Hg, Hl.
    by rewrite Hg, Hl.
  - assert (np.any mg || np.any ml = true) as ->.
    { destruct (np.any mg) eqn:Eg, (np.any ml) eqn:El; try done.
      destruct Hd. by split; apply npFacts.where_from_nil. }
    rewrite !npFacts.take_where by (unfold dim in *; lia). simpl.
    unfold np.concatenate. rewrite zip_with_app.
    + unfold overshoot, mg, ml. by rewrite !npFacts.compress_filter.
    + unfold dim in *.
      rewrite (npFacts.length_compress mg p), (npFacts.length_compress mg (_end self));
        lia.
Qed.

Lemma outside_any (self : IntervalProd) (p : list float64) :
  constructed self -> length p = dim self ->
  np.any (zip_with gt p (_end self)) || np.any (zip_with lt p (_begin self)) = true
  <-> outside self p.
Proof.
  intros H Hlen. pose proof (BoxFacts.constructed_lengths _ H) as Hlen'.
  rewrite orb_true_iff, !any_zip_with_true. unfold outside, dim in *. split.
  - intros [(i & x & e & Hx & He & Hg)|(i & x & b & Hx & Hb & Hl)].
    + destruct (lookup_lt_is_Some_2 (_begin self) i) as [b Hb].
      { apply lookup_lt_Some in Hx. lia. }
      exists i, x, b, e. auto.
    + destruct (lookup_lt_is_Some_2 (_end self) i) as [e He].
      { apply lookup_lt_Some in Hx. lia. }
      exists i, x, b, e. auto.
  - intros (i & x & b & e & Hx & Hb & He & [Hg|Hl]); [left|right].
    + by exists i, x, e.
    + by exists i, x, b.
Qed.

(** C4. [dist] raises [DimensionMismatch] exactly when the length of the
    point is not the dimension of the box.  For a point of that length it
    returns 0.0 when every coordinate lies in [[begin[i], end[i]]], and
    otherwise the [ord]-norm of the overshoot vector, whose entries are
    [point[i] - end[i]] where [point[i] > end[i]] and
    [point[i] - begin[i]] where [point[i] < begin[i]]; an axis on which
    the point is neither above nor below adds no entry, and without any
    entry the distance is 0.0. *)
Theorem dist_overshoot (self : IntervalProd) (point : np.array_like float64)
    (ord : float64) :
  constructed self ->
  let p := np.atleast_1d point in
  (dist norm self point ord = Raise DimensionMismatch <-> length p <> dim self) /\
  (length p = dim self ->
   ((forall (i : nat) (x b e : float64),
        p !! i = Some x -> _begin self !! i = Some b ->
        _end self !! i = Some e -> le b x = true /\ le x e = true) ->
    dist norm self point ord = Ok zero) /\
   (outside self p ->
    dist norm self point ord = Ok (norm ord (overshoot self p))) /\
   (~ outside self p -> dist norm self point ord = Ok zero)).
Proof.
  intros H p.
  assert (dist norm self point ord = dist norm self (np.array p) ord) as ->
    by done.
  split.
  - split.
    + intros Hd Hlen. rewrite dist_cases in Hd by done.
      by destruct (_ || _).
    + intros Hlen. unfold dist. simpl. by rewrite decide_True.
  - intros Hlen. rewrite dist_cases by done.
    destruct (_ || _) eqn:E.
    + apply (outside_any self p H Hlen) in E. split; [|split]; [|done|done].
      intros Hin. destruct E as (i & x & b & e & Hx & Hb & He & Hout).
      destruct (Hin i x b e Hx Hb He) as [H1 H2].
      apply F64Facts.le_no_gt in H2. apply F64Facts.le_no_lt in H1.
      destruct Hout; congruence.
    + split; [done|]. split; [|done].
      intros Hout%(outside_any self p H Hlen). congruence.
Qed.

End Dist.

(** The docstring of [dist]: the point [(-5, 3, 2)] is 5.0 away in the
    2-norm and 4.0 in the maximum norm. *)
Lemma dist_overshoot_witness :
  constructed slab_box /\
  dist norm_2_or_inf slab_box (np.array [of_int (-5); of_int 3; of_int 2]) two
  = Ok (of_int 5) /\
  dist norm_2_or_inf slab_box (np.array [of_int (-5); of_int 3; of_int 2]) inf
  = Ok (of_int 4).
Proof.
  pose proof (proj1 more_boxes_constructed) as Hc.
  split; [exact Hc|].
  assert (outside slab_box [of_int (-5); of_int 3; of_int 2]) as Hout.
  { exists 1%nat, (of_int 3), (of_int 0), (of_int 0). by repeat split; try left. }
  split.
  - destruct (dist_overshoot norm_2_or_inf slab_box
                (np.array [of_int (-5); of_int 3; of_int 2]) two Hc) as [_ H].
    by rewrite (proj1 (proj2 (H eq_refl)) Hout).
  - destruct (dist_overshoot norm_2_or_inf slab_box
                (np.array [of_int (-5); of_int 3; of_int 2]) inf Hc) as [_ H].
    by rewrite (proj1 (proj2 (H eq_refl)) Hout).
Defined.

Section Contains.

Variable norm : float64 -> list float64 -> float64.

(** A box of at least one axis contains its own bounds, boundary
    included, at zero tolerance. *)
Lemma contains_own_bounds (self : IntervalProd) :
  constructed self -> dim self <> 0%nat ->
  contains norm self (np.array (_begin self)) zero = Ok true /\
  contains norm self (np.array (_end self)) zero = Ok true.
Proof.
  intros H Hdim. destruct (BoxFacts.constructed_inv _ H) as (Hle & _).
  pose proof (BoxFacts.constructed_lengths _ H) as Hlen.
  assert (forall p, length p = dim self -> ~ outside self p ->
                    contains norm self (np.array p) zero = Ok true) as Hin.
  { intros p Hp Hno. unfold contains. simpl.
    rewrite decide_False by (by intros ?).
    destruct p as [|p0 p]; [by rewrite <- Hp in Hdim|].
    change (np.getitem (p0 :: p) 0) with (Ok (A := float64) p0). simpl.
    rewrite (dist_cases norm) by done.
    destruct (_ || _) eqn:E; [|done].
    by apply (outside_any self (p0 :: p) H Hp) in E. }
  split; apply Hin; try done.
  - intros (i & x & b & e & Hx & Hb & He & Hout).
    assert (x = b) as -> by congruence.
    pose proof (Forall2_lookup_lr _ _ _ _ _ _ Hle Hb He) as Hbe.
    rewrite F64Facts.lt_self, (F64Facts.le_no_gt _ _ Hbe) in Hout.
    by destruct Hout.
  - intros (i & x & b & e & Hx & Hb & He & Hout).
    assert (x = e) as -> by congruence.
    pose proof (Forall2_lookup_lr _ _ _ _ _ _ Hle Hb He) as Hbe.
    rewrite F64Facts.gt_self, (F64Facts.le_no_lt _ _ Hbe) in Hout.
    by destruct Hout.
Qed.

(** C6. The box without axes, [IntervalProd([], [])], is a box like any
    other ([squeeze] returns it), and [contains] does not answer for it:
    [point[0]] raises [IndexError] on its empty bound vectors. *)
Theorem contains_own_bounds_without_axes :
  constructed point_box /\
  contains norm point_box (np.array (_begin point_box)) zero
  = Raise IndexOutOfRange /\
  contains norm point_box (np.array (_end point_box)) zero
  = Raise IndexOutOfRange.
Proof.
  split; [apply example_boxes_constructed|]. split; reflexivity.
Qed.

End Contains.

(** ** Equality *)

(** C5. [equals] compares boxes of different dimensions by numpy's
    broadcasting: the unit interval equals the unit square, and the
    unit square against the unit cube raises. *)
Theorem equals_across_dimensions :
  equals (unit_box 1) (is_IntervalProd (unit_box 2)) zero = Ok true /\
  equals (unit_box 2) (is_IntervalProd (unit_box 3)) zero
  = Raise BroadcastError.
Proof. split; reflexivity. Qed.

Lemma equals_other_object (self : IntervalProd) (tol : float64) :
  equals self not_IntervalProd tol = Ok false.
Proof. reflexivity. Qed.

(** ** Insertion and squeezing *)

Module InsertFacts.

Import F64Facts npFacts BoxFacts.

Lemma no_true_mask (m : list bool) :
  length (compress m m) = 0%nat -> Forall (fun b => b = false) m.
Proof.
  induction m as [|b m IH]; [constructor|].
  simpl. rewrite length_app. destruct b; simpl; [lia|].
  intros H. constructor; [done|]. by apply IH.
Qed.

Lemma all_true_mask (m : list bool) :
  length (compress m m) = length m -> Forall (fun b => b = true) m.
Proof.
  induction m as [|b m IH]; [constructor|].
  simpl. rewrite length_app. pose proof (length_compress_le m m).
  destruct b; simpl; [|lia].
  intros H'. constructor; [done|]. apply IH. lia.
Qed.

Lemma Forall_zip_with_take_drop {A B} (t : A -> B -> bool) (c : bool)
    (a : list A) (b : list B) (i : nat) :
  Forall (fun v => v = c) (zip_with t a b) ->
  Forall (fun v => v = c) (zip_with t (take i a) (take i b)) /\
  Forall (fun v => v = c) (zip_with t (drop i a) (drop i b)).
Proof.
  intros H. rewrite <- zip_with_take, <- zip_with_drop.
  split; [by apply Forall_take|by apply Forall_drop].
Qed.

Lemma length_slice {A} (a : list A) (start stop : nat) :
  length (np.slice a start stop)
  = Nat.min (stop - start)%nat (length a - start)%nat.
Proof. unfold np.slice. by rewrite length_take, length_drop. Qed.

Lemma set_slice_ok {A} (a v : list A) (start stop : nat) :
  length v = Nat.min (stop - start)%nat (length a - start)%nat ->
  np.set_slice a start stop v
  = Ok (take start a ++ v ++ drop (start + length v) a).
Proof.
  intros H. unfold np.set_slice. by rewrite length_slice, decide_True.
Qed.

(** The three slice assignments of [insert] splice [d] into [a]. *)
Lemma splice (fill a d : list float64) (i : nat) :
  (i <= length a)%nat -> length fill = (length a + length d)%nat ->
  exists x y,
    np.set_slice fill 0 i (np.slice a 0 i) = Ok x /\
    np.set_slice x i (i + length d) d = Ok y /\
    (if decide (i < length a)%nat
     then np.set_slice y (i + length d) (length a + length d)
            (np.slice a i (length a))
     else Ok y)
    = Ok (take i a ++ d ++ drop i a).
Proof.
  intros Hi Hfill.
  exists (take i a ++ drop i fill),
         (take i a ++ d ++ drop (i + length d) fill).
  assert (np.slice a 0 i = take i a) as ->
    by (unfold np.slice; by rewrite Nat.sub_0_r, drop_0).
  assert (np.slice a i (length a) = drop i a) as ->
    by (unfold np.slice; apply take_ge; rewrite length_drop; lia).
  assert (length (take i a) = i) as Hti by (rewrite length_take; lia).
  set (x := take i a ++ drop i fill).
  assert (length x = (length a + length d)%nat) as Hx
    by (unfold x; rewrite length_app, length_drop; lia).
  assert (take i x = take i a) as Hx1 by (by apply take_app_length').
  assert (drop (i + length d) x = drop (i + length d) fill) as Hx2.
  { unfold x. rewrite drop_app_ge by lia. rewrite Hti, drop_drop.
    f_equal. lia. }
  set (y := take i a ++ d ++ drop (i + length d) fill).
  assert (length y = (length a + length d)%nat) as Hy
    by (unfold y; rewrite !length_app, length_drop; lia).
  split; [|split].
  { rewrite set_slice_ok by lia. by rewrite Hti, take_0, app_nil_l. }
  { rewrite set_slice_ok by lia. by rewrite Hx1, Hx2. }
  case_decide as Hlt.
  - rewrite set_slice_ok by (rewrite length_drop; lia).
    f_equal. rewrite length_drop.
    rewrite (drop_ge y) by lia. rewrite app_nil_r.
    unfold y. rewrite (app_assoc (take i a) d).
    rewrite take_app_length' by (rewrite length_app; lia).
    by rewrite <- app_assoc.
  - f_equal. unfold y. rewrite (drop_ge a i) by lia.
    by rewrite drop_ge by lia.
Qed.

Lemma length_np_empty (uninitialized : nat -> float64) (n : nat) :
  length (np_empty uninitialized n) = n.
Proof. unfold np_empty. by rewrite length_fmap, length_seq. Qed.

(** [insert], once its argument is a box [d], hands the spliced bound
    vectors to the constructor. *)
Lemma insert_spliced (uninitialized : nat -> float64) (self d : IntervalProd)
    (other : IntervalProd + np.array_like float64) (index : Z) :
  constructed self -> constructed d ->
  0 <= index <= Z.of_nat (dim self) ->
  match other with inl o => Ok o | inr a => IntervalProd_init a a end = Ok d ->
  let i := Z.to_nat index in
  insert uninitialized self other index
  = IntervalProd_init
      (np.array (take i (_begin self) ++ _begin d ++ drop i (_begin self)))
      (np.array (take i (_end self) ++ _end d ++ drop i (_end self))).
Proof.
  intros Hs Hd Hi Hother i.
  pose proof (constructed_lengths _ Hs) as Hls.
  pose proof (constructed_lengths _ Hd) as Hld.
  unfold insert. fold i.
  destruct (Z.leb_spec 0 index); [|lia].
  destruct (Z.leb_spec index (Z.of_nat (dim self))); [|lia].
  simpl negb. cbv iota. rewrite Hother.
  change (Ok d ≫= ?f) with (f d). cbv beta zeta.
  destruct (splice (np_empty uninitialized (dim self + dim d))
              (_begin self) (_begin d) i) as (xb & yb & Hb1 & Hb2 & Hb3).
  { unfold dim in *. lia. }
  { by rewrite length_np_empty. }
  destruct (splice (np_empty uninitialized (dim self + dim d))
              (_end self) (_end d) i) as (xe & ye & He1 & He2 & He3).
  { unfold dim in *. lia. }
  { rewrite length_np_empty. lia. }
  rewrite Hld in He2. rewrite Hls, Hld in He3.
  fold (dim self) (dim d) in Hb2, Hb3.
  rewrite Hb1. change (Ok xb ≫= ?f) with (f xb). cbv beta.
  rewrite He1. change (Ok xe ≫= ?f) with (f xe). cbv beta.
  rewrite Hb2. change (Ok yb ≫= ?f) with (f yb). cbv beta.
  rewrite He2. change (Ok ye ≫= ?f) with (f ye). cbv beta.
  destruct (decide (i < dim self)%nat).
  - rewrite Hb3. change (Ok ?x ≫= ?f) with (f x). cbv beta.
    rewrite He3. done.
  - by injection Hb3 as ->; injection He3 as ->.
Qed.

Lemma degenerate_arg_box (other : IntervalProd + np.array_like float64) :
  degenerate_arg other ->
  exists d,
    match other with inl o => Ok o | inr a => IntervalProd_init a a end = Ok d /\
    constructed d /\
    Forall (fun v => v = false) (zip_with ne (_begin d) (_end d)).
Proof.
  destruct other as [d|a]; simpl.
  - intros [Hd Ht]. exists d. split; [done|]. split; [done|].
    apply no_true_mask. by rewrite <- truedim_count.
  - intros Ha. set (l := np.atleast_1d a) in *.
    assert (IntervalProd_init a a = IntervalProd_init (np.array l) (np.array l))
      as -> by done.
    assert (Forall2 (fun x y => le x y = true) l l) as Hle.
    { induction Ha as [|v l Hv _ IH]; constructor; [by apply le_self|done]. }
    eexists. split; [by apply init_ok|]. split.
    + exists (np.array l), (np.array l). by apply init_ok.
    + simpl. clear Hle. induction Ha as [|v l Hv _ IH]; constructor; [|done].
      by rewrite ne_eq, eq_self.
Qed.

Lemma allclose_self (a : list float64) :
  Forall (fun v => isnan v = false) a -> np.allclose a a zero zero = Ok true.
Proof.
  intros Ha. unfold np.allclose, np.broadcast. rewrite decide_True by done.
  simpl. f_equal. unfold np.all.
  induction Ha as [|v l Hv _ IH]; [done|].
  cbn [zip_with fmap list_fmap forallb fst snd id].
  apply andb_true_intro. split; [by apply isclose_self|exact IH].
Qed.

Lemma le_numbers_l (b e : list float64) :
  Forall2 (fun x y => le x y = true) b e ->
  Forall (fun v => isnan v = false) b /\ Forall (fun v => isnan v = false) e.
Proof.
  induction 1 as [|x y b e Hxy _ [IH1 IH2]]; [by split|].
  destruct (le_numbers _ _ Hxy). split; by constructor.
Qed.

(** Squeezing a box spliced from a box without degenerate axes and a
    degenerate one gives back the bounds of the former. *)
Lemma compress_spliced {A} (t : float64 -> float64 -> bool)
    (b e db de : list float64) (v w : list A) (i : nat) :
  length b = length e -> length db = length de ->
  length v = length b -> length w = length db ->
  Forall (fun c => c = true) (zip_with t b e) ->
  Forall (fun c => c = false) (zip_with t db de) ->
  compress (zip_with t (take i b ++ db ++ drop i b) (take i e ++ de ++ drop i e))
           (take i v ++ w ++ drop i v)
  = v.
Proof.
  intros Hbe Hd Hv Hw Ht Hf.
  destruct (Forall_zip_with_take_drop t true b e i Ht) as [Ht1 Ht2].
  rewrite !zip_with_app by (rewrite ?length_take, ?length_drop; lia).
  rewrite !compress_app
    by (rewrite !length_zip_with, ?length_take, ?length_drop; lia).
  rewrite (compress_none _ w) by done.
  rewrite !compress_all;
    try done; try (rewrite !length_zip_with, ?length_take, ?length_drop; lia).
  by rewrite app_nil_l, take_drop.
Qed.

End InsertFacts.

(** C2, for boxes without a degenerate axis.  Inserting a degenerate
    box (or a scalar or an array of numbers, taken as one) at a
    position [0 <= index <= dim] and squeezing the result gives a box
    with the bounds of the original, which [equals] confirms at [tol=0]. *)
Theorem insert_squeeze_recovers (uninitialized : nat -> float64)
    (self : IntervalProd) (other : IntervalProd + np.array_like float64)
    (index : Z) :
  constructed self -> truedim self = dim self ->
  0 <= index <= Z.of_nat (dim self) -> degenerate_arg other ->
  exists x s,
    insert uninitialized self other index = Ok x /\ squeeze x = Ok s /\
    _begin s = _begin self /\ _end s = _end self /\
    equals s (is_IntervalProd self) zero = Ok true.
Proof.
  intros Hs Hfull Hi Hother.
  destruct (InsertFacts.degenerate_arg_box _ Hother) as (d & Hd & Hcd & Hdeg).
  destruct (BoxFacts.constructed_inv _ Hs) as (Hle & _).
  destruct (BoxFacts.constructed_inv _ Hcd) as (Hled & _).
  pose proof (Forall2_length _ _ _ Hle) as Hlen.
  pose proof (Forall2_length _ _ _ Hled) as Hlend.
  assert (Forall (fun c => c = true) (zip_with ne (_begin self) (_end self)))
    as Hnd.
  { apply InsertFacts.all_true_mask. rewrite <- BoxFacts.truedim_count by done.
    rewrite Hfull, length_zip_with. unfold dim. lia. }
  pose proof (InsertFacts.insert_spliced uninitialized self d other index
                Hs Hcd Hi Hd) as Hins.
  simpl in Hins. set (i := Z.to_nat index) in *.
  rewrite BoxFacts.init_ok in Hins
    by (repeat apply Forall2_app;
        auto using Forall2_take, Forall2_drop).
  eexists. eexists. split; [exact Hins|].
  assert (constructed
            {| _begin := take i (_begin self) ++ _begin d ++ drop i (_begin self);
               _end := take i (_end self) ++ _end d ++ drop i (_end self);
               _ideg := np.where_ (zip_with eq
                 (take i (_begin self) ++ _begin d ++ drop i (_begin self))
                 (take i (_end self) ++ _end d ++ drop i (_end self)));
               _inondeg := np.where_ (zip_with ne
                 (take i (_begin self) ++ _begin d ++ drop i (_begin self))
                 (take i (_end self) ++ _end d ++ drop i (_end self))) |})
    as Hcx by (by eapply insert_constructed).
  pose proof (BoxFacts.squeeze_ok _ Hcx) as Hsq. simpl in Hsq.
  rewrite !(InsertFacts.compress_spliced ne) in Hsq by done.
  split; [exact Hsq|]. simpl. split; [done|]. split; [done|].
  destruct (InsertFacts.le_numbers_l _ _ Hle) as [Hb He].
  by rewrite !InsertFacts.allclose_self.
Qed.

(** The docstring of [insert]: [rbox.insert(0, 1).squeeze().equals(rbox)]. *)
Lemma insert_squeeze_recovers_witness :
  constructed rbox /\ truedim rbox = dim rbox /\
  0 <= 1 <= Z.of_nat (dim rbox) /\ degenerate_arg (inr (np.scalar zero)) /\
  exists x s,
    insert (fun _ => nan) rbox (inr (np.scalar zero)) 1 = Ok x /\
    squeeze x = Ok s /\ _begin s = _begin rbox /\ _end s = _end rbox /\
    equals s (is_IntervalProd rbox) zero = Ok true.
Proof.
  assert (constructed rbox) as Hc by apply example_boxes_constructed.
  assert (degenerate_arg (inr (np.scalar zero))) as Hd
    by (by repeat constructor).
  assert (0 <= 1 <= Z.of_nat (dim rbox)) as Hi by (change (0 <= 1 <= 2); lia).
  repeat (split; [done|]).
  exact (insert_squeeze_recovers (fun _ => nan) rbox (inr (np.scalar zero)) 1
           Hc eq_refl Hi Hd).
Defined.

(** C2 as stated, at a box with a degenerate axis: [squeeze] removes
    that axis with the inserted one, and [equals] answers [False]. *)
Lemma insert_squeeze_loses_degenerate_axes :
  constructed wall_box /\
  0 <= 0 <= Z.of_nat (dim wall_box) /\
  degenerate_arg (inr (np.scalar zero)) /\
  (x ← insert (fun _ => nan) wall_box (inr (np.scalar zero)) 0;
   s ← squeeze x;
   equals s (is_IntervalProd wall_box) zero) = Ok false.
Proof.
  split; [apply more_boxes_constructed|].
  split; [change (0 <= 0 <= 2); lia|].
  split; [by repeat constructor|]. reflexivity.
Qed.

(** ** Uniform sampling *)

Module SamplingFacts.

Import F64Facts npFacts BoxFacts.

Lemma where_from_bounds (m : list bool) :
  forall i,
    Forall (fun j => Z.of_nat i <= j < Z.of_nat (i + length m))
           (np.where_from i m).
Proof.
  induction m as [|b m IH]; intros i; [constructor|].
  simpl. apply Forall_app. split.
  - destruct b; repeat constructor; lia.
  - eapply Forall_impl; [apply IH|]. simpl. intros j ?. lia.
Qed.

Lemma where_bounds (m : list bool) :
  Forall (fun j => 0 <= j < Z.of_nat (length m)) (np.where_ m).
Proof. exact (where_from_bounds m 0). Qed.

Lemma index_in_range {A} (a : list A) (j : Z) :
  0 <= j < Z.of_nat (length a) -> np.index a j = Ok (Z.to_nat j).
Proof.
  intros H. rewrite <- (Z2Nat.id j) at 1 by lia. apply index_nat. lia.
Qed.

Lemma put_ok {A} (idx : list Z) :
  forall (vals a : list A),
    length idx = length vals ->
    Forall (fun j => 0 <= j < Z.of_nat (length a)) idx ->
    exists a', np.assign a idx vals = Ok a' /\ length a' = length a.
Proof.
  induction idx as [|j idx IH]; intros [|v vals] a Hlen Hidx; try done.
  - by exists a.
  - inversion Hidx as [|? ? Hj Hrest]; subst.
    simpl. unfold np.setitem. rewrite index_in_range by done. simpl.
    destruct (IH vals (<[Z.to_nat j:=v]> a)) as (a' & Ha' & Hl).
    + simpl in Hlen. lia.
    + by rewrite length_insert.
    + exists a'. split; [done|]. by rewrite Hl, length_insert.
Qed.

Lemma midpoint_ok (self : IntervalProd) :
  constructed self -> exists center, midpoint self = Ok center.
Proof.
  intros H. destruct (constructed_inv _ H) as (Hle & Hdeg & _).
  pose proof (Forall2_length _ _ _ Hle) as Hlen.
  unfold midpoint. rewrite Hdeg.
  set (m := zip_with eq (_begin self) (_end self)).
  assert (length m = length (_begin self)) as Hm
    by (unfold m; rewrite length_zip_with; lia).
  rewrite take_where by lia. simpl.
  set (midp := (fun x => div x two) <$> zip_with add (_end self) (_begin self)).
  assert (length midp = length (_begin self)) as Hmidp
    by (unfold midp; rewrite length_fmap, length_zip_with; lia).
  destruct (put_ok (np.where_ m) (compress m (_begin self)) midp)
    as (midp' & -> & Hl).
  - unfold np.where_.
    rewrite length_where_from, (length_compress m (_begin self)); lia.
  - rewrite Hmidp, <- Hm. apply where_bounds.
  - simpl. case_decide as Hd; [|by eexists].
    unfold dim in Hd. destruct midp' as [|x [|??]]; simpl in Hl; try lia.
    by eexists.
Qed.

Lemma any_fmap {A} (f : A -> bool) (l : list A) :
  np.any (f <$> l) = true <-> exists x, x ∈ l /\ f x = true.
Proof.
  rewrite any_true, list_elem_of_fmap. split.
  - intros (x & Hf & Hx). by exists x.
  - intros (x & Hx & Hf). by exists x.
Qed.

Lemma elem_of_compress {A} (m : list bool) :
  forall (a : list A) (x : A),
    x ∈ compress m a
    <-> exists i : nat, m !! i = Some true /\ a !! i = Some x.
Proof.
  induction m as [|b m IH]; intros a x.
  - simpl. split; [by intros ?%elem_of_nil|]. by intros (i & ? & _).
  - destruct a as [|y a]; simpl.
    + split; [by intros ?%elem_of_nil|]. by intros (i & _ & ?).
    + rewrite elem_of_app, IH. split.
      * intros [Hx|(i & Hm & Ha)].
        -- destruct b; [|by apply elem_of_nil in Hx].
           apply list_elem_of_singleton in Hx as ->. by exists 0%nat.
        -- by exists (S i).
      * intros ([|i] & Hm & Ha); simpl in *.
        -- left. injection Hm as ->. injection Ha as ->.
           by apply list_elem_of_singleton.
        -- right. by exists i.
Qed.

Lemma int64_id (n : Z) : is_int64 n -> int64 n = n.
Proof.
  unfold is_int64, int64. intros H.
  rewrite Z.mod_small by lia. lia.
Qed.

(** The stride the code computes is that of the specification. *)
Lemma stride_computed (self : IntervalProd) (n : list Z) (as_midp : bool) :
  Forall is_int64 n -> (forall k, k ∈ n -> 0 < k) ->
  (if as_midp
   then zip_with div (size self) (of_int <$> n)
   else zip_with div (size self)
          (of_int <$> ((fun k => int64 (k - 1)) <$> n)))
  = stride self n as_midp.
Proof.
  intros Hn Hpos. unfold stride. destruct as_midp.
  - by rewrite zip_with_fmap_r.
  - rewrite <- list_fmap_compose, zip_with_fmap_r.
    apply Forall_zip_with_ext_r; [done|]. apply Forall_forall. intros k Hk.
    intros s. simpl. rewrite int64_id; [done|].
    rewrite Forall_forall in Hn. specialize (Hn k Hk). specialize (Hpos k Hk).
    unfold is_int64 in *. lia.
Qed.

End SamplingFacts.

Section Sampling.

Variable Grid : Type.
Variable RegularGrid :
  list Z -> np.array_like float64 -> list float64 -> result Grid.

Import SamplingFacts.

Lemma unbounded_any (self : IntervalProd) :
  np.any (isinf <$> _begin self) || np.any (isinf <$> _end self) = true
  <-> unbounded self.
Proof.
  rewrite orb_true_iff, !any_fmap. unfold unbounded. split.
  - intros [(x & Hx & Hi)|(x & Hx & Hi)]; exists x; auto.
  - intros (x & [Hx|Hx] & Hi); [left|right]; by exists x.
Qed.

Lemma oversampled_any (self : IntervalProd) (n : list Z) :
  np.any ((fun k => k >? 1)
            <$> compress (zip_with eq (_begin self) (_end self)) n) = true
  <-> oversampled self n.
Proof.
  rewrite any_fmap. unfold oversampled. split.
  - intros (k & (i & Hm & Hk)%elem_of_compress & Hgt).
    apply lookup_zip_with_Some in Hm as (b & e & Heq & Hb & He).
    exists i, b, e, k. rewrite Z.gtb_ltb in Hgt. apply Z.ltb_lt in Hgt.
    by rewrite <- Heq.
  - intros (i & b & e & k & Hb & He & Heq & Hk & Hgt).
    exists k. split.
    + apply elem_of_compress. exists i. split; [|done].
      apply lookup_zip_with_Some. exists b, e. by rewrite Heq.
    + rewrite Z.gtb_ltb. by apply Z.ltb_lt.
Qed.

(** What [uniform_sampling] does once the bounds are finite and
    [num_nodes] has one positive entry per axis. *)
Lemma uniform_sampling_checked (self : IntervalProd) (n : list Z)
    (as_midp : bool) :
  constructed self -> Forall is_int64 n ->
  ~ unbounded self -> length n = dim self -> (forall k, k ∈ n -> 0 < k) ->
  uniform_sampling Grid RegularGrid self (np.array n) as_midp
  = if np.any ((fun k => k >? 1)
                 <$> compress (zip_with eq (_begin self) (_end self)) n)
    then Raise DegenerateOversample
    else center ← midpoint self; RegularGrid n center (stride self n as_midp).
Proof.
  intros H H64 Hfin Hlen Hpos.
  destruct (BoxFacts.constructed_inv _ H) as (Hle & Hdeg & _).
  pose proof (Forall2_length _ _ _ Hle) as Hlen'.
  unfold uniform_sampling. simpl.
  destruct (_ || _) eqn:Einf; [by apply unbounded_any in Einf|].
  rewrite decide_False by (by intros ?).
  destruct (np.any ((fun k => k <=? 0) <$> n)) eqn:Epos.
  { apply any_fmap in Epos as (k & Hk & Hle0). apply Z.leb_le in Hle0.
    specialize (Hpos k Hk). lia. }
  rewrite Hdeg, npFacts.take_where
    by (rewrite length_zip_with; unfold dim in *; lia).
  simpl. destruct (np.any _); [done|].
  by rewrite (stride_computed self n as_midp H64 Hpos).
Qed.

(** C8. [uniform_sampling] raises [UnboundedDomain] when a bound is
    infinite; otherwise [ShapeMismatch] when [num_nodes] has not one
    entry per axis; otherwise [NonPositiveCount] when an entry is not
    positive; otherwise [DegenerateOversample] when a degenerate axis is
    given more than one node; and otherwise it raises nothing of its own
    and hands over to the grid constructor with [num_nodes], the
    midpoint as centre and the stride of the specification. *)
Theorem uniform_sampling_validation (self : IntervalProd)
    (num_nodes : np.array_like Z) (as_midp : bool) :
  constructed self ->
  let n := np.atleast_1d num_nodes in
  let sampling := uniform_sampling Grid RegularGrid self num_nodes as_midp in
  Forall is_int64 n ->
  (unbounded self -> sampling = Raise UnboundedDomain) /\
  (~ unbounded self ->
   (length n <> dim self -> sampling = Raise ShapeMismatch) /\
   (length n = dim self ->
    ((exists k, k ∈ n /\ k <= 0) -> sampling = Raise NonPositiveCount) /\
    ((forall k, k ∈ n -> 0 < k) ->
     (oversampled self n -> sampling = Raise DegenerateOversample) /\
     (~ oversampled self n ->
      exists center,
        midpoint self = Ok center /\
        sampling = RegularGrid n center (stride self n as_midp))))).
Proof.
  intros H n sampling H64.
  assert (sampling
          = uniform_sampling Grid RegularGrid self (np.array n) as_midp)
    as -> by done.
  split.
  { intros Hinf%unbounded_any. unfold uniform_sampling. by rewrite Hinf. }
  intros Hfin. split.
  { intros Hlen. unfold uniform_sampling. simpl.
    destruct (_ || _) eqn:Einf; [by apply unbounded_any in Einf|].
    by rewrite decide_True. }
  intros Hlen. split.
  { intros Hneg. unfold uniform_sampling. simpl.
    destruct (_ || _) eqn:Einf; [by apply unbounded_any in Einf|].
    rewrite decide_False by (by intros ?).
    destruct (np.any ((fun k => k <=? 0) <$> n)) eqn:Epos; [done|].
    apply not_true_iff_false in Epos. destruct Epos. apply any_fmap.
    destruct Hneg as (k & Hk & Hle0). exists k. split; [done|].
    by apply Z.leb_le. }
  intros Hpos. rewrite uniform_sampling_checked by done.
  destruct (np.any _) eqn:Eover.
  - apply oversampled_any in Eover. by split.
  - split; [intros Ho%oversampled_any; congruence|]. intros _.
    destruct (midpoint_ok _ H) as (center & Hc). exists center.
    split; [done|]. by rewrite Hc.
Qed.

End Sampling.

(** The docstring of [uniform_sampling]: [rbox.uniform_sampling([2, 5])]. *)
Lemma uniform_sampling_validation_witness :
  constructed rbox /\ Forall is_int64 [2; 5] /\
  exists center,
    midpoint rbox = Ok center /\
    uniform_sampling _ (fun n c s => Ok (n, c, s)) rbox (np.array [2; 5]) false
    = Ok ([2; 5], center, stride rbox [2; 5] false).
Proof.
  assert (constructed rbox) as Hc by apply example_boxes_constructed.
  assert (Forall is_int64 [2; 5]) as H64
    by (repeat constructor; unfold is_int64; lia).
  split; [done|]. split; [done|].
  destruct (uniform_sampling_validation _ (fun n c s => Ok (n, c, s)) rbox
              (np.array [2; 5]) false Hc H64) as [_ Hv].
  assert (~ unbounded rbox) as Hfin.
  { intros (x & Hx & Hi). simpl in Hx. rewrite !elem_of_cons in Hx.
    destruct Hx as [[->|[->|Hx]]|[->|[->|Hx]]]; try done;
      by apply elem_of_nil in Hx. }
  destruct (Hv Hfin) as [_ Hv']. destruct (Hv' eq_refl) as [_ Hv''].
  apply Hv''.
  - intros k Hk. simpl in Hk. rewrite !elem_of_cons in Hk.
    destruct Hk as [->|[->|Hk]]; try lia. by apply elem_of_nil in Hk.
  - intros (i & b & e & k & Hb & He & Heq & _).
    destruct i as [|[|i]]; simpl in *; try done.
    + injection Hb as <-. by injection He as <-.
    + injection Hb as <-. by injection He as <-.
Defined.

(** ** Collapsing axes *)

Module CollapseFacts.

Import F64Facts npFacts BoxFacts SamplingFacts.

Lemma getitem_in_range {A} (a : list A) (j : Z) :
  0 <= j < Z.of_nat (length a) ->
  exists x, np.getitem a j = Ok x /\ a !! Z.to_nat j = Some x.
Proof.
  intros Hj. unfold np.getitem. rewrite index_in_range by done. simpl.
  destruct (lookup_lt_is_Some_2 a (Z.to_nat j)) as [x Hx]; [lia|].
  exists x. by rewrite Hx.
Qed.

(** [a[idx]] for indices within range. *)
Lemma take_in_range {A} (a : list A) (idx : list Z) :
  Forall (fun j => 0 <= j < Z.of_nat (length a)) idx ->
  exists xs,
    np.take a idx = Ok xs /\
    Forall2 (fun j x => a !! Z.to_nat j = Some x) idx xs.
Proof.
  induction 1 as [|j idx Hj _ (xs & Hxs & IH)].
  - exists []. split; [done|constructor].
  - destruct (getitem_in_range a j Hj) as (x & Hx & Hl).
    exists (x :: xs). split; [|by constructor].
    rewrite take_cons, Hx. simpl. by rewrite Hxs.
Qed.

Lemma range_check (n : nat) (idx : list Z) :
  np.any ((fun i => i <? 0) <$> idx)
  || np.any ((fun i => i >=? Z.of_nat n) <$> idx) = false
  <-> Forall (fun j => 0 <= j < Z.of_nat n) idx.
Proof.
  rewrite <- not_true_iff_false, orb_true_iff, !any_fmap, Forall_forall.
  split.
  - intros Hno j Hj.
    destruct (Z.ltb_spec j 0) as [Hlt|?].
    { destruct Hno. left. exists j. split; [done|]. by apply Z.ltb_lt. }
    destruct (Z.ltb_spec j (Z.of_nat n)) as [?|Hge]; [lia|].
    destruct Hno. right. exists j. split; [done|].
    rewrite Z.geb_leb. by apply Z.leb_le.
  - intros Hall [(j & Hj & Hb)|(j & Hj & Hb)]; specialize (Hall j Hj).
    + apply Z.ltb_lt in Hb. lia.
    + rewrite Z.geb_leb in Hb. apply Z.leb_le in Hb. lia.
Qed.

(** What [a[idx] = vals] leaves in the array: the entries away from
    [idx] as they were, and at an index the last value assigned to it. *)
Lemma put_spec {A} (idx : list Z) :
  forall (vals a a' : list A),
    Forall (fun j => 0 <= j < Z.of_nat (length a)) idx ->
    np.assign a idx vals = Ok a' ->
    length a' = length a /\
    (forall i : nat, Z.of_nat i ∉ idx -> a' !! i = a !! i) /\
    (forall (k : nat) (j : Z) (v : A),
        idx !! k = Some j -> vals !! k = Some v ->
        (forall k' : nat, (k < k')%nat -> idx !! k' <> Some j) ->
        a' !! Z.to_nat j = Some v).
Proof.
  induction idx as [|j0 idx IH]; intros [|v0 vals] a a' Hr Hput; try done.
  - injection Hput as <-. split; [done|]. split; [done|]. by intros [|?].
  - inversion Hr as [|? ? Hj0 Hr']; subst. simpl in Hput.
    unfold np.setitem in Hput. rewrite index_in_range in Hput by done.
    simpl in Hput.
    destruct (IH vals (<[Z.to_nat j0:=v0]> a) a') as (Hl & Hout & Hin);
      [by rewrite length_insert|done|].
    rewrite length_insert in Hl. split; [done|]. split.
    + intros i Hi. rewrite not_elem_of_cons in Hi. destruct Hi as [Hne Hi].
      rewrite (Hout i Hi). apply list_lookup_insert_ne. lia.
    + intros [|k] j v Hj Hv Hlast; simpl in Hj, Hv.
      * injection Hj as ->. injection Hv as ->.
        rewrite <- (Z2Nat.id j) in Hlast by lia.
        rewrite (Hout (Z.to_nat j)).
        -- apply list_lookup_insert_eq. lia.
        -- intros (k' & Hk')%list_elem_of_lookup.
           apply (Hlast (S k')); [lia|done].
      * apply (Hin k j v Hj Hv). intros k' Hk'.
        apply (Hlast (S k')). lia.
Qed.

(** The same assignments made to [begin] and to [end] keep them
    ordered, when the values are numbers. *)
Lemma put_ordered (idx : list Z) :
  forall (vals b e b' e' : list float64),
    Forall (fun j => 0 <= j < Z.of_nat (length b)) idx ->
    Forall (fun v => isnan v = false) vals ->
    Forall2 (fun x y => le x y = true) b e ->
    np.assign b idx vals = Ok b' -> np.assign e idx vals = Ok e' ->
    Forall2 (fun x y => le x y = true) b' e'.
Proof.
  induction idx as [|j idx IH]; intros [|v vals] b e b' e' Hr Hv Hle Hb He;
    try done.
  - injection Hb as <-. by injection He as <-.
  - inversion Hr as [|? ? Hj Hr']; subst. inversion Hv as [|? ? Hv0 Hv']; subst.
    pose proof (Forall2_length _ _ _ Hle) as Hlen.
    simpl in Hb, He. unfold np.setitem in Hb, He.
    rewrite index_in_range in Hb, He by lia. simpl in Hb, He.
    apply (IH vals (<[Z.to_nat j:=v]> b) (<[Z.to_nat j:=v]> e)); try done.
    + by rewrite length_insert.
    + apply Forall2_insert; [done|by apply le_self].
Qed.

(** [collapse] once the counts agree and the indices are within
    range. *)
Lemma collapse_checked (self : IntervalProd) (idx : list Z)
    (vals : list float64) :
  constructed self -> length idx = length vals ->
  Forall (fun j => 0 <= j < Z.of_nat (dim self)) idx ->
  exists lo hi,
    Forall2 (fun j x => _begin self !! Z.to_nat j = Some x) idx lo /\
    Forall2 (fun j x => _end self !! Z.to_nat j = Some x) idx hi /\
    collapse self (np.array idx) (np.array vals)
    = if np.any (zip_with lt vals lo) || np.any (zip_with gt vals hi)
      then Raise ValueOutOfBounds
      else b_new ← np.assign (_begin self) idx vals;
           e_new ← np.assign (_end self) idx vals;
           IntervalProd_init (np.array b_new) (np.array e_new).
Proof.
  intros H Hlen Hr. pose proof (constructed_lengths _ H) as Hle.
  destruct (take_in_range (_begin self) idx Hr) as (lo & Hlo & Hlo').
  destruct (take_in_range (_end self) idx) as (hi & Hhi & Hhi');
    [by rewrite Hle|].
  exists lo, hi. split; [done|]. split; [done|].
  unfold collapse. simpl. rewrite decide_False by (by intros ?).
  rewrite (proj2 (range_check (dim self) idx) Hr), Hlo. simpl.
  destruct (np.any (zip_with lt vals lo)); [done|].
  rewrite Hhi. simpl. by destruct (np.any (zip_with gt vals hi)).
Qed.

Lemma value_outside_any (self : IntervalProd) (idx : list Z)
    (vals lo hi : list float64) :
  Forall2 (fun j x => _begin self !! Z.to_nat j = Some x) idx lo ->
  Forall2 (fun j x => _end self !! Z.to_nat j = Some x) idx hi ->
  np.any (zip_with lt vals lo) || np.any (zip_with gt vals hi) = true
  <-> value_outside self idx vals.
Proof.
  intros Hlo Hhi. rewrite orb_true_iff, !any_zip_with_true.
  unfold value_outside. split.
  - intros [(k & v & b & Hv & Hb & Hlt)|(k & v & e & Hv & He & Hgt)].
    + destruct (Forall2_lookup_r _ _ _ _ _ Hlo Hb) as (j & Hj & Hjb).
      destruct (Forall2_lookup_l _ _ _ _ _ Hhi Hj) as (e & He & Hje).
      exists k, j, v, b, e. repeat split; try done. by left.
    + destruct (Forall2_lookup_r _ _ _ _ _ Hhi He) as (j & Hj & Hje).
      destruct (Forall2_lookup_l _ _ _ _ _ Hlo Hj) as (b & Hb & Hjb).
      exists k, j, v, b, e. repeat split; try done. by right.
  - intros (k & j & v & b & e & Hj & Hv & Hb & He & Hout).
    destruct (Forall2_lookup_l _ _ _ _ _ Hlo Hj) as (b' & Hb' & Hjb).
    destruct (Forall2_lookup_l _ _ _ _ _ Hhi Hj) as (e' & He' & Hje).
    assert (b' = b) as -> by congruence. assert (e' = e) as -> by congruence.
    destruct Hout; [left; by exists k, v, b|right; by exists k, v, e].
Qed.

(** The constructor never raises [ValueOutOfBounds]. *)
Lemma init_not_value_error (b e : np.array_like float64) :
  IntervalProd_init b e <> Raise ValueOutOfBounds.
Proof.
  unfold IntervalProd_init. case_decide; [done|]. by destruct (np.all _).
Qed.

End CollapseFacts.

(** ** The receiver of [collapse] in memory *)

Module HeapFacts.

Lemma preserved_refl (σ : Heap.store) : Heap.preserved σ σ.
Proof. by intros l _. Qed.

Lemma preserved_write (σ σ' : Heap.store) (l : Heap.loc) (a : list float64) :
  Heap.preserved σ σ' -> σ !! l = None -> Heap.preserved σ (<[l := a]> σ').
Proof.
  intros Hp Hl l' Hl'. rewrite lookup_insert_ne; [by apply Hp|].
  intros ->. rewrite Hl in Hl'. by destruct Hl'.
Qed.

Lemma fresh_unused (σ σ' : Heap.store) :
  Heap.preserved σ σ' -> σ !! fresh (dom σ') = None.
Proof.
  intros Hp. destruct (σ !! fresh (dom σ')) eqn:E; [|done].
  pose proof (is_fresh (dom σ')) as Hf. destruct Hf.
  apply elem_of_dom. rewrite Hp by eauto. eauto.
Qed.

Lemma deref_write (σ : Heap.store) (l : Heap.loc) (a : list float64) :
  Heap.deref (<[l := a]> σ) l = a.
Proof. unfold Heap.deref. by rewrite lookup_insert_eq. Qed.

Lemma deref_write_ne (σ : Heap.store) (l l' : Heap.loc) (a : list float64) :
  l <> l' -> Heap.deref (<[l := a]> σ) l' = Heap.deref σ l'.
Proof. intros H. unfold Heap.deref. by rewrite lookup_insert_ne. Qed.

Lemma fresh_ne (σ : Heap.store) (l : Heap.loc) (a : list float64) :
  fresh (dom (<[l := a]> σ)) <> l.
Proof.
  intros H. pose proof (is_fresh (dom (<[l := a]> σ))) as Hf.
  rewrite H in Hf. destruct Hf. apply elem_of_dom.
  rewrite lookup_insert_eq. eauto.
Qed.

Lemma preserved_deref (σ σ' : Heap.store) (l : Heap.loc) :
  Heap.preserved σ σ' -> is_Some (σ !! l) -> Heap.deref σ' l = Heap.deref σ l.
Proof. intros Hp Hl. unfold Heap.deref. by rewrite Hp. Qed.

(** The constructor in memory: the arrays that were there stay, and the
    object it returns holds what the constructor returns on the Heap.contents
    of its two arguments. *)
Lemma init_refines (σ0 σ : Heap.store) (b e : Heap.loc) :
  Heap.preserved σ0 σ -> is_Some (σ !! e) ->
  Heap.preserved σ0 (Heap.init σ b e).1 /\
  result_map (Heap.contents (Heap.init σ b e).1) (Heap.init σ b e).2
  = IntervalProd_init (np.array (Heap.deref σ b)) (np.array (Heap.deref σ e)).
Proof.
  intros Hp Hse. unfold Heap.init, Heap.alloc. cbv zeta.
  set (l1 := fresh (dom σ)).
  set (σ1 := <[l1 := Heap.deref σ b]> σ).
  set (l2 := fresh (dom σ1)).
  set (σ2 := <[l2 := Heap.deref σ1 e]> σ1).
  assert (Heap.preserved σ0 σ1) as Hp1
    by (apply preserved_write; [done|by apply fresh_unused]).
  assert (Heap.preserved σ0 σ2) as Hp2
    by (apply preserved_write; [done|by apply fresh_unused]).
  assert (l2 <> l1) as Hne by apply fresh_ne.
  assert (Heap.deref σ2 l1 = Heap.deref σ b) as Hb.
  { unfold σ2. rewrite deref_write_ne by done. apply deref_write. }
  assert (Heap.deref σ2 l2 = Heap.deref σ1 e) as He by apply deref_write.
  assert (Heap.deref σ1 e = Heap.deref σ e) as He'.
  { unfold σ1. apply deref_write_ne. intros He''.
    pose proof (is_fresh (dom σ)) as Hf. fold l1 in Hf. rewrite He'' in Hf.
    by apply Hf, elem_of_dom. }
  rewrite Hb, He, He'. unfold IntervalProd_init. simpl.
  case_decide; [done|]. destruct (np.all _); simpl; [|done].
  split; [done|]. unfold Heap.contents. simpl. by rewrite Hb, He, He'.
Qed.

(** [collapse] in memory leaves every array that was there as it was,
    and returns what [collapse] returns on the Heap.contents of the
    receiver. *)
Lemma collapse_refines (σ : Heap.store) (self : Heap.IntervalProd_ref)
    (indcs : np.array_like Z) (values : np.array_like float64) :
  Heap.allocated σ self ->
  Heap.preserved σ (Heap.collapse σ self indcs values).1 /\
  result_map (Heap.contents (Heap.collapse σ self indcs values).1)
             (Heap.collapse σ self indcs values).2
  = collapse (Heap.contents σ self) indcs values.
Proof.
  intros [Hab Hae]. unfold Heap.collapse, collapse, Heap.alloc. cbv zeta.
  change (_begin (Heap.contents σ self)) with (Heap.deref σ (Heap.begin_at self)).
  change (_end (Heap.contents σ self)) with (Heap.deref σ (Heap.end_at self)).
  change (dim (Heap.contents σ self)) with (length (Heap.deref σ (Heap.begin_at self))).
  set (idx := np.atleast_1d indcs). set (vals := np.atleast_1d values).
  case_decide; [by split; [apply preserved_refl|]|].
  destruct (_ || _); [by split; [apply preserved_refl|]|].
  destruct (np.take (Heap.deref σ (Heap.begin_at self)) idx) as [lo|err];
    [|by split; [apply preserved_refl|]].
  simpl. destruct (np.any (zip_with lt vals lo));
    [by split; [apply preserved_refl|]|].
  destruct (np.take (Heap.deref σ (Heap.end_at self)) idx) as [hi|err];
    [|by split; [apply preserved_refl|]].
  simpl. destruct (np.any (zip_with gt vals hi));
    [by split; [apply preserved_refl|]|].
  set (l1 := fresh (dom σ)).
  set (σ1 := <[l1 := Heap.deref σ (Heap.begin_at self)]> σ).
  assert (Heap.preserved σ σ1) as Hp1
    by (apply preserved_write; [apply preserved_refl|
                                by apply fresh_unused, preserved_refl]).
  assert (Heap.deref σ1 l1 = Heap.deref σ (Heap.begin_at self)) as ->
    by apply deref_write.
  destruct (np.assign (Heap.deref σ (Heap.begin_at self)) idx vals) as [a|err];
    [|by split].
  simpl. set (σ2 := <[l1 := a]> σ1).
  assert (Heap.preserved σ σ2) as Hp2
    by (apply preserved_write; [done|by apply fresh_unused, preserved_refl]).
  assert (Heap.deref σ2 (Heap.end_at self) = Heap.deref σ (Heap.end_at self)) as ->
    by (by apply preserved_deref).
  set (l2 := fresh (dom σ2)).
  set (σ3 := <[l2 := Heap.deref σ (Heap.end_at self)]> σ2).
  assert (Heap.preserved σ σ3) as Hp3
    by (apply preserved_write; [done|by apply fresh_unused]).
  assert (Heap.deref σ3 l2 = Heap.deref σ (Heap.end_at self)) as ->
    by apply deref_write.
  destruct (np.assign (Heap.deref σ (Heap.end_at self)) idx vals) as [a'|err];
    [|by split].
  simpl. set (σ4 := <[l2 := a']> σ3).
  assert (Heap.preserved σ σ4) as Hp4
    by (apply preserved_write; [done|by apply fresh_unused]).
  assert (l2 <> l1) as Hne by apply fresh_ne.
  destruct (init_refines σ σ4 l1 l2 Hp4) as [Hp5 Hinit].
  { unfold σ4. rewrite lookup_insert_eq. eauto. }
  split; [done|]. rewrite Hinit. f_equal; f_equal.
  - unfold σ4, σ3. rewrite !deref_write_ne by done. apply deref_write.
  - apply deref_write.
Qed.

End HeapFacts.

(** C7, for values that are numbers.  [collapse] raises
    [LengthMismatch] when the counts of indices and values differ; with
    equal counts, [IndexOutOfRange] when an index is outside [[0, dim)];
    and [ValueOutOfBounds] exactly when both checks pass and a value lies
    outside the interval of its axis.  When all checks pass and no value
    is NaN it returns a new box of the same dimension with
    [begin[index] = end[index] = value] at each listed axis (the last
    value listed for the axis, if it is listed more than once) and the
    other axes unchanged; in memory, the arrays of the receiver are left
    as they were. *)
Theorem collapse_checks (self : IntervalProd) (indcs : np.array_like Z)
    (values : np.array_like float64) :
  constructed self ->
  let idx := np.atleast_1d indcs in
  let vals := np.atleast_1d values in
  let r := collapse self indcs values in
  (length idx <> length vals -> r = Raise LengthMismatch) /\
  (length idx = length vals ->
   Exists (fun j => j < 0 \/ Z.of_nat (dim self) <= j) idx ->
   r = Raise IndexOutOfRange) /\
  (r = Raise ValueOutOfBounds <->
   length idx = length vals /\
   Forall (fun j => 0 <= j < Z.of_nat (dim self)) idx /\
   value_outside self idx vals) /\
  (length idx = length vals ->
   Forall (fun j => 0 <= j < Z.of_nat (dim self)) idx ->
   ~ value_outside self idx vals ->
   Forall (fun v => isnan v = false) vals ->
   exists x,
     r = Ok x /\ dim x = dim self /\
     (forall (k : nat) (j : Z) (v : float64),
         idx !! k = Some j -> vals !! k = Some v ->
         (forall k' : nat, (k < k')%nat -> idx !! k' <> Some j) ->
         _begin x !! Z.to_nat j = Some v /\ _end x !! Z.to_nat j = Some v) /\
     (forall i : nat,
         Z.of_nat i ∉ idx ->
         _begin x !! i = _begin self !! i /\ _end x !! i = _end self !! i)) /\
  (forall (σ : Heap.store) (ref : Heap.IntervalProd_ref),
      Heap.contents σ ref = self -> Heap.allocated σ ref ->
      let out := Heap.collapse σ ref indcs values in
      Heap.contents out.1 ref = self /\
      result_map (Heap.contents out.1) out.2 = r).
Proof.
  intros H idx vals r.
  pose proof (BoxFacts.constructed_lengths _ H) as Hlen.
  destruct (BoxFacts.constructed_inv _ H) as (Hle & _).
  assert (r = collapse self (np.array idx) (np.array vals)) as Hr by done.
  assert (length idx <> length vals -> r = Raise LengthMismatch) as H1.
  { intros Hne. rewrite Hr. unfold collapse. simpl. by rewrite decide_True. }
  assert (length idx = length vals ->
          ~ Forall (fun j => 0 <= j < Z.of_nat (dim self)) idx ->
          r = Raise IndexOutOfRange) as H2.
  { intros Heq Hout. rewrite Hr. unfold collapse. simpl.
    rewrite decide_False by (by intros ?).
    destruct (_ || _) eqn:E; [done|].
    by apply CollapseFacts.range_check in E. }
  assert (length idx = length vals ->
          Forall (fun j => 0 <= j < Z.of_nat (dim self)) idx ->
          (value_outside self idx vals /\ r = Raise ValueOutOfBounds) \/
          (~ value_outside self idx vals /\
           r = (b_new ← np.assign (_begin self) idx vals;
                e_new ← np.assign (_end self) idx vals;
                IntervalProd_init (np.array b_new) (np.array e_new))))
    as H3.
  { intros Heq Hin.
    destruct (CollapseFacts.collapse_checked self idx vals H Heq Hin)
      as (lo & hi & Hlo & Hhi & Hc).
    rewrite Hr, Hc. destruct (_ || _) eqn:E.
    - left. split; [|done].
      by apply (CollapseFacts.value_outside_any self idx vals lo hi).
    - right. split; [|done]. intros Hout.
      apply (CollapseFacts.value_outside_any self idx vals lo hi) in Hout;
        congruence. }
  assert (length idx = length vals ->
          Forall (fun j => 0 <= j < Z.of_nat (dim self)) idx ->
          exists b_new e_new,
            np.assign (_begin self) idx vals = Ok b_new /\
            np.assign (_end self) idx vals = Ok e_new) as Hput.
  { intros Heq Hin.
    destruct (SamplingFacts.put_ok idx vals (_begin self) Heq Hin)
      as (b_new & Hb & _).
    destruct (SamplingFacts.put_ok idx vals (_end self) Heq) as (e_new & He & _);
      [by rewrite Hlen|].
    by exists b_new, e_new. }
  split; [done|]. split; [|split; [|split]].
  - intros Heq Hex. apply H2; [done|]. intros Hall.
    apply Exists_exists in Hex as (j & Hj & Hout).
    rewrite Forall_forall in Hall. specialize (Hall j Hj). lia.
  - split.
    + intros Hv.
      destruct (decide (length idx = length vals)) as [Heq|Hne];
        [|rewrite H1 in Hv; done].
      destruct (decide (Forall (fun j => 0 <= j < Z.of_nat (dim self)) idx))
        as [Hin|Hout]; [|rewrite H2 in Hv; done].
      split; [done|]. split; [done|].
      destruct (H3 Heq Hin) as [[Hout _]|[_ H3']]; [done|].
      rewrite H3' in Hv.
      destruct (Hput Heq Hin) as (b_new & e_new & Hb & He).
      rewrite Hb, He in Hv. simpl in Hv.
      by apply CollapseFacts.init_not_value_error in Hv.
    + intros (Heq & Hin & Hout).
      by destruct (H3 Heq Hin) as [[_ ?]|[? _]].
  - intros Heq Hin Hno Hnum.
    destruct (H3 Heq Hin) as [[? _]|[_ H3']]; [done|]. rewrite H3'.
    destruct (Hput Heq Hin) as (b_new & e_new & Hb & He).
    rewrite Hb, He. simpl.
    assert (Forall (fun j => 0 <= j < Z.of_nat (length (_end self))) idx)
      as Hin' by (by rewrite Hlen).
    rewrite BoxFacts.init_ok
      by exact (CollapseFacts.put_ordered idx vals (_begin self) (_end self)
                  b_new e_new Hin Hnum Hle Hb He).
    destruct (CollapseFacts.put_spec idx vals _ _ Hin Hb) as (Hlb & Hob & Hib).
    destruct (CollapseFacts.put_spec idx vals _ _ Hin' He) as (Hl' & Hoe & Hie).
    eexists. split; [done|]. unfold dim. simpl. split; [done|]. split.
    + intros k j v Hj Hv Hlast. split; [by eapply Hib|by eapply Hie].
    + intros i Hi. split; [by apply Hob|by apply Hoe].
  - intros σ ref Hc Ha out.
    destruct (HeapFacts.collapse_refines σ ref indcs values Ha) as [Hp Hres].
    fold out in Hp, Hres. rewrite Hc in Hres. split; [|done].
    rewrite <- Hc. destruct Ha as [Hab Hae].
    unfold Heap.contents. f_equal; by apply HeapFacts.preserved_deref.
Qed.

(** The docstring of [collapse]: [collapse([1, 2], [0, 2.5])] returns a
    box, [collapse([1, 2], [0, 3.5])] raises. *)
Lemma collapse_checks_witness :
  constructed solid_box /\
  (exists x,
      collapse solid_box (np.array [1; 2]) (np.array [zero; frac 5 2]) = Ok x /\
      dim x = dim solid_box /\
      _begin x !! 2%nat = Some (frac 5 2) /\ _end x !! 2%nat = Some (frac 5 2)) /\
  collapse solid_box (np.array [1; 2]) (np.array [zero; frac 7 2])
  = Raise ValueOutOfBounds.
Proof.
  assert (constructed solid_box) as Hc by apply example_boxes_constructed.
  assert (Forall (fun j => 0 <= j < Z.of_nat (dim solid_box)) [1; 2]) as Hin
    by (repeat constructor; change (Z.of_nat (dim solid_box)) with 3; lia).
  split; [done|]. split.
  - destruct (collapse_checks solid_box (np.array [1; 2])
                (np.array [zero; frac 5 2]) Hc) as (_ & _ & _ & Hok & _).
    destruct Hok as (x & Hx & Hd & Hlisted & _); [done|done| |by repeat constructor|].
    + intros (k & j & v & b & e & Hj & Hv & Hb & He & Hout).
      destruct k as [|[|k]]; simpl in Hj, Hv; try done;
        injection Hj as <-; injection Hv as <-; simpl in Hb, He;
        injection Hb as <-; injection He as <-; by destruct Hout.
    + exists x. split; [done|]. split; [done|].
      apply (Hlisted 1%nat 2 (frac 5 2)); try done.
      intros [|[|k']] Hk'; try done; lia.
  - destruct (collapse_checks solid_box (np.array [1; 2])
                (np.array [zero; frac 7 2]) Hc) as (_ & _ & Hv & _).
    apply Hv. split; [done|]. split; [done|].
    exists 1%nat, 2, (frac 7 2), (of_int 2), (of_int 3).
    repeat split; try done. by right.
Defined.

(** C7 as stated, at a NaN and at an axis listed twice: NaN passes the
    two range checks and the constructor raises [ValueError] for the
    collapsed bounds; of two values for one axis the second stays. *)
Lemma collapse_nan_and_repeated_axis :
  (constructed (unit_box 1) /\
   ~ value_outside (unit_box 1) [0] [nan] /\
   collapse (unit_box 1) (np.array [0]) (np.array [nan])
   = Raise OrderingViolation) /\
  (constructed solid_box /\
   ~ value_outside solid_box [1; 1] [zero; one] /\
   exists x,
     collapse solid_box (np.array [1; 1]) (np.array [zero; one]) = Ok x /\
     _begin x !! 1%nat <> Some zero).
Proof.
  split; (split; [apply more_boxes_constructed || apply example_boxes_constructed|]).
  - split; [|reflexivity].
    intros (k & j & v & b & e & Hj & Hv & Hb & He & Hout).
    destruct k as [|k]; simpl in Hj, Hv; try done.
    injection Hj as <-; injection Hv as <-; simpl in Hb, He.
    injection Hb as <-; injection He as <-; by destruct Hout.
  - split.
    + intros (k & j & v & b & e & Hj & Hv & Hb & He & Hout).
      destruct k as [|[|k]]; simpl in Hj, Hv; try done;
        injection Hj as <-; injection Hv as <-; simpl in Hb, He;
        injection Hb as <-; injection He as <-; by destruct Hout.
    + eexists. split; [reflexivity|]. simpl. discriminate.
Qed.

(** ** Rounding

    The difference of two distinct finite binary64 numbers is not zero:
    thanks to the subnormal numbers, rounding the exact difference never
    gives zero. *)

Module RoundFacts.

Lemma digits_bounds (m : positive) :
  2 ^ (Zpos (digits2_pos m) - 1) <= Zpos m < 2 ^ Zpos (digits2_pos m).
Proof.
  induction m as [p IH|p IH|]; simpl digits2_pos.
  - rewrite Pos2Z.inj_succ, (Pos2Z.inj_xI p).
    replace (Z.succ (Zpos (digits2_pos p)) - 1)
      with (Z.succ (Zpos (digits2_pos p) - 1)) by lia.
    rewrite !Z.pow_succ_r by lia.
    remember (2 ^ (Zpos (digits2_pos p) - 1)) as a.
    remember (2 ^ Zpos (digits2_pos p)) as b. clear Heqa Heqb. lia.
  - rewrite Pos2Z.inj_succ, (Pos2Z.inj_xO p).
    replace (Z.succ (Zpos (digits2_pos p)) - 1)
      with (Z.succ (Zpos (digits2_pos p) - 1)) by lia.
    rewrite !Z.pow_succ_r by lia.
    remember (2 ^ (Zpos (digits2_pos p) - 1)) as a.
    remember (2 ^ Zpos (digits2_pos p)) as b. clear Heqa Heqb. lia.
  - simpl. lia.
Qed.

Lemma shr_1_m (mrs : shr_record) :
  0 <= shr_m mrs -> shr_m (shr_1 mrs) = shr_m mrs / 2.
Proof.
  destruct mrs as [m r s]. simpl. intros Hm. rewrite <- Z.div2_div.
  destruct m as [|p|p]; [done| |lia]. by destruct p.
Qed.

Lemma iter_shr_1_m (n : positive) :
  forall mrs,
    0 <= shr_m mrs ->
    shr_m (SpecFloat.iter_pos shr_1 n mrs) = shr_m mrs / 2 ^ Zpos n.
Proof.
  induction n as [n IH|n IH|]; intros mrs Hm; simpl SpecFloat.iter_pos.
  - assert (0 <= shr_m (shr_1 mrs)) as H1
      by (rewrite shr_1_m by done; apply Z.div_pos; lia).
    assert (0 <= shr_m (SpecFloat.iter_pos shr_1 n (shr_1 mrs))) as H2
      by (rewrite IH by done; apply Z.div_pos; lia).
    rewrite IH, IH, shr_1_m by done.
    rewrite !Z.div_div by lia. f_equal.
    rewrite (Pos2Z.inj_xI n), Z.pow_add_r, Z.pow_mul_r by lia.
    change (2 ^ 2) with (2 * 2). change (2 ^ 1) with 2.
    rewrite Z.pow_mul_l. lia.
  - assert (0 <= shr_m (SpecFloat.iter_pos shr_1 n mrs)) as H2
      by (rewrite IH by done; apply Z.div_pos; lia).
    rewrite IH, IH by done. rewrite !Z.div_div by lia. f_equal.
    rewrite (Pos2Z.inj_xO n), <- Z.pow_add_r by lia. f_equal. lia.
  - by rewrite shr_1_m.
Qed.

(** Shifting to the exponent of the format keeps a positive mantissa
    positive, when the exponent is not below the smallest one. *)
Lemma shr_fexp_pos (m e : Z) (l : location) :
  0 < m -> emin prec emax <= e ->
  0 < shr_m (shr_fexp prec emax m e l).1 /\
  emin prec emax <= (shr_fexp prec emax m e l).2.
Proof.
  intros Hm He. unfold shr_fexp, shr.
  destruct m as [|p|p]; try lia. simpl Zdigits2.
  pose proof (digits_bounds p) as [Hlo _].
  set (d := Zpos (digits2_pos p)) in *.
  destruct (fexp prec emax (d + e) - e) as [|n|n] eqn:En; simpl.
  - by destruct l as [|[]].
  - assert (Zpos n = d - prec) as Hn
      by (unfold fexp, emin, prec, emax in *; lia).
    split; [|unfold prec in *; lia].
    rewrite iter_shr_1_m by (destruct l as [|[]]; simpl; lia).
    assert (shr_m (shr_record_of_loc (Zpos p) l) = Zpos p) as ->
      by (by destruct l as [|[]]).
    apply Z.div_str_pos. split; [lia|].
    etrans; [|exact Hlo]. apply Z.pow_le_mono_r; unfold prec in *; lia.
  - by destruct l as [|[]].
Qed.

Lemma round_nearest_even_pos (m : Z) (l : location) :
  0 < m -> 0 < round_nearest_even m l.
Proof.
  intros Hm. destruct l as [|[]]; simpl; try lia. destruct (Z.even m); lia.
Qed.

Lemma binary_round_aux_nonzero (s : bool) (m e : Z) (l : location) :
  0 < m -> emin prec emax <= e ->
  nonzero s (binary_round_aux prec emax s m e l).
Proof.
  intros Hm He. unfold binary_round_aux.
  destruct (shr_fexp_pos m e l Hm He) as [H1 H1'].
  destruct (shr_fexp prec emax m e l) as [mrs' e']. simpl in H1, H1'.
  pose proof (round_nearest_even_pos (shr_m mrs') (loc_of_shr_record mrs') H1)
    as H2.
  destruct (shr_fexp_pos _ e' loc_Exact H2 H1') as [H3 _].
  destruct (shr_fexp prec emax _ e' loc_Exact) as [mrs'' e'']. simpl in H3.
  destruct (shr_m mrs'') as [|p|p]; try lia.
  destruct (e'' <=? emax - prec); [right; eauto|by left].
Qed.

Lemma iter_xO (d m : positive) :
  Zpos (Pos.iter xO m d) = Zpos m * 2 ^ Zpos d.
Proof.
  induction d as [|d IH] using Pos.peano_ind.
  - simpl. lia.
  - rewrite Pos.iter_succ, (Pos2Z.inj_xO (Pos.iter xO m d)), IH,
      Pos2Z.inj_succ, Z.pow_succ_r by lia.
    lia.
Qed.

Lemma binary_round_nonzero (s : bool) (m : positive) (e : Z) :
  emin prec emax <= e -> nonzero s (binary_round prec emax s m e).
Proof.
  intros He. unfold binary_round, shl_align.
  destruct (fexp prec emax (Zpos (digits2_pos m) + e) - e) as [|n|n] eqn:En.
  - by apply binary_round_aux_nonzero.
  - by apply binary_round_aux_nonzero.
  - apply binary_round_aux_nonzero; [lia|]. unfold fexp. lia.
Qed.

Lemma valid_finite (s : bool) (m : positive) (e : Z) :
  valid (S754_finite s m e) = true ->
  emin prec emax <= e /\ Zpos (digits2_pos m) <= prec /\
  (emin prec emax < e -> Zpos (digits2_pos m) = prec).
Proof.
  unfold valid, valid_binary, bounded, canonical_mantissa.
  intros [H1 _]%andb_prop. apply Z.eqb_eq in H1.
  unfold fexp, emin, prec, emax in *. lia.
Qed.

Lemma aligned (m : positive) (e ez : Z) :
  ez <= e -> Zpos (shl_align m e ez).1 = Zpos m * 2 ^ (e - ez).
Proof.
  intros He. unfold shl_align. destruct (ez - e) as [|d|d] eqn:Ed; simpl.
  - replace (e - ez) with 0 by lia. simpl. lia.
  - lia.
  - rewrite iter_xO. do 2 f_equal. lia.
Qed.

(** Of two well-formed mantissas the one with the larger exponent is the
    larger number. *)
Lemma larger_exponent (m1 m2 : positive) (e1 e2 : Z) (s1 s2 : bool) :
  valid (S754_finite s1 m1 e1) = true -> valid (S754_finite s2 m2 e2) = true ->
  e1 < e2 -> Zpos m1 < Zpos m2 * 2 ^ (e2 - e1).
Proof.
  intros (He1 & Hd1 & _)%valid_finite (He2 & _ & Hd2)%valid_finite Hlt.
  specialize (Hd2 ltac:(lia)).
  pose proof (digits_bounds m1) as [_ Hu].
  pose proof (digits_bounds m2) as [Hl _]. rewrite Hd2 in Hl.
  assert (2 ^ Zpos (digits2_pos m1) <= 2 ^ prec) as Hp
    by (apply Z.pow_le_mono_r; lia).
  assert (2 ^ 1 <= 2 ^ (e2 - e1)) as Hq by (apply Z.pow_le_mono_r; lia).
  assert (2 ^ prec = 2 ^ (prec - 1) * 2 ^ 1) as Hr
    by (rewrite <- Z.pow_add_r by (unfold prec; lia); f_equal; lia).
  remember (2 ^ Zpos (digits2_pos m1)) as a. remember (2 ^ prec) as b.
  remember (2 ^ (prec - 1)) as c. remember (2 ^ (e2 - e1)) as d.
  remember (2 ^ 1) as t.
  clear Heqa Heqb Heqc Heqd. subst t. change (2 ^ 1) with 2 in *. nia.
Qed.

(** The difference of two finite numbers [x < y] has the sign of the
    order in which they are subtracted, and is not zero. *)
Lemma sub_lt (x y : float64) :
  valid x = true -> valid y = true -> isfinite x = true -> isfinite y = true ->
  lt x y = true -> nonzero false (sub y x) /\ nonzero true (sub x y).
Proof.
  intros Hvx Hvy Hfx Hfy Hlt. unfold lt, SFltb in Hlt.
  destruct x as [sx|sx| |sx mx ex], y as [sy|sy| |sy my ey]; try done.
  - simpl in Hlt. destruct sy; [done|]. split; right; simpl; eauto.
  - simpl in Hlt. destruct sx; [|done]. split; right; simpl; eauto.
  - pose proof (valid_finite _ _ _ Hvx) as (Hex & _).
    pose proof (valid_finite _ _ _ Hvy) as (Hey & _).
    unfold sub, SFsub. rewrite (Z.min_comm ex ey). set (ez := Z.min ey ex).
    rewrite !aligned by (unfold ez; lia).
    assert (0 < cond_Zopp sy (Zpos my * 2 ^ (ey - ez))
                - cond_Zopp sx (Zpos mx * 2 ^ (ex - ez))) as HM.
    { assert (0 < 2 ^ (ey - ez)) by (apply Z.pow_pos_nonneg; unfold ez; lia).
      assert (0 < 2 ^ (ex - ez)) by (apply Z.pow_pos_nonneg; unfold ez; lia).
      simpl in Hlt. destruct sx, sy; simpl; try done.
      - destruct (ex ?= ey) eqn:Ec; try done.
        + apply Z.compare_eq in Ec. subst ey.
          replace (ex - ez) with 0 by (unfold ez; lia). rewrite Z.pow_0_r.
          destruct (Pos.compare_cont Eq mx my) eqn:Em; try done.
          assert (Zpos mx > Zpos my) by exact Em. lia.
        + assert (ey < ex) as Ec' by (apply Z.gt_lt; exact Ec).
          replace ez with ey by (unfold ez; lia).
          replace (ey - ey) with 0 by lia. rewrite Z.pow_0_r.
          pose proof (larger_exponent my mx ey ex _ _ Hvy Hvx Ec'). lia.
      - nia.
      - destruct (ex ?= ey) eqn:Ec; try done.
        + apply Z.compare_eq in Ec. subst ey.
          replace (ex - ez) with 0 by (unfold ez; lia). rewrite Z.pow_0_r.
          destruct (Pos.compare_cont Eq mx my) eqn:Em; try done.
          assert (Zpos mx < Zpos my) by exact Em. lia.
        + assert (ex < ey) as Ec' by exact Ec.
          replace ez with ex by (unfold ez; lia).
          replace (ex - ex) with 0 by lia. rewrite Z.pow_0_r.
          pose proof (larger_exponent mx my ex ey _ _ Hvx Hvy Ec'). lia. }
    split.
    + destruct (_ - _) as [|p|p]; try lia. simpl.
      apply binary_round_nonzero. unfold ez. lia.
    + replace (cond_Zopp sx (Zpos mx * 2 ^ (ex - ez))
               - cond_Zopp sy (Zpos my * 2 ^ (ey - ez)))
        with (- (cond_Zopp sy (Zpos my * 2 ^ (ey - ez))
                 - cond_Zopp sx (Zpos mx * 2 ^ (ex - ez)))) by lia.
      destruct (_ - _) as [|p|p]; try lia. simpl.
      apply binary_round_nonzero. unfold ez. lia.
Qed.

(** Equal finite numbers have the difference zero. *)
Lemma sub_eq (x y : float64) :
  isfinite x = true -> isfinite y = true -> eq x y = true ->
  exists s, sub y x = S754_zero s.
Proof.
  intros Hfx Hfy Heq. unfold eq, SFeqb in Heq.
  destruct x as [sx|sx| |sx mx ex], y as [sy|sy| |sy my ey]; try done.
  - destruct sx, sy; simpl; eauto.
  - simpl in Heq. by destruct sy.
  - simpl in Heq. by destruct sx.
  - assert (sx = sy /\ ex = ey /\ mx = my) as (-> & -> & ->).
    { simpl in Heq. destruct sx, sy; try done;
        (destruct (ex ?= ey) eqn:Ec; try done;
         apply Z.compare_eq in Ec;
         destruct (Pos.compare_cont Eq mx my) eqn:Em; try done;
         apply Pos.compare_eq in Em; done). }
    unfold sub, SFsub. rewrite Z.sub_diag. simpl. eauto.
Qed.

Lemma nonzero_not_le_zero (x : float64) :
  nonzero false x -> le x zero = false.
Proof. by intros [->|(m & e & ->)]. Qed.

Lemma abs_nonzero (s : bool) (x : float64) :
  nonzero s x -> nonzero false (abs x).
Proof. intros [->|(m & e & ->)]; [by left|right; simpl; eauto]. Qed.

End RoundFacts.

Section SingleNode.

Variable Grid : Type.
Variable RegularGrid :
  list Z -> np.array_like float64 -> list float64 -> result Grid.

Lemma bound_finite (self : IntervalProd) (i : nat) (b e : float64) :
  constructed self -> ~ unbounded self ->
  _begin self !! i = Some b -> _end self !! i = Some e ->
  isfinite b = true /\ isfinite e = true.
Proof.
  intros H Hfin Hb He. destruct (BoxFacts.constructed_inv _ H) as (Hle & _).
  pose proof (Forall2_lookup_lr _ _ _ _ _ _ Hle Hb He) as Hbe.
  destruct (F64Facts.le_numbers _ _ Hbe) as [Hnb Hne].
  split.
  - destruct b as [|s| |]; try done. destruct Hfin.
    exists (S754_infinity s). split; [|done].
    left. by eapply list_elem_of_lookup_2.
  - destruct e as [|s| |]; try done. destruct Hfin.
    exists (S754_infinity s). split; [|done].
    right. by eapply list_elem_of_lookup_2.
Qed.

(** C10. With [as_midp] false, a count of 1 passes the validation (on a
    degenerate axis it is the only count that does), no error is raised,
    and the stride handed to the grid constructor is, on such an axis,
    [size[i] / 0]: NaN when the axis is degenerate, +infinity when it is
    not. *)
Theorem single_node_stride (self : IntervalProd) (num_nodes : np.array_like Z) :
  constructed self -> binary64 self ->
  let n := np.atleast_1d num_nodes in
  Forall is_int64 n -> ~ unbounded self -> length n = dim self ->
  (forall k, k ∈ n -> 0 < k) -> ~ oversampled self n ->
  (forall (i : nat) (b e : float64) (k : Z),
      _begin self !! i = Some b -> _end self !! i = Some e ->
      eq b e = true -> n !! i = Some k -> k = 1) /\
  exists center,
    midpoint self = Ok center /\
    uniform_sampling Grid RegularGrid self num_nodes false
    = RegularGrid n center (stride self n false) /\
    forall (i : nat) (b e : float64),
      n !! i = Some 1 ->
      _begin self !! i = Some b -> _end self !! i = Some e ->
      stride self n false !! i = Some (div (sub e b) zero) /\
      (eq b e = true -> stride self n false !! i = Some nan) /\
      (ne b e = true -> stride self n false !! i = Some inf).
Proof.
  intros H [Hvb Hve] n H64 Hfin Hlen Hpos Hno.
  destruct (BoxFacts.constructed_inv _ H) as (Hle & _).
  split.
  { intros i b e k Hb He Heq Hk.
    assert (0 < k) by (apply Hpos; by eapply list_elem_of_lookup_2).
    destruct (Z.le_gt_cases k 1) as [?|Hgt]; [lia|].
    destruct Hno. by exists i, b, e, k. }
  destruct (SamplingFacts.midpoint_ok _ H) as (center & Hc).
  exists center. split; [done|]. split.
  { change (uniform_sampling Grid RegularGrid self num_nodes false)
      with (uniform_sampling Grid RegularGrid self (np.array n) false).
    rewrite uniform_sampling_checked by done.
    destruct (np.any _) eqn:Eover; [by apply oversampled_any in Eover|].
    by rewrite Hc. }
  intros i b e Hn Hb He.
  assert (stride self n false !! i = Some (div (sub e b) zero)) as Hs.
  { unfold stride, size. rewrite !lookup_zip_with, He. simpl.
    rewrite Hb. simpl. by rewrite Hn. }
  split; [done|]. rewrite Hs.
  destruct (bound_finite self i b e H Hfin Hb He) as [Hfb Hfe].
  split.
  - intros Heq. destruct (RoundFacts.sub_eq b e Hfb Hfe Heq) as [s ->]. done.
  - intros Hne.
    pose proof (Forall2_lookup_lr _ _ _ _ _ _ Hle Hb He) as Hbe.
    pose proof (F64Facts.le_ne_lt _ _ Hbe Hne) as Hlt.
    rewrite Forall_lookup in Hvb, Hve.
    destruct (RoundFacts.sub_lt b e (Hvb i b Hb) (Hve i e He) Hfb Hfe Hlt)
      as [[->|(m & x & ->)] _]; done.
Qed.

End SingleNode.

(** One node per axis on [IntervalProd([0, 1], [0, 2])]: the stride is
    [(nan, inf)]. *)
Lemma single_node_stride_witness :
  constructed wall_box /\ binary64 wall_box /\ Forall is_int64 [1; 1] /\
  exists center,
    midpoint wall_box = Ok center /\
    uniform_sampling _ (fun n c s => Ok (n, c, s)) wall_box (np.array [1; 1])
                     false
    = Ok ([1; 1], center, [nan; inf]).
Proof.
  assert (constructed wall_box) as Hc by apply more_boxes_constructed.
  assert (binary64 wall_box) as Hv by (by split; repeat constructor).
  assert (Forall is_int64 [1; 1]) as H64
    by (repeat constructor; unfold is_int64; lia).
  split; [done|]. split; [done|]. split; [done|].
  destruct (single_node_stride _ (fun n c s => Ok (n, c, s)) wall_box
              (np.array [1; 1]) Hc Hv H64) as (_ & center & Hm & Hu & Hs).
  - intros (x & Hx & Hi). simpl in Hx. rewrite !elem_of_cons in Hx.
    destruct Hx as [[->|[->|Hx]]|[->|[->|Hx]]]; try done;
      by apply elem_of_nil in Hx.
  - done.
  - intros k Hk. simpl in Hk. rewrite !elem_of_cons in Hk.
    destruct Hk as [->|[->|Hk]]; try lia. by apply elem_of_nil in Hk.
  - intros (i & b & e & k & _ & _ & _ & Hk & Hgt).
    destruct i as [|[|i]]; simpl in Hk; try done; injection Hk as <-; lia.
  - exists center. split; [done|]. rewrite Hu.
    destruct (Hs 0%nat (of_int 0) (of_int 0) eq_refl eq_refl eq_refl)
      as (_ & H0 & _).
    destruct (Hs 1%nat (of_int 1) (of_int 2) eq_refl eq_refl eq_refl)
      as (_ & _ & H1).
    specialize (H0 eq_refl). specialize (H1 eq_refl).
    assert (stride wall_box [1; 1] false = [nan; inf]) as Hst
      by (apply list_eq; intros [|[|i]]; [exact H0|exact H1|done]).
    exact (f_equal (fun s => Ok ([1; 1], center, s)) Hst).
Defined.

(** ** Equality of boxes of one dimension

    Apart from the comparison across dimensions, [equals] is what the
    specification says. *)

Module EqualsFacts.

Import F64Facts RoundFacts.

Lemma eq_swap (x y : float64) : eq x y = eq y x.
Proof.
  unfold eq, SFeqb. rewrite (compare_swap x y).
  by destruct (SFcompare x y) as [[]|].
Qed.

(** Without relative tolerance, numpy's test is the absolute one. *)
Lemma isclose_within (tol x y : float64) :
  np.isclose zero tol x y = within tol x y.
Proof.
  unfold np.isclose, within, np.within_tol.
  destruct (isfinite x) eqn:Ex, (isfinite y) eqn:Ey; simpl; try done.
  by apply le_atol_only.
Qed.

(** At [tol=0], matching is exact equality. *)
Lemma within_zero (x y : float64) :
  valid x = true -> valid y = true -> within zero x y = eq x y.
Proof.
  intros Hvx Hvy. unfold within.
  destruct (isfinite x) eqn:Ex, (isfinite y) eqn:Ey; simpl; try done.
  destruct (eq x y) eqn:Exy.
  - rewrite eq_swap in Exy. by destruct (sub_eq y x Ey Ex Exy) as [s ->].
  - assert (lt x y = true \/ lt y x = true) as [Hlt|Hlt].
    { unfold lt, SFltb, eq, SFeqb in *. rewrite (compare_swap x y).
      destruct (compare_numbers x y) as [c Hc]; [by destruct x|by destruct y|].
      rewrite Hc in *. destruct c; auto. }
    + destruct (sub_lt x y Hvx Hvy Ex Ey Hlt) as [_ Hn].
      by apply nonzero_not_le_zero, (abs_nonzero true).
    + destruct (sub_lt y x Hvy Hvx Ey Ex Hlt) as [Hn _].
      by apply nonzero_not_le_zero, (abs_nonzero false).
Qed.

Lemma all_isclose (tol : float64) (a : list float64) :
  forall b : list float64,
    length a = length b ->
    np.all ((fun p => np.isclose zero tol p.1 p.2) <$> zip a b) = true
    <-> Forall2 (fun x y => within tol x y = true) a b.
Proof.
  unfold np.all. induction a as [|x a IH]; intros [|y b] Hlen; try done.
  cbn [zip_with fmap list_fmap forallb fst snd id].
  rewrite andb_true_iff, IH, isclose_within by (simpl in Hlen; lia).
  split; [by intros [??]; constructor|]. intros H. by inversion H.
Qed.

(** [equals] on two boxes of one dimension: whether every bound of the
    one matches the corresponding bound of the other within [tol]. *)
Lemma equals_same_dimension (self other : IntervalProd) (tol : float64) :
  constructed self -> constructed other -> dim self = dim other ->
  exists b : bool,
    equals self (is_IntervalProd other) tol = Ok b /\
    (b = true <->
     Forall2 (fun x y => within tol x y = true) (_begin self) (_begin other) /\
     Forall2 (fun x y => within tol x y = true) (_end self) (_end other)).
Proof.
  intros Hs Ho Hdim.
  pose proof (BoxFacts.constructed_lengths _ Hs) as Hls.
  pose proof (BoxFacts.constructed_lengths _ Ho) as Hlo.
  unfold equals, np.allclose, np.broadcast.
  rewrite !decide_True by (unfold dim in *; lia). simpl.
  pose proof (all_isclose tol (_begin self) (_begin other) Hdim) as Hb.
  pose proof (all_isclose tol (_end self) (_end other)) as He.
  destruct (np.all _) eqn:E1; simpl.
  - eexists. split; [done|]. rewrite He by lia.
    split; [intros H; split; [by apply Hb|done]|by intros [_ ?]].
  - exists false. split; [done|]. split; [done|]. intros [H _].
    apply Hb in H. congruence.
Qed.

End EqualsFacts.

(** * More of the module *)

(** ** The constructor *)

Module MoreFacts.

Import F64Facts npFacts BoxFacts.

Lemma all_false (m : list bool) : np.all m = false <-> false ∈ m.
Proof.
  unfold np.all. induction m as [|b m IH]; simpl.
  - split; [done|]. by intros ?%elem_of_nil.
  - rewrite elem_of_cons. destruct b; simpl.
    + rewrite IH. split; [by right|]. by intros [?|?].
    + split; [by left|done].
Qed.

Lemma elem_of_where_from (m : list bool) :
  forall (i : nat) (j : Z),
    j ∈ np.where_from i m
    <-> exists k : nat, j = Z.of_nat (i + k) /\ m !! k = Some true.
Proof.
  induction m as [|b m IH]; intros i j; simpl.
  - split; [by intros ?%elem_of_nil|]. by intros (k & _ & ?).
  - rewrite elem_of_app, IH. split.
    + intros [Hj|(k & -> & Hk)].
      * destruct b; [|by apply elem_of_nil in Hj].
        apply list_elem_of_singleton in Hj as ->. exists 0%nat.
        split; [lia|done].
      * exists (S k). split; [lia|done].
    + intros ([|k] & -> & Hk); simpl in Hk.
      * left. injection Hk as ->. apply list_elem_of_singleton. lia.
      * right. exists k. split; [lia|done].
Qed.

Lemma elem_of_where (m : list bool) (j : Z) :
  j ∈ np.where_ m <-> exists k : nat, j = Z.of_nat k /\ m !! k = Some true.
Proof. apply (elem_of_where_from m 0 j). Qed.

Lemma NoDup_where_from (m : list bool) :
  forall i, NoDup (np.where_from i m).
Proof.
  induction m as [|b m IH]; intros i; simpl; [constructor|].
  apply NoDup_app. split; [destruct b; [apply NoDup_singleton|constructor]|].
  split; [|apply IH].
  intros j Hj (k & -> & _)%elem_of_where_from.
  destruct b; [|by apply elem_of_nil in Hj].
  apply list_elem_of_singleton in Hj. lia.
Qed.

Lemma length_where_split (m : list bool) :
  forall i j,
    (length (np.where_from i m) + length (np.where_from j (negb <$> m)))%nat
    = length m.
Proof.
  induction m as [|b m IH]; intros i j; [done|].
  simpl. rewrite !length_app. specialize (IH (S i) (S j)).
  unfold fmap in *. destruct b; simpl; lia.
Qed.

Lemma ne_mask (b e : list float64) :
  zip_with ne b e = negb <$> zip_with eq b e.
Proof.
  revert e. induction b as [|x b IH]; intros [|y e]; try done.
  simpl. by rewrite IH.
Qed.

End MoreFacts.

(** X1. The constructor raises [DimensionMismatch] exactly when the two
    bound vectors differ in length, and [OrderingViolation] exactly when
    they have one length and [begin[i] <= end[i]] fails on some axis,
    which it does for a NaN on either side; otherwise it returns a box
    holding the two vectors as given.  No box has a NaN bound. *)
Theorem constructor_accepts (begin end_ : np.array_like float64) :
  let b := np.atleast_1d begin in
  let e := np.atleast_1d end_ in
  (IntervalProd_init begin end_ = Raise DimensionMismatch
   <-> length b <> length e) /\
  (IntervalProd_init begin end_ = Raise OrderingViolation
   <-> length b = length e /\
       exists (i : nat) (x y : float64),
         b !! i = Some x /\ e !! i = Some y /\ le x y = false) /\
  ((exists self, IntervalProd_init begin end_ = Ok self)
   <-> Forall2 (fun x y => le x y = true) b e) /\
  (forall self,
      IntervalProd_init begin end_ = Ok self ->
      _begin self = b /\ _end self = e /\
      Forall (fun x => isnan x = false) b /\
      Forall (fun x => isnan x = false) e).
Proof.
  intros b e.
  assert (IntervalProd_init begin end_
          = IntervalProd_init (np.array b) (np.array e)) as -> by done.
  assert (np.all (zip_with le b e) = false
          <-> exists (i : nat) (x y : float64),
                b !! i = Some x /\ e !! i = Some y /\ le x y = false) as Hfalse.
  { rewrite MoreFacts.all_false, elem_of_lookup_zip_with. split.
    - intros (i & x & y & Hxy & Hx & Hy). by exists i, x, y.
    - intros (i & x & y & Hx & Hy & Hxy). by exists i, x, y. }
  split; [|split; [|split]].
  - unfold IntervalProd_init. simpl. fold b e. case_decide; [done|].
    split; [|done]. by destruct (np.all _).
  - unfold IntervalProd_init. simpl. fold b e. case_decide as Hlen.
    + split; [done|]. by intros [? _].
    + destruct (np.all _) eqn:Hall; simpl.
      * split; [done|]. intros [_ Hex%Hfalse]. congruence.
      * split; [|done]. intros _. split; [done|]. by apply Hfalse.
  - split.
    + intros (self & Hself). apply BoxFacts.init_inv in Hself.
      by destruct Hself as (-> & -> & Hle & _).
    + intros Hle. eexists. by apply BoxFacts.init_ok.
  - intros self Hself. apply BoxFacts.init_inv in Hself.
    destruct Hself as (Hb & He & Hle & _). simpl in Hb, He.
    rewrite Hb, He in Hle. repeat split; try done;
      by apply InsertFacts.le_numbers_l in Hle as [??].
Qed.

(** ** Degenerate and non-degenerate axes *)

(** X2. The index arrays [_ideg] and [_inondeg] of a box split its axes:
    an axis is in [_ideg] when [begin == end] there and in [_inondeg]
    when [begin != end], no index is listed twice, every listed index is
    an axis, each axis is in exactly one of the two, and [truedim] and
    the number of degenerate axes add up to [dim]. *)
Theorem axes_partition (self : IntervalProd) :
  constructed self ->
  (forall j : Z,
      j ∈ _ideg self
      <-> exists (i : nat) (b e : float64),
            j = Z.of_nat i /\ _begin self !! i = Some b /\
            _end self !! i = Some e /\ eq b e = true) /\
  (forall j : Z,
      j ∈ _inondeg self
      <-> exists (i : nat) (b e : float64),
            j = Z.of_nat i /\ _begin self !! i = Some b /\
            _end self !! i = Some e /\ ne b e = true) /\
  (forall j : Z,
      j ∈ _ideg self \/ j ∈ _inondeg self <-> 0 <= j < Z.of_nat (dim self)) /\
  (forall j : Z, ~ (j ∈ _ideg self /\ j ∈ _inondeg self)) /\
  NoDup (_ideg self) /\ NoDup (_inondeg self) /\
  (length (_ideg self) + truedim self)%nat = dim self.
Proof.
  intros H. destruct (BoxFacts.constructed_inv _ H) as (Hle & Hdeg & Hnd).
  pose proof (Forall2_length _ _ _ Hle) as Hlen.
  assert (forall (t : float64 -> float64 -> bool) (j : Z),
             j ∈ np.where_ (zip_with t (_begin self) (_end self))
             <-> exists (i : nat) (b e : float64),
                   j = Z.of_nat i /\ _begin self !! i = Some b /\
                   _end self !! i = Some e /\ t b e = true) as Hmask.
  { intros t j. rewrite MoreFacts.elem_of_where. split.
    - intros (i & -> & (b & e & Ht & Hb & He)%lookup_zip_with_Some).
      by exists i, b, e.
    - intros (i & b & e & -> & Hb & He & Ht). exists i. split; [done|].
      apply lookup_zip_with_Some. by exists b, e. }
  assert (forall j, j ∈ _ideg self
            <-> exists (i : nat) (b e : float64),
                  j = Z.of_nat i /\ _begin self !! i = Some b /\
                  _end self !! i = Some e /\ eq b e = true) as Hi
    by (intros j; rewrite Hdeg; apply Hmask).
  assert (forall j, j ∈ _inondeg self
            <-> exists (i : nat) (b e : float64),
                  j = Z.of_nat i /\ _begin self !! i = Some b /\
                  _end self !! i = Some e /\ ne b e = true) as Hn
    by (intros j; rewrite Hnd; apply Hmask).
  split; [done|]. split; [done|]. split; [|split; [|split; [|split]]].
  - intros j. rewrite Hi, Hn. split.
    + intros [(i & b & e & -> & Hb & _)|(i & b & e & -> & Hb & _)];
        apply lookup_lt_Some in Hb; unfold dim; lia.
    + intros Hj.
      destruct (lookup_lt_is_Some_2 (_begin self) (Z.to_nat j)) as [b Hb];
        [unfold dim in Hj; lia|].
      destruct (lookup_lt_is_Some_2 (_end self) (Z.to_nat j)) as [e He];
        [unfold dim in Hj; lia|].
      destruct (eq b e) eqn:Ebe; [left|right];
        exists (Z.to_nat j), b, e; rewrite ?F64Facts.ne_eq, ?Ebe;
        repeat split; try done; lia.
  - intros j [(i & b & e & -> & Hb & He & Heq)%Hi
                (i' & b' & e' & Hii & Hb' & He' & Hne)%Hn].
    apply Nat2Z.inj in Hii as <-.
    assert (b' = b) as -> by congruence. assert (e' = e) as -> by congruence.
    rewrite F64Facts.ne_eq, Heq in Hne. done.
  - rewrite Hdeg. apply MoreFacts.NoDup_where_from.
  - rewrite Hnd. apply MoreFacts.NoDup_where_from.
  - unfold truedim, dim. rewrite Hdeg, Hnd, MoreFacts.ne_mask.
    unfold np.where_. rewrite MoreFacts.length_where_split, length_zip_with.
    lia.
Qed.

(** The box of the docstring of [measure] has the degenerate axis 2 and
    the true dimension 2. *)
Lemma axes_partition_witness :
  constructed flat_box /\ 2 ∈ _ideg flat_box /\ ~ 2 ∈ _inondeg flat_box /\
  (length (_ideg flat_box) + truedim flat_box)%nat = dim flat_box.
Proof.
  pose proof (proj1 example_boxes_constructed) as Hc.
  destruct (axes_partition flat_box Hc) as (Hi & _ & _ & Hdis & _ & _ & Hn).
  split; [done|]. split; [|split; [|done]].
  - apply Hi. by exists 2%nat, (of_int 0), (of_int 0).
  - intros Hin. apply (Hdis 2). split; [|done].
    apply Hi. by exists 2%nat, (of_int 0), (of_int 0).
Defined.

(** ** Squeezing *)

Module SqueezeFacts.

Import F64Facts npFacts BoxFacts.

Lemma where_from_none (m : list bool) :
  forall i, Forall (fun b => b = false) m -> np.where_from i m = [].
Proof.
  induction m as [|b m IH]; intros i Hm; [done|].
  inversion Hm; subst. simpl. by apply IH.
Qed.

Lemma compress_fst {A B} (t : A -> B -> bool) :
  forall (a : list A) (b : list B),
    compress (zip_with t a b) a
    = (filter (fun p => t p.1 p.2 = true) (zip a b)).*1.
Proof.
  induction a as [|x a IH]; intros [|y b]; try done.
  simpl. rewrite filter_cons. simpl. destruct (t x y) eqn:E.
  - rewrite decide_True by done. simpl. by rewrite IH.
  - rewrite decide_False by done. apply IH.
Qed.

Lemma compress_snd {A B} (t : A -> B -> bool) :
  forall (a : list A) (b : list B),
    compress (zip_with t a b) b
    = (filter (fun p => t p.1 p.2 = true) (zip a b)).*2.
Proof.
  induction a as [|x a IH]; intros [|y b]; try done.
  simpl. rewrite filter_cons. simpl. destruct (t x y) eqn:E.
  - rewrite decide_True by done. simpl. by rewrite IH.
  - rewrite decide_False by done. apply IH.
Qed.

(** A box is the record of its bounds and their two masks. *)
Lemma constructed_eta (self : IntervalProd) :
  constructed self ->
  self = {| _begin := _begin self; _end := _end self;
            _ideg := np.where_ (zip_with eq (_begin self) (_end self));
            _inondeg := np.where_ (zip_with ne (_begin self) (_end self)) |}.
Proof.
  intros (_ & Hdeg & Hnd)%constructed_inv. destruct self. simpl in *.
  by rewrite Hdeg, Hnd.
Qed.

(** A box without degenerate axes is what [squeeze] returns for it. *)
Lemma squeeze_full (self : IntervalProd) :
  constructed self -> truedim self = dim self -> squeeze self = Ok self.
Proof.
  intros H Hfull. destruct (constructed_inv _ H) as (Hle & _).
  pose proof (Forall2_length _ _ _ Hle) as Hlen.
  rewrite squeeze_ok by done. cbv zeta.
  assert (Forall (fun c => c = true) (zip_with ne (_begin self) (_end self)))
    as Hnd.
  { apply InsertFacts.all_true_mask. rewrite <- truedim_count by done.
    rewrite Hfull, length_zip_with. unfold dim. lia. }
  rewrite !compress_all by (done || rewrite length_zip_with; lia).
  f_equal. symmetry. by apply constructed_eta.
Qed.

End SqueezeFacts.

(** X3. [squeeze] keeps the non-degenerate axes, in their order: the box
    it returns has the dimension [truedim] of the receiver and no
    degenerate axis.  Squeezing it again returns it unchanged, and a box
    without degenerate axes is returned as it is. *)
Theorem squeeze_keeps_nondegenerate (self : IntervalProd) :
  constructed self ->
  exists s,
    squeeze self = Ok s /\
    _begin s
    = (filter (fun be => ne be.1 be.2 = true)
              (zip (_begin self) (_end self))).*1 /\
    _end s
    = (filter (fun be => ne be.1 be.2 = true)
              (zip (_begin self) (_end self))).*2 /\
    dim s = truedim self /\ truedim s = dim s /\ _ideg s = [] /\
    squeeze s = Ok s /\
    (truedim self = dim self -> s = self).
Proof.
  intros H. pose proof (BoxFacts.squeeze_ok _ H) as Hs. cbv zeta in Hs.
  eexists. split; [exact Hs|].
  destruct (BoxFacts.squeeze_dims _ _ H Hs) as (Hc & Hd & Ht & _).
  split; [apply SqueezeFacts.compress_fst|].
  split; [apply SqueezeFacts.compress_snd|].
  split; [done|]. split; [by rewrite Ht, Hd|]. split.
  - cbn [_ideg]. apply SqueezeFacts.where_from_none.
    pose proof (npFacts.compress_self_all
                  (zip_with ne (_begin self) (_end self))) as Hall.
    rewrite <- BoxFacts.squeezed_mask, MoreFacts.ne_mask in Hall.
    apply Forall_fmap in Hall. eapply Forall_impl; [exact Hall|].
    intros c Hc'. simpl in Hc'. by destruct c.
  - split; [apply SqueezeFacts.squeeze_full; [done|by rewrite Ht, Hd]|].
    intros Hfull. pose proof (SqueezeFacts.squeeze_full _ H Hfull) as Hself.
    rewrite Hs in Hself. by injection Hself.
Qed.

(** The docstring of [squeeze]: a box collapsed on its axis 1 squeezes
    to the two other axes, and a box collapsed on every axis to the box
    without axes. *)
Lemma squeeze_keeps_nondegenerate_witness :
  constructed slab_box /\
  exists s,
    squeeze slab_box = Ok s /\
    _begin s = [of_int (-1); of_int 2] /\ _end s = [frac (-1) 2; of_int 3] /\
    dim s = 2%nat /\ squeeze s = Ok s.
Proof.
  pose proof (proj1 more_boxes_constructed) as Hc. split; [done|].
  destruct (squeeze_keeps_nondegenerate slab_box Hc)
    as (s & Hs & Hb & He & Hd & _ & _ & Hss & _).
  exists s. by rewrite Hb, He, Hd.
Defined.

(** ** Inserting *)

Module LayoutFacts.

Import F64Facts npFacts BoxFacts.

(** The number of true entries of a mask. *)
Lemma count_app (m1 m2 : list bool) :
  length (compress (m1 ++ m2) (m1 ++ m2))
  = (length (compress m1 m1) + length (compress m2 m2))%nat.
Proof. by rewrite compress_app, length_app. Qed.

Lemma mask_spliced {A B} (t : A -> A -> B) (i : nat) (b e d d' : list A) :
  length b = length e -> length d = length d' ->
  zip_with t (take i b ++ d ++ drop i b) (take i e ++ d' ++ drop i e)
  = take i (zip_with t b e) ++ zip_with t d d' ++ drop i (zip_with t b e).
Proof.
  intros Hbe Hd.
  rewrite !zip_with_app by (rewrite ?length_take; lia).
  by rewrite zip_with_take, zip_with_drop.
Qed.

Lemma count_spliced (i : nat) (m n : list bool) :
  length (compress (take i m ++ n ++ drop i m) (take i m ++ n ++ drop i m))
  = (length (compress m m) + length (compress n n))%nat.
Proof.
  rewrite !count_app.
  pose proof (count_app (take i m) (drop i m)) as H.
  rewrite take_drop in H. lia.
Qed.

End LayoutFacts.

(** X4. [insert] checks the position first: an [index] outside
    [0 .. dim] raises [IndexOutOfRange] whatever is inserted.  A box
    inserted at a position in that range is always accepted: the bounds of
    the result are those of the receiver before [index], then those of the
    inserted box, then the rest of the receiver, whatever the allocated
    arrays held; both the dimension and the number of non-degenerate axes
    add up. *)
Theorem insert_layout (uninitialized : nat -> float64)
    (self d : IntervalProd) (index : Z) :
  constructed self -> constructed d ->
  (~ 0 <= index <= Z.of_nat (dim self) ->
   forall other, insert uninitialized self other index = Raise IndexOutOfRange)
  /\
  (0 <= index <= Z.of_nat (dim self) ->
   let i := Z.to_nat index in
   exists x,
     insert uninitialized self (inl d) index = Ok x /\
     _begin x = take i (_begin self) ++ _begin d ++ drop i (_begin self) /\
     _end x = take i (_end self) ++ _end d ++ drop i (_end self) /\
     dim x = (dim self + dim d)%nat /\
     truedim x = (truedim self + truedim d)%nat).
Proof.
  intros Hs Hd. split.
  - intros Hi other. unfold insert.
    destruct (Z.leb_spec 0 index); [|done].
    destruct (Z.leb_spec index (Z.of_nat (dim self))); [lia|done].
  - intros Hi i.
    destruct (BoxFacts.constructed_inv _ Hs) as (Hle & _).
    destruct (BoxFacts.constructed_inv _ Hd) as (Hled & _).
    pose proof (Forall2_length _ _ _ Hle) as Hlen.
    pose proof (Forall2_length _ _ _ Hled) as Hlend.
    pose proof (InsertFacts.insert_spliced uninitialized self d (inl d) index
                  Hs Hd Hi eq_refl) as Hins.
    simpl in Hins. fold i in Hins.
    rewrite BoxFacts.init_ok in Hins
      by (repeat apply Forall2_app; auto using Forall2_take, Forall2_drop).
    eexists. split; [exact Hins|]. split; [done|]. split; [done|].
    assert (constructed
              {| _begin := take i (_begin self) ++ _begin d
                           ++ drop i (_begin self);
                 _end := take i (_end self) ++ _end d ++ drop i (_end self);
                 _ideg := np.where_
                            (zip_with eq
                               (take i (_begin self) ++ _begin d
                                ++ drop i (_begin self))
                               (take i (_end self) ++ _end d
                                ++ drop i (_end self)));
                 _inondeg := np.where_
                               (zip_with ne
                                  (take i (_begin self) ++ _begin d
                                   ++ drop i (_begin self))
                                  (take i (_end self) ++ _end d
                                   ++ drop i (_end self))) |}) as Hx.
    { eapply insert_constructed, Hins. }
    split.
    + unfold dim. cbn [_begin]. rewrite !length_app, length_take, length_drop.
      subst i. unfold dim in Hi. lia.
    + rewrite (BoxFacts.truedim_count _ Hx). cbn [_begin _end].
      rewrite LayoutFacts.mask_spliced by done.
      rewrite LayoutFacts.count_spliced.
      by rewrite <- !BoxFacts.truedim_count.
Qed.

(** The box [IntervalProd([-1, 2], [-0.5, 3])] with the box
    [IntervalProd([-1, 2.5, 0], [-0.5, 10, 0])] inserted at position 1. *)
Lemma insert_layout_witness :
  constructed rbox /\ constructed flat_box /\
  exists x,
    insert (fun _ => nan) rbox (inl flat_box) 1 = Ok x /\
    _begin x = [of_int (-1); of_int (-1); frac 5 2; of_int 0; of_int 2] /\
    dim x = 5%nat.
Proof.
  pose proof example_boxes_constructed as Hex.
  pose proof more_boxes_constructed as Hmore.
  assert (constructed rbox) as Hr by tauto.
  assert (constructed flat_box) as Hf by tauto.
  split; [done|]. split; [done|].
  destruct (proj2 (insert_layout (fun _ => nan) rbox flat_box 1 Hr Hf))
    as (x & Hx & Hb & _ & Hdim & _); [by vm_compute|].
  exists x. by rewrite Hb, Hdim.
Defined.

(** ** The midpoint and the corners *)

Module AxisFacts.

Import F64Facts npFacts BoxFacts.

(** Assigning the masked entries of [v] at the positions of the mask. *)
Lemma assign_where {A} (m : list bool) :
  forall pre a v : list A,
    length m = length a -> length m = length v ->
    np.assign (pre ++ a) (np.where_from (length pre) m) (compress m v)
    = Ok (pre ++ zip_with (fun (c : bool) p => if c then p.1 else p.2)
                          m (zip v a)).
Proof.
  induction m as [|b m IH]; intros pre [|y a] [|x v] Ha Hv; try done.
  simpl in Ha, Hv.
  destruct b; simpl.
  - unfold np.setitem.
    rewrite index_nat by (rewrite length_app; simpl; lia). simpl.
    rewrite insert_app_r_alt, Nat.sub_diag by lia. simpl.
    specialize (IH (pre ++ [x]) a v).
    rewrite <- !app_assoc, length_app, Nat.add_1_r in IH. simpl in IH.
    rewrite IH by lia. done.
  - specialize (IH (pre ++ [y]) a v).
    rewrite <- !app_assoc, length_app, Nat.add_1_r in IH. simpl in IH.
    rewrite IH by lia. done.
Qed.

Lemma midpoint_entries :
  forall b e : list float64,
    zip_with (fun (c : bool) p => if c then p.1 else p.2) (zip_with eq b e)
             (zip b ((fun x => div x two) <$> zip_with add e b))
    = zip_with axis_midpoint b e.
Proof.
  induction b as [|x b IH]; intros [|y e]; try done.
  simpl. by rewrite IH.
Qed.

(** A loop over the positions of a mask that sets the entry [h j] at
    each position [j]. *)
Lemma for_axes_where {A} (body : Z -> list A -> result (list A))
    (h : nat -> A) (n : nat) :
  (forall (j : nat) (vecs : list A),
      (j < n)%nat -> length vecs = n ->
      body (Z.of_nat j) vecs = Ok (<[j := h j]> vecs)) ->
  forall (m : list bool) (k : nat) (vecs : list A),
    (k + length m)%nat = n -> length vecs = n ->
    exists vecs',
      for_axes body (np.where_from k m) vecs = Ok vecs' /\
      length vecs' = n /\
      forall j : nat,
        vecs' !! j
        = if decide ((k <= j)%nat /\ m !! (j - k)%nat = Some true)
          then Some (h j) else vecs !! j.
Proof.
  intros Hbody. induction m as [|b m IH]; intros k vecs Hk Hl.
  - exists vecs. split; [done|]. split; [done|]. intros j.
    rewrite decide_False; [done|]. by intros [_ ?].
  - simpl in Hk.
    assert (forall j : nat, (k < j)%nat ->
              (b :: m) !! (j - k)%nat = m !! (j - S k)%nat) as Hshift.
    { intros j Hj. replace (j - k)%nat with (S (j - S k)) by lia. done. }
    destruct b; simpl.
    + rewrite Hbody by lia. simpl.
      destruct (IH (S k) (<[k := h k]> vecs)) as (vecs' & -> & Hl' & Hj);
        [lia|by rewrite length_insert|].
      exists vecs'. split; [done|]. split; [done|]. intros j. rewrite Hj.
      destruct (decide (j = k)) as [->|Hne].
      * rewrite decide_False by lia. rewrite Nat.sub_diag. simpl.
        rewrite decide_True by (split; [lia|done]).
        apply list_lookup_insert_eq. lia.
      * rewrite list_lookup_insert_ne by done.
        destruct (decide (k < j)%nat) as [Hlt|Hge].
        -- rewrite Hshift by done.
           case_decide as H1; case_decide as H2; try done; exfalso;
             [apply H2|apply H1]; (split; [lia|tauto]).
        -- rewrite !decide_False by lia. done.
    + destruct (IH (S k) vecs) as (vecs' & -> & Hl' & Hj); [lia|done|].
      exists vecs'. split; [done|]. split; [done|]. intros j. rewrite Hj.
      destruct (decide (k < j)%nat) as [Hlt|Hge].
      * rewrite Hshift by done.
        case_decide as H1; case_decide as H2; try done; exfalso;
             [apply H2|apply H1]; (split; [lia|tauto]).
      * rewrite decide_False by lia.
        destruct (decide (j = k)) as [->|Hne].
        -- rewrite decide_False; [done|]. rewrite Nat.sub_diag. by intros [_ ?].
        -- rewrite decide_False by lia. done.
Qed.

(** The list [corners] hands to the grid. *)
Lemma minmax_vecs_ok (self : IntervalProd) :
  constructed self ->
  minmax_vecs self = Ok (zip_with axis_corners (_begin self) (_end self)).
Proof.
  intros H. destruct (constructed_inv _ H) as (Hle & Hdeg & Hnd).
  pose proof (Forall2_length _ _ _ Hle) as Hlen.
  unfold minmax_vecs. cbv zeta. rewrite Hdeg, Hnd. unfold np.where_.
  set (b := _begin self) in *. set (e := _end self) in *.
  assert (dim self = length b) as -> by done.
  destruct (for_axes_where
              (fun axis vecs =>
                 x ← np.getitem b axis; np.setitem vecs axis (single x))
              (fun j => single (default zero (b !! j))) (length b))
    with (m := zip_with eq b e) (k := 0%nat)
         (vecs := replicate (length b) placeholder)
    as (v1 & -> & Hl1 & Hv1).
  { intros j vecs Hj Hl. destruct (lookup_lt_is_Some_2 b j Hj) as [x Hx].
    rewrite (getitem_nat _ _ _ Hx). simpl. unfold np.setitem.
    rewrite index_nat by lia. simpl. by rewrite Hx. }
  { rewrite length_zip_with. simpl. lia. }
  { apply length_replicate. }
  simpl.
  destruct (for_axes_where
              (fun axis vecs =>
                 x ← np.getitem b axis; y ← np.getitem e axis;
                 np.setitem vecs axis (pair_of x y))
              (fun j => pair_of (default zero (b !! j))
                                (default zero (e !! j))) (length b))
    with (m := zip_with ne b e) (k := 0%nat) (vecs := v1)
    as (v2 & -> & Hl2 & Hv2).
  { intros j vecs Hj Hl. destruct (lookup_lt_is_Some_2 b j Hj) as [x Hx].
    destruct (lookup_lt_is_Some_2 e j) as [y Hy]; [lia|].
    rewrite (getitem_nat _ _ _ Hx), (getitem_nat _ _ _ Hy). simpl.
    unfold np.setitem. rewrite index_nat by lia. simpl. by rewrite Hx, Hy. }
  { rewrite length_zip_with. simpl. lia. }
  { done. }
  f_equal. apply list_eq. intros j. rewrite Hv2, Hv1, Nat.sub_0_r.
  rewrite !lookup_zip_with.
  destruct (b !! j) as [x|] eqn:Hx; cbn [mbind option_bind default].
  - destruct (lookup_lt_is_Some_2 e j) as [y Hy].
    { apply lookup_lt_Some in Hx. lia. }
    rewrite Hy. cbn [mbind option_bind default id].
    unfold axis_corners, ne, eq.
    destruct (SFeqb x y) eqn:E; cbn [negb].
    + rewrite decide_False by (by intros [_ ?]).
      by rewrite decide_True by (split; [lia|done]).
    + by rewrite decide_True by (split; [lia|done]).
  - rewrite !decide_False by (by intros [_ ?]).
    apply lookup_replicate_None. apply lookup_ge_None in Hx. lia.
Qed.

Lemma count_pairs :
  forall b e : list float64,
    length (filter (fun v => is_pair v = true) (zip_with axis_corners b e))
    = length (compress (zip_with ne b e) (zip_with ne b e)).
Proof.
  induction b as [|x b IH]; intros [|y e]; try done.
  assert (is_pair (axis_corners x y) = ne x y) as Hp.
  { unfold axis_corners, ne, eq. by destruct (SFeqb x y). }
  cbn [zip_with compress]. rewrite filter_cons, length_app, <- IH.
  case_decide as Hd; rewrite Hp in Hd.
  - by rewrite Hd.
  - by destruct (ne x y).
Qed.

End AxisFacts.

(** X5. [midpoint] of a box never raises.  Its entry on an axis with
    [begin[i] == end[i]] is [begin[i]] itself, not the halved sum (which
    overflows for large bounds), and [(end[i] + begin[i]) / 2] on every
    other axis; a box of one axis gives the bare number, any other box an
    array of [dim] numbers. *)
Theorem midpoint_per_axis (self : IntervalProd) :
  constructed self ->
  exists c,
    midpoint self = Ok c /\
    np.atleast_1d c = zip_with axis_midpoint (_begin self) (_end self) /\
    length (np.atleast_1d c) = dim self /\
    (is_scalar c <-> dim self = 1%nat).
Proof.
  intros H. destruct (BoxFacts.constructed_inv _ H) as (Hle & Hdeg & _).
  pose proof (Forall2_length _ _ _ Hle) as Hlen.
  unfold midpoint. rewrite Hdeg.
  rewrite npFacts.take_where by (rewrite length_zip_with; lia). simpl.
  pose proof (AxisFacts.assign_where (zip_with eq (_begin self) (_end self)) []
                ((fun x => div x two) <$> zip_with add (_end self) (_begin self))
                (_begin self)) as Hput.
  simpl in Hput. unfold np.where_. rewrite Hput
    by (rewrite ?length_fmap, !length_zip_with; lia).
  simpl. rewrite AxisFacts.midpoint_entries.
  assert (length (zip_with axis_midpoint (_begin self) (_end self)) = dim self)
    as Hl by (rewrite length_zip_with; unfold dim; lia).
  case_decide as Hd.
  - destruct (zip_with axis_midpoint (_begin self) (_end self))
      as [|x [|??]] eqn:E; simpl in Hl; try lia.
    exists (np.scalar x). simpl. by rewrite Hd.
  - eexists. split; [done|]. simpl. split; [done|]. split; [done|].
    split; [done|]. intros ?. done.
Qed.

Lemma midpoint_per_axis_witness :
  constructed flat_box /\
  midpoint flat_box
  = Ok (np.array [div (add (frac (-1) 2) (of_int (-1))) two;
                  div (add (of_int 10) (frac 5 2)) two; of_int 0]).
Proof.
  pose proof (proj1 example_boxes_constructed) as Hc. split; [done|].
  destruct (midpoint_per_axis flat_box Hc) as (c & -> & Hv & _ & Hs).
  destruct c as [x|l]; [by destruct (proj1 Hs I)|].
  simpl in Hv. by rewrite Hv.
Defined.

(** X6. [corners] refuses an [order] other than ['C'] and ['F'] before
    anything else.  Otherwise the list it hands to the grid has, for
    every axis in order, the single bound of a degenerate axis or the
    pair of bounds of another: none of the initial zeros is left, there
    are [dim] vectors, and [truedim] of them are pairs. *)
Theorem corners_vectors (Points : Type)
    (TensorGrid_points : list coord_vector -> order_arg -> result Points)
    (self : IntervalProd) (order : order_arg) :
  constructed self ->
  let vecs := zip_with axis_corners (_begin self) (_end self) in
  corners Points TensorGrid_points self order
  = match order with
    | order_other => raised InvalidOption
    | _ => ran (TensorGrid_points vecs order)
    end /\
  (placeholder ∉ vecs) /\ length vecs = dim self /\
  length (filter (fun v => is_pair v = true) vecs) = truedim self.
Proof.
  intros H vecs.
  destruct (BoxFacts.constructed_inv _ H) as (Hle & _).
  pose proof (Forall2_length _ _ _ Hle) as Hlen.
  split; [|split; [|split]].
  - unfold corners. rewrite (AxisFacts.minmax_vecs_ok _ H). by destruct order.
  - unfold vecs. intros (x & y & Hxy & _)%elem_of_zip_with.
    unfold axis_corners in Hxy. by destruct (eq x y).
  - unfold vecs. rewrite length_zip_with. unfold dim. lia.
  - unfold vecs. rewrite AxisFacts.count_pairs.
    by rewrite <- BoxFacts.truedim_count.
Qed.

Lemma corners_vectors_witness :
  constructed slab_box /\
  corners unit (fun _ _ => Ok tt) slab_box order_F = ran (Ok tt) /\
  zip_with axis_corners (_begin slab_box) (_end slab_box)
  = [pair_of (of_int (-1)) (frac (-1) 2); single (of_int 0);
     pair_of (of_int 2) (of_int 3)].
Proof.
  pose proof (proj1 more_boxes_constructed) as Hc. split; [done|].
  split; [|done].
  exact (proj1 (corners_vectors unit (fun _ _ => Ok tt) slab_box order_F Hc)).
Defined.

(** ** Equality, again *)

Module SymmetryFacts.

Import F64Facts npFacts BoxFacts EqualsFacts.

(** Rounding does not look at the sign. *)
Lemma abs_round_aux (s : bool) (mx ex : Z) (lx : location) :
  abs (binary_round_aux prec emax s mx ex lx)
  = abs (binary_round_aux prec emax false mx ex lx).
Proof.
  unfold binary_round_aux.
  destruct (shr_fexp prec emax mx ex lx) as [m1 e1].
  destruct (shr_fexp prec emax _ e1 loc_Exact) as [m2 e2].
  destruct (shr_m m2); try done.
  by destruct (e2 <=? emax - prec).
Qed.

Lemma abs_round (s : bool) (m : positive) (e : Z) :
  abs (binary_round prec emax s m e) = abs (binary_round prec emax false m e).
Proof.
  unfold binary_round. destruct (shl_align _ _ _) as [mz ez].
  apply abs_round_aux.
Qed.

Lemma abs_normalize_opp (z e : Z) :
  abs (binary_normalize prec emax (- z) e false)
  = abs (binary_normalize prec emax z e false).
Proof.
  destruct z as [|p|p]; simpl; [done|apply abs_round|].
  symmetry. apply abs_round.
Qed.

(** [|x - y|] is [|y - x|], for any two values. *)
Lemma abs_sub_swap (x y : float64) : abs (sub x y) = abs (sub y x).
Proof.
  destruct x as [sx|sx| |sx mx ex], y as [sy|sy| |sy my ey];
    try (by destruct sx, sy); try done.
  unfold sub, SFsub. rewrite (Z.min_comm ey ex).
  set (a := cond_Zopp sx _). set (b := cond_Zopp sy _).
  replace (b - a) with (- (a - b)) by lia.
  symmetry. apply abs_normalize_opp.
Qed.

Lemma within_swap (tol x y : float64) : within tol x y = within tol y x.
Proof.
  unfold within. by rewrite andb_comm, abs_sub_swap, eq_swap.
Qed.

Lemma all_isclose_swap (tol : float64) (a : list float64) :
  forall b : list float64,
    np.all ((fun p => np.isclose zero tol p.1 p.2) <$> zip a b)
    = np.all ((fun p => np.isclose zero tol p.1 p.2) <$> zip b a).
Proof.
  unfold np.all. induction a as [|x a IH]; intros [|y b]; try done.
  cbn [zip_with fmap list_fmap forallb fst snd id].
  by rewrite !isclose_within, within_swap, IH.
Qed.

Lemma all_isclose_one (tol x : float64) (l : list float64) :
  np.all ((fun p => np.isclose zero tol p.1 p.2) <$> ((fun y => (x, y)) <$> l))
  = np.all ((fun p => np.isclose zero tol p.1 p.2) <$> ((fun y => (y, x)) <$> l)).
Proof.
  unfold np.all. induction l as [|y l IH]; [done|].
  cbn [fmap list_fmap forallb fst snd id].
  rewrite !isclose_within, within_swap. f_equal. exact IH.
Qed.

(** Without relative tolerance, [np.allclose] does not depend on the
    order of its two arrays. *)
Lemma allclose_swap (a b : list float64) (tol : float64) :
  np.allclose a b zero tol = np.allclose b a zero tol.
Proof.
  unfold np.allclose, np.broadcast.
  destruct (decide (length a = length b)) as [Hl|Hl].
  - rewrite (decide_True (P := length b = length a)) by done. simpl.
    by rewrite all_isclose_swap.
  - rewrite (decide_False (P := length b = length a)) by done.
    destruct a as [|a0 [|a1 a]], b as [|b0 [|b1 b]]; try done.
    + exact (f_equal Ok (all_isclose_one tol a0 (b0 :: b1 :: b))).
    + exact (f_equal Ok (eq_sym (all_isclose_one tol b0 (a0 :: a1 :: a)))).
Qed.

Lemma within_self (tol x : float64) :
  isnan x = false -> le zero tol = true -> within tol x x = true.
Proof.
  intros Hx Htol. unfold within. destruct (isfinite x) eqn:E; simpl.
  - by rewrite sub_self.
  - by apply eq_self.
Qed.

Lemma within_self_finite (tol x : float64) :
  isfinite x = true -> within tol x x = le zero tol.
Proof.
  intros Hx. unfold within. rewrite Hx. simpl. by rewrite sub_self.
Qed.

Lemma Forall2_diag {A} (P : A -> A -> Prop) (l : list A) :
  Forall2 P l l <-> Forall (fun x => P x x) l.
Proof.
  induction l as [|x l IH]; [by split; constructor|]. split.
  - intros H. inversion H; subst. constructor; [done|by apply IH].
  - intros H. inversion H; subst. constructor; [done|by apply IH].
Qed.

Lemma Forall2_within_zero (a : list float64) :
  forall a' : list float64,
    Forall (fun x => valid x = true) a ->
    Forall (fun x => valid x = true) a' ->
    Forall2 (fun x y => within zero x y = true) a a'
    <-> Forall2 (fun x y => eq x y = true) a a'.
Proof.
  induction a as [|x a IH]; intros [|y a'] Ha Ha';
    try (split; intros HF; inversion HF; fail).
  - split; constructor.
  - inversion Ha as [|? ? Hx Hrest]; inversion Ha' as [|? ? Hy Hrest']; subst.
    split; intros HF; inversion HF; subst; constructor;
      try (by apply (IH a')).
    + by rewrite <- within_zero.
    + by rewrite within_zero.
Qed.

End SymmetryFacts.

(** *** With numpy from 2.0 on *)

Module Numpy2Facts.

Import F64Facts npFacts BoxFacts EqualsFacts SymmetryFacts.

(** Without relative tolerance and for a tolerance other than
    +infinity, the later [np.isclose] reads the same in both
    directions. *)
Lemma isclose2_swap (tol x y : float64) :
  tol <> inf -> np2.isclose zero tol x y = np2.isclose zero tol y x.
Proof.
  intros Htol. unfold np2.isclose.
  destruct (isfinite x) eqn:Ex, (isfinite y) eqn:Ey.
  - rewrite !le_atol_only, !andb_true_r by done.
    by rewrite abs_sub_swap, eq_swap.
  - rewrite (le_atol_only _ tol x), !andb_false_r, andb_true_r by done.
    rewrite (eq_swap y x).
    assert (le (abs (sub y x)) tol = false) as ->; [|done].
    destruct y as [sy|sy| |sy my ey]; try done.
    destruct x as [sx|sx| |sx mx ex]; try done;
      destruct tol as [st|[]| |st mt et]; done.
  - rewrite (le_atol_only _ tol y), !andb_false_r, andb_true_r by done.
    rewrite (eq_swap y x).
    assert (le (abs (sub x y)) tol = false) as ->; [|done].
    destruct x as [sx|sx| |sx mx ex]; try (by destruct y).
    destruct y as [sy|sy| |sy my ey]; try done;
      destruct tol as [st|[]| |st mt et]; done.
  - by rewrite !andb_false_r, eq_swap.
Qed.

Lemma all_symmetric (f : float64 -> float64 -> bool) (a : list float64) :
  (forall x y, f x y = f y x) ->
  forall b : list float64,
    np.all ((fun p => f p.1 p.2) <$> zip a b)
    = np.all ((fun p => f p.1 p.2) <$> zip b a).
Proof.
  intros Hf. unfold np.all. induction a as [|x a IH]; intros [|y b]; try done.
  cbn [zip_with fmap list_fmap forallb fst snd id].
  by rewrite (Hf x y), IH.
Qed.

Lemma all_symmetric_one (f : float64 -> float64 -> bool) (x : float64)
    (l : list float64) :
  (forall x y, f x y = f y x) ->
  np.all ((fun p => f p.1 p.2) <$> ((fun y => (x, y)) <$> l))
  = np.all ((fun p => f p.1 p.2) <$> ((fun y => (y, x)) <$> l)).
Proof.
  intros Hf. unfold np.all. induction l as [|y l IH]; [done|].
  cbn [fmap list_fmap forallb fst snd id].
  rewrite (Hf x y). f_equal. exact IH.
Qed.

Lemma allclose2_swap (a b : list float64) (tol : float64) :
  tol <> inf -> np2.allclose a b zero tol = np2.allclose b a zero tol.
Proof.
  intros Htol.
  pose proof (fun x y => isclose2_swap tol x y Htol) as Hf.
  unfold np2.allclose, np.broadcast.
  destruct (decide (length a = length b)) as [Hl|Hl].
  - rewrite (decide_True (P := length b = length a)) by done. simpl.
    by rewrite (all_symmetric _ a Hf).
  - rewrite (decide_False (P := length b = length a)) by done.
    destruct a as [|a0 [|a1 a]], b as [|b0 [|b1 b]]; try done.
    + exact (f_equal Ok (all_symmetric_one _ a0 (b0 :: b1 :: b) Hf)).
    + exact (f_equal Ok (eq_sym (all_symmetric_one _ b0 (a0 :: a1 :: a) Hf))).
Qed.

(** A number is close to itself under any tolerance: the term
    [x == y]. *)
Lemma allclose2_same (a : list float64) (tol : float64) :
  Forall (fun v => isnan v = false) a -> np2.allclose a a zero tol = Ok true.
Proof.
  intros Ha. unfold np2.allclose, np.broadcast. rewrite decide_True by done.
  simpl. f_equal. unfold np.all.
  induction Ha as [|v l Hv _ IH]; [done|].
  cbn [zip_with fmap list_fmap forallb fst snd id].
  apply andb_true_intro. split; [|exact IH].
  unfold np2.isclose. rewrite (eq_self v Hv). apply orb_true_r.
Qed.

End Numpy2Facts.

(** X7. With numpy before 2.0, [equals] does not depend on which of two
    boxes is the receiver: with [rtol=0] the test of [np.allclose] is
    [|x - y| <= tol] on finite numbers, which reads the same in both
    directions, and broadcasting and its error depend on the two lengths
    only.  With numpy from 2.0 on this holds for every [tol] but
    +infinity; at [tol=inf] an infinite bound of the receiver is close
    to a finite bound of the other box, and not the other way round. *)
Theorem equals_symmetric (self other : IntervalProd) (tol : float64) :
  equals self (is_IntervalProd other) tol
  = equals other (is_IntervalProd self) tol /\
  (tol <> inf ->
   equals_np2 self (is_IntervalProd other) tol
   = equals_np2 other (is_IntervalProd self) tol) /\
  (exists a b,
      constructed a /\ constructed b /\
      equals_np2 a (is_IntervalProd b) inf = Ok true /\
      equals_np2 b (is_IntervalProd a) inf = Ok false).
Proof.
  split; [|split].
  - unfold equals.
    by rewrite (SymmetryFacts.allclose_swap (_begin self)),
               (SymmetryFacts.allclose_swap (_end self)).
  - intros Htol. unfold equals_np2.
    by rewrite (Numpy2Facts.allclose2_swap (_begin self)),
               (Numpy2Facts.allclose2_swap (_end self)).
  - exists {| _begin := [zero]; _end := [inf]; _ideg := []; _inondeg := [0] |},
           {| _begin := [zero]; _end := [one]; _ideg := []; _inondeg := [0] |}.
    split; [by exists (np.array [zero]), (np.array [inf])|].
    split; [by exists (np.array [zero]), (np.array [one])|].
    split; reflexivity.
Qed.

Lemma equals_symmetric_witness :
  frac 1 2 <> inf /\
  equals_np2 slab_box (is_IntervalProd solid_box) (frac 1 2)
  = equals_np2 solid_box (is_IntervalProd slab_box) (frac 1 2).
Proof.
  assert (frac 1 2 <> inf) as Htol by done.
  split; [done|].
  exact (proj1 (proj2 (equals_symmetric slab_box solid_box (frac 1 2))) Htol).
Defined.

(** X8. A box equals itself under every tolerance [tol >= 0], with
    either numpy.  Under a negative tolerance, or a NaN, numpy from 2.0
    on still answers [True] (its term [x == y]), while with numpy before
    2.0 a box with a finite bound does not equal itself. *)
Theorem equals_reflexive (self : IntervalProd) (tol : float64) :
  constructed self ->
  (le zero tol = true -> equals self (is_IntervalProd self) tol = Ok true) /\
  (le zero tol = false ->
   (exists x, x ∈ _begin self ++ _end self /\ isfinite x = true) ->
   equals self (is_IntervalProd self) tol = Ok false) /\
  equals_np2 self (is_IntervalProd self) tol = Ok true.
Proof.
  intros H.
  destruct (EqualsFacts.equals_same_dimension self self tol H H eq_refl)
    as (b & Hb & Hiff).
  destruct (BoxFacts.constructed_inv _ H) as (Hle & _).
  destruct (InsertFacts.le_numbers_l _ _ Hle) as [Hnb Hne].
  rewrite Hb. split; [|split].
  - intros Htol. f_equal. apply Hiff.
    rewrite !SymmetryFacts.Forall2_diag. split.
    + eapply Forall_impl; [exact Hnb|]. intros x Hx. simpl in Hx.
      by apply SymmetryFacts.within_self.
    + eapply Forall_impl; [exact Hne|]. intros x Hx. simpl in Hx.
      by apply SymmetryFacts.within_self.
  - intros Htol (x & Hx & Hfin). f_equal. destruct b; [|done].
    destruct (proj1 Hiff eq_refl) as [H1 H2].
    rewrite SymmetryFacts.Forall2_diag in H1, H2.
    rewrite Forall_forall in H1, H2.
    apply elem_of_app in Hx as [Hx|Hx].
    + specialize (H1 x Hx). simpl in H1.
      rewrite SymmetryFacts.within_self_finite in H1 by done. congruence.
    + specialize (H2 x Hx). simpl in H2.
      rewrite SymmetryFacts.within_self_finite in H2 by done. congruence.
  - unfold equals_np2.
    by rewrite !Numpy2Facts.allclose2_same.
Qed.

Lemma equals_reflexive_witness :
  constructed flat_box /\
  equals flat_box (is_IntervalProd flat_box) (frac 1 2) = Ok true /\
  equals flat_box (is_IntervalProd flat_box) (of_int (-1)) = Ok false /\
  equals_np2 flat_box (is_IntervalProd flat_box) (of_int (-1)) = Ok true.
Proof.
  pose proof (proj1 example_boxes_constructed) as Hc. split; [done|].
  split; [|split].
  - by apply (proj1 (equals_reflexive flat_box (frac 1 2) Hc)).
  - apply (proj1 (proj2 (equals_reflexive flat_box (of_int (-1)) Hc)));
      [done|].
    exists (of_int 10). split; [|done]. simpl. set_solver.
  - exact (proj2 (proj2 (equals_reflexive flat_box (of_int (-1)) Hc))).
Defined.

(** X9. At [tol=0], [equals] on two boxes of one dimension is the
    comparison of the bounds with [==]: it returns, and returns [True]
    exactly when [begin[i] == other.begin[i]] and [end[i] == other.end[i]]
    on every axis.  The bounds are binary64 values. *)
Theorem equals_exact (self other : IntervalProd) :
  constructed self -> constructed other -> dim self = dim other ->
  binary64 self -> binary64 other ->
  exists b : bool,
    equals self (is_IntervalProd other) zero = Ok b /\
    (b = true <->
     Forall2 (fun x y => eq x y = true) (_begin self) (_begin other) /\
     Forall2 (fun x y => eq x y = true) (_end self) (_end other)).
Proof.
  intros Hs Ho Hdim Hvs Hvo.
  destruct (EqualsFacts.equals_same_dimension self other zero Hs Ho Hdim)
    as (b & Hb & Hiff).
  exists b. split; [done|]. rewrite Hiff.
  destruct Hvs as [Hvb Hve]. destruct Hvo as [Hvb' Hve'].
  by rewrite !SymmetryFacts.Forall2_within_zero.
Qed.

Lemma equals_exact_witness :
  constructed slab_box /\ constructed solid_box /\
  binary64 slab_box /\ binary64 solid_box /\
  equals slab_box (is_IntervalProd solid_box) zero = Ok false.
Proof.
  pose proof (proj1 more_boxes_constructed) as H1.
  pose proof (proj1 (proj2 example_boxes_constructed)) as H2.
  assert (binary64 slab_box) as H3 by (split; repeat constructor).
  assert (binary64 solid_box) as H4 by (split; repeat constructor).
  split; [done|]. split; [done|]. split; [done|]. split; [done|].
  destruct (equals_exact slab_box solid_box H1 H2 eq_refl H3 H4)
    as (b & -> & Hiff).
  destruct b; [|done]. destruct (proj1 Hiff eq_refl) as [_ He].
  inversion He as [|? ? ? ? _ He']. inversion He' as [|? ? ? ? Habs _].
  discriminate Habs.
Defined.

(** ** The boxes of one, two and three axes *)

Module VariantFacts.

Lemma sized_init (n : nat) (r : result IntervalProd) (self : IntervalProd) :
  (self0 ← r;
   if decide (dim self0 ≠ n) then Raise DimensionMismatch else Ok self0)
  = Ok self
  <-> r = Ok self /\ dim self = n.
Proof.
  destruct r as [s|e]; simpl; [|split; [done|by intros [? _]]].
  case_decide as Hd.
  - split; [done|]. by intros [[= ->] ?].
  - split.
    + intros [= ->]. split; [done|lia].
    + by intros [[= ->] _].
Qed.

End VariantFacts.

(** X10. [Interval], [Rectangle] and [Cube] accept what the constructor
    of [IntervalProd] accepts with 1, 2 and 3 axes, and return the same
    box.  The ordering of the bounds is checked before their number: a
    pair of vectors of a wrong length with [begin[i] > end[i]] somewhere
    is reported as unordered.  No pair of arguments is accepted by two
    of the three. *)
Theorem variants_check_dimension (begin end_ : np.array_like float64) :
  (forall self,
      (Interval_init begin end_ = Ok self
       <-> IntervalProd_init begin end_ = Ok self /\ dim self = 1%nat) /\
      (Rectangle_init begin end_ = Ok self
       <-> IntervalProd_init begin end_ = Ok self /\ dim self = 2%nat) /\
      (Cube_init begin end_ = Ok self
       <-> IntervalProd_init begin end_ = Ok self /\ dim self = 3%nat)) /\
  (IntervalProd_init begin end_ = Raise OrderingViolation ->
   Interval_init begin end_ = Raise OrderingViolation /\
   Rectangle_init begin end_ = Raise OrderingViolation /\
   Cube_init begin end_ = Raise OrderingViolation) /\
  (forall x y,
      (Interval_init begin end_ = Ok x -> Rectangle_init begin end_ <> Ok y) /\
      (Interval_init begin end_ = Ok x -> Cube_init begin end_ <> Ok y) /\
      (Rectangle_init begin end_ = Ok x -> Cube_init begin end_ <> Ok y)).
Proof.
  split; [|split].
  - intros self. split; [|split]; apply VariantFacts.sized_init.
  - unfold Interval_init, Rectangle_init, Cube_init. by intros ->.
  - intros x y. split; [|split]; intros Hx Hy.
    all: apply VariantFacts.sized_init in Hx as [Hx Hdx].
    all: apply VariantFacts.sized_init in Hy as [Hy Hdy].
    all: rewrite Hx in Hy; injection Hy as ->; lia.
Qed.

(** ** Collapsing, again *)

Module DegenerateFacts.

Import F64Facts npFacts BoxFacts CollapseFacts.

Lemma last_occurrence (idx : list Z) (j : Z) :
  j ∈ idx ->
  exists k : nat,
    idx !! k = Some j /\ forall k' : nat, (k < k')%nat -> idx !! k' <> Some j.
Proof.
  induction idx as [|i idx IH]; intros Hj; [by apply elem_of_nil in Hj|].
  destruct (decide (j ∈ idx)) as [Hin|Hout].
  - destruct (IH Hin) as (k & Hk & Hlast). exists (S k). split; [done|].
    intros [|k'] Hk'; [lia|]. simpl. apply Hlast. lia.
  - apply elem_of_cons in Hj as [->|?]; [|done]. exists 0%nat.
    split; [done|]. intros [|k'] Hk'; [lia|]. simpl. intros Hc.
    apply Hout. by eapply list_elem_of_lookup_2.
Qed.

(** What a call of [collapse] that returned went through. *)
Lemma collapse_inv (self x : IntervalProd) (idx : list Z)
    (vals : list float64) :
  constructed self ->
  collapse self (np.array idx) (np.array vals) = Ok x ->
  length idx = length vals /\
  Forall (fun j => 0 <= j < Z.of_nat (dim self)) idx /\
  exists b_new e_new,
    np.assign (_begin self) idx vals = Ok b_new /\
    np.assign (_end self) idx vals = Ok e_new /\
    IntervalProd_init (np.array b_new) (np.array e_new) = Ok x.
Proof.
  intros Hc H.
  destruct (decide (length idx = length vals)) as [Heq|Hne].
  2: { unfold collapse in H. simpl in H. by rewrite decide_True in H. }
  destruct (decide (Forall (fun j => 0 <= j < Z.of_nat (dim self)) idx))
    as [Hin|Hout].
  2: { unfold collapse in H. simpl in H.
       rewrite decide_False in H by (by intros ?).
       destruct (_ || _) eqn:E in H; [done|]. by apply range_check in E. }
  split; [done|]. split; [done|].
  destruct (collapse_checked self idx vals Hc Heq Hin)
    as (lo & hi & _ & _ & Hcc).
  rewrite Hcc in H. destruct (_ || _); [done|].
  ok_inv H. by eexists _, _.
Qed.

End DegenerateFacts.

(** X11. Whenever [collapse] returns a box, every listed axis is a
    degenerate axis of it, the axes that were degenerate still are, and
    the dimension is the same: [truedim] never grows. *)
Theorem collapse_degenerates (self x : IntervalProd) (indcs : np.array_like Z)
    (values : np.array_like float64) :
  constructed self -> collapse self indcs values = Ok x ->
  dim x = dim self /\
  (forall j, j ∈ np.atleast_1d indcs -> j ∈ _ideg x) /\
  (forall j, j ∈ _ideg self -> j ∈ _ideg x) /\
  (truedim x <= truedim self)%nat.
Proof.
  intros Hc H. set (idx := np.atleast_1d indcs).
  set (vals := np.atleast_1d values).
  assert (collapse self (np.array idx) (np.array vals) = Ok x) as H' by done.
  destruct (DegenerateFacts.collapse_inv self x idx vals Hc H')
    as (Heq & Hin & b_new & e_new & Hb & He & Hinit).
  pose proof (BoxFacts.constructed_lengths _ Hc) as Hlen.
  destruct (BoxFacts.constructed_inv _ Hc) as (_ & Hdeg & Hnd).
  destruct (BoxFacts.init_inv _ _ _ Hinit) as (Hbx & Hex & Hle & Hdegx & Hndx).
  simpl in Hbx, Hex.
  assert (Forall (fun j => 0 <= j < Z.of_nat (length (_end self))) idx)
    as Hin' by (by rewrite Hlen).
  destruct (CollapseFacts.put_spec idx vals _ _ Hin Hb) as (Hlb & Hob & Hib).
  destruct (CollapseFacts.put_spec idx vals _ _ Hin' He) as (Hl' & Hoe & Hie).
  assert (forall j, j ∈ idx ->
            exists v, j = Z.of_nat (Z.to_nat j) /\
                      _begin x !! Z.to_nat j = Some v /\
                      _end x !! Z.to_nat j = Some v /\ eq v v = true)
    as Hlisted.
  { intros j Hj.
    destruct (DegenerateFacts.last_occurrence idx j Hj) as (k & Hk & Hlast).
    destruct (lookup_lt_is_Some_2 vals k) as [v Hv].
    { rewrite <- Heq. by eapply lookup_lt_Some. }
    rewrite Forall_forall in Hin. specialize (Hin j Hj).
    exists v. split; [lia|].
    pose proof (Hib k j v Hk Hv Hlast) as Hbv.
    pose proof (Hie k j v Hk Hv Hlast) as Hev.
    rewrite Hbx, Hex. split; [done|]. split; [done|].
    rewrite <- Hbx in Hbv. rewrite <- Hex in Hev.
    pose proof (Forall2_lookup_lr _ _ _ _ _ _ Hle Hbv Hev) as Hvv.
    apply F64Facts.eq_self. by apply F64Facts.le_numbers in Hvv as [? _]. }
  assert (forall j, j ∈ idx -> j ∈ _ideg x) as H1.
  { intros j Hj. destruct (Hlisted j Hj) as (v & Hjn & Hbv & Hev & Hvv).
    rewrite Hdegx. apply MoreFacts.elem_of_where. exists (Z.to_nat j).
    split; [done|]. rewrite lookup_zip_with, Hbv. simpl. rewrite Hev. simpl.
    by rewrite Hvv. }
  assert (forall i : nat, Z.of_nat i ∉ idx ->
            zip_with eq (_begin x) (_end x) !! i
            = zip_with eq (_begin self) (_end self) !! i) as Hsame.
  { intros i Hi. rewrite !lookup_zip_with, Hbx, Hex.
    by rewrite (Hob i Hi), (Hoe i Hi). }
  assert (forall j, j ∈ _ideg self -> j ∈ _ideg x) as H2.
  { intros j Hj. destruct (decide (j ∈ idx)) as [?|Hout]; [by apply H1|].
    rewrite Hdeg in Hj. rewrite Hdegx.
    apply MoreFacts.elem_of_where in Hj as (i & -> & Hi).
    apply MoreFacts.elem_of_where. exists i. split; [done|].
    by rewrite Hsame. }
  split; [unfold dim; by rewrite Hbx|]. split; [done|]. split; [done|].
  unfold truedim. apply submseteq_length, NoDup_submseteq.
  { rewrite Hndx. apply MoreFacts.NoDup_where_from. }
  intros j Hj. rewrite Hndx in Hj. rewrite Hnd.
  apply MoreFacts.elem_of_where in Hj as (i & -> & Hi).
  apply MoreFacts.elem_of_where. exists i. split; [done|].
  rewrite MoreFacts.ne_mask in Hi |- *.
  rewrite list_lookup_fmap in Hi |- *.
  destruct (decide (Z.of_nat i ∈ idx)) as [Hl|Hout].
  - destruct (Hlisted _ Hl) as (v & _ & Hbv & Hev & Hvv).
    rewrite Nat2Z.id in Hbv, Hev.
    rewrite lookup_zip_with, Hbv in Hi. simpl in Hi. rewrite Hev in Hi.
    simpl in Hi. rewrite Hvv in Hi. done.
  - by rewrite <- Hsame.
Qed.

(** The docstring of [collapse]: the box [[-1, -0.5] x [0, 1] x [2, 3]]
    collapsed to 0 on axis 1 and to 2.5 on axis 2. *)
Lemma collapse_degenerates_witness :
  constructed solid_box /\
  exists x,
    collapse solid_box (np.array [1; 2]) (np.array [of_int 0; frac 5 2]) = Ok x /\
    1 ∈ _ideg x /\ 2 ∈ _ideg x /\ (truedim x <= 3)%nat.
Proof.
  pose proof (proj1 (proj2 example_boxes_constructed)) as Hc.
  split; [done|]. eexists. split; [reflexivity|].
  destruct (collapse_degenerates solid_box _ (np.array [1; 2])
              (np.array [of_int 0; frac 5 2]) Hc eq_refl)
    as (_ & Hl & _ & Ht).
  split; [apply Hl; simpl; set_solver|].
  split; [apply Hl; simpl; set_solver|exact Ht].
Defined.

(** ** Sampling at midpoints *)

(** X12. With [as_midp=True] the stride is [size[i] / num_nodes[i]], and
    sampling that passes the validation never divides by zero: on a
    degenerate axis, where the count is 1, the stride handed to the grid
    constructor is a zero (not the NaN of the sampling with [as_midp]
    false). *)
Theorem midpoint_sampling_stride (Grid : Type)
    (RegularGrid : list Z -> np.array_like float64 -> list float64 -> result Grid)
    (self : IntervalProd) (num_nodes : np.array_like Z) :
  constructed self ->
  let n := np.atleast_1d num_nodes in
  Forall is_int64 n -> ~ unbounded self -> length n = dim self ->
  (forall k, k ∈ n -> 0 < k) -> ~ oversampled self n ->
  exists center,
    midpoint self = Ok center /\
    uniform_sampling Grid RegularGrid self num_nodes true
    = RegularGrid n center (stride self n true) /\
    (forall (i : nat) (b e : float64) (k : Z),
        _begin self !! i = Some b -> _end self !! i = Some e ->
        n !! i = Some k ->
        stride self n true !! i = Some (div (sub e b) (of_int k))) /\
    (forall (i : nat) (b e : float64),
        _begin self !! i = Some b -> _end self !! i = Some e ->
        eq b e = true ->
        n !! i = Some 1 /\
        exists s, stride self n true !! i = Some (S754_zero s)).
Proof.
  intros H n H64 Hfin Hlen Hpos Hno.
  destruct (SamplingFacts.midpoint_ok _ H) as (center & Hc).
  exists center. split; [done|]. split.
  { change (uniform_sampling Grid RegularGrid self num_nodes true)
      with (uniform_sampling Grid RegularGrid self (np.array n) true).
    rewrite uniform_sampling_checked by done.
    destruct (np.any _) eqn:Eover; [by apply oversampled_any in Eover|].
    by rewrite Hc. }
  assert (forall (i : nat) (b e : float64) (k : Z),
            _begin self !! i = Some b -> _end self !! i = Some e ->
            n !! i = Some k ->
            stride self n true !! i = Some (div (sub e b) (of_int k))) as Hs.
  { intros i b e k Hb He Hk. unfold stride, size.
    rewrite !lookup_zip_with, He. simpl. rewrite Hb. simpl. by rewrite Hk. }
  split; [done|]. intros i b e Hb He Heq.
  destruct (lookup_lt_is_Some_2 n i) as [k Hk].
  { rewrite Hlen. by eapply lookup_lt_Some. }
  assert (k = 1) as ->.
  { assert (0 < k) by (apply Hpos; by eapply list_elem_of_lookup_2).
    destruct (Z.le_gt_cases k 1) as [?|Hgt]; [lia|].
    destruct Hno. by exists i, b, e, k. }
  split; [done|].
  destruct (bound_finite self i b e H Hfin Hb He) as [Hfb Hfe].
  destruct (RoundFacts.sub_eq b e Hfb Hfe Heq) as [s Hsub].
  exists s. pose proof (Hs i b e 1 Hb He Hk) as Hst. rewrite Hsub in Hst.
  etrans; [exact Hst|]. by destruct s.
Qed.

(** One node on the degenerate axis and two on the other of
    [IntervalProd([0, 1], [0, 2])]: the stride is [(0, 0.5)]. *)
Lemma midpoint_sampling_stride_witness :
  constructed wall_box /\ Forall is_int64 [1; 2] /\
  exists center,
    midpoint wall_box = Ok center /\
    uniform_sampling _ (fun n c s => Ok (n, c, s)) wall_box (np.array [1; 2])
                     true
    = Ok ([1; 2], center, [zero; frac 1 2]).
Proof.
  assert (constructed wall_box) as Hc by apply more_boxes_constructed.
  assert (Forall is_int64 [1; 2]) as H64
    by (repeat constructor; unfold is_int64; lia).
  split; [done|]. split; [done|].
  destruct (midpoint_sampling_stride _ (fun n c s => Ok (n, c, s)) wall_box
              (np.array [1; 2]) Hc H64) as (center & Hm & Hu & _).
  - intros (x & Hx & Hi). simpl in Hx. rewrite !elem_of_cons in Hx.
    destruct Hx as [[->|[->|Hx]]|[->|[->|Hx]]]; try done;
      by apply elem_of_nil in Hx.
  - done.
  - intros k Hk. simpl in Hk. rewrite !elem_of_cons in Hk.
    destruct Hk as [->|[->|Hk]]; try lia. by apply elem_of_nil in Hk.
  - intros (i & b & e & k & Hb & He & Heq & Hk & Hgt).
    destruct i as [|[|i]]; simpl in *; try done.
    + injection Hk as <-. lia.
    + injection Hb as <-. by injection He as <-.
  - exists center. split; [done|]. by rewrite Hu.
Defined.

(** ** The sign of the measure *)

Module SignFacts.

Import F64Facts npFacts BoxFacts RoundFacts.

Lemma round_aux_not_negative (mx ex : Z) (lx : location) :
  not_negative (binary_round_aux prec emax false mx ex lx).
Proof.
  unfold binary_round_aux.
  destruct (shr_fexp prec emax mx ex lx) as [m1 e1].
  destruct (shr_fexp prec emax _ e1 loc_Exact) as [m2 e2].
  destruct (shr_m m2); try done.
  by destruct (e2 <=? emax - prec).
Qed.

Lemma mul_not_negative (x y : float64) :
  not_negative x -> not_negative y -> not_negative (mul x y).
Proof.
  destruct x as [sx|sx| |sx mx ex], y as [sy|sy| |sy my ey]; simpl;
    try done; try (by intros -> ->).
  intros -> ->. apply round_aux_not_negative.
Qed.

Lemma prod_not_negative (l : list float64) :
  forall a, not_negative a -> Forall not_negative l ->
            not_negative (foldl mul a l).
Proof.
  induction l as [|x l IH]; intros a Ha Hl; [done|].
  inversion Hl; subst. simpl. apply IH; [|done]. by apply mul_not_negative.
Qed.

Lemma not_negative_lt (x : float64) : not_negative x -> lt x zero = false.
Proof. destruct x as [s|s| |s m e]; try done; by intros ->. Qed.

Lemma nonzero_not_negative (x : float64) : nonzero false x -> not_negative x.
Proof. by intros [->|(m & e & ->)]. Qed.

(** The length of an axis with [begin < end]. *)
Lemma size_not_negative (b e : float64) :
  valid b = true -> valid e = true -> lt b e = true ->
  not_negative (sub e b).
Proof.
  intros Hvb Hve Hlt.
  destruct (isfinite b) eqn:Eb, (isfinite e) eqn:Ee.
  - apply nonzero_not_negative. by apply (sub_lt b e).
  - destruct b as [sb|sb| |sb mb eb], e as [se|se| |se me ee]; try done;
      by destruct se.
  - destruct b as [sb|sb| |sb mb eb], e as [se|se| |se me ee]; try done;
      by destruct sb.
  - destruct b as [sb|sb| |sb mb eb], e as [se|se| |se me ee]; try done;
      by destruct sb, se.
Qed.

Lemma sizes_not_negative (self : IntervalProd) :
  constructed self -> binary64 self ->
  Forall not_negative (nondegenerate_sizes self).
Proof.
  intros H [Hvb Hve]. destruct (constructed_inv _ H) as (Hle & _).
  unfold nondegenerate_sizes. apply Forall_fmap, Forall_forall.
  intros [b e] [Hne Hin]%list_elem_of_filter. simpl in *.
  apply elem_of_lookup_zip_with in Hin as (i & b' & e' & [= <- <-] & Hb & He).
  rewrite Forall_lookup in Hvb, Hve.
  apply size_not_negative; [by eapply Hvb|by eapply Hve|].
  apply le_ne_lt; [|done]. exact (Forall2_lookup_lr _ _ _ _ _ _ Hle Hb He).
Qed.

End SignFacts.

(** X13. [measure] never raises and never returns a negative number,
    whatever [dim] is asked for: the result is a zero, a positive number,
    +infinity, or NaN (the product of a length that underflows to zero
    with an infinite one).  The same holds for [volume].  The bounds are
    binary64 values. *)
Theorem measure_not_negative (self : IntervalProd) (dim : option Z) :
  constructed self -> binary64 self ->
  (exists r, measure self dim = Ok r /\ lt r zero = false) /\
  (exists r, volume self = Ok r /\ lt r zero = false).
Proof.
  intros H Hv.
  assert (forall d, exists r, measure_dim self d = Ok r /\ lt r zero = false)
    as Hd.
  { intros d. unfold measure_dim. case_decide; [by exists zero|].
    destruct (d <? _); [by exists inf|]. destruct (d >? _); [by exists zero|].
    rewrite BoxFacts.sizes_nondegenerate by done. simpl.
    eexists. split; [done|]. apply SignFacts.not_negative_lt.
    apply SignFacts.prod_not_negative; [done|].
    by apply SignFacts.sizes_not_negative. }
  assert (forall d, exists r, measure self d = Ok r /\ lt r zero = false)
    as Hm.
  { intros d. unfold measure. case_decide; [by exists zero|].
    destruct d; apply Hd. }
  split; [apply Hm|]. unfold volume. apply Hm.
Qed.

(** A box with finite bounds whose measure is NaN: two sides of length
    [2**-600], whose product underflows to zero, and a third whose
    length overflows. *)
Lemma measure_not_negative_witness :
  constructed thin_box /\ binary64 thin_box /\ ~ unbounded thin_box /\
  measure thin_box None = Ok nan /\ lt nan zero = false.
Proof.
  assert (constructed thin_box) as Hc
    by (by exists (np.array (_begin thin_box)), (np.array (_end thin_box))).
  assert (binary64 thin_box) as Hv by (split; repeat constructor).
  split; [done|]. split; [done|]. split.
  { intros (x & Hx & Hi). simpl in Hx. rewrite !elem_of_cons in Hx.
    destruct Hx as [[->|[->|[->|Hx]]]|[->|[->|[->|Hx]]]]; try done;
      by apply elem_of_nil in Hx. }
  destruct (proj1 (measure_not_negative thin_box None Hc Hv)) as (r & Hr & Hlt).
  assert (measure thin_box None = Ok nan) as Hnan by (by vm_compute).
  rewrite Hnan in Hr. injection Hr as <-. by split.
Defined.

(** ** Containment and the tolerance *)

Module OrderFacts.

Import F64Facts.

Lemma compare_rank (x y : float64) :
  isnan x = false -> isnan y = false ->
  SFcompare x y = Some (lex_compare (rank x) (rank y)).
Proof.
  destruct x as [sx|sx| |sx mx ex], y as [sy|sy| |sy my ey]; try done;
    intros _ _; try (by destruct sx); try (by destruct sy);
    try (by destruct sx, sy).
  destruct sx, sy; try done; unfold lex_compare; simpl; f_equal.
  rewrite Z.compare_opp, (Z.compare_antisym ex ey).
  by destruct (ex ?= ey).
Qed.

Lemma lex_trans (a b c : Z * Z * Z) :
  lex_compare a c = Gt -> lex_compare b c <> Gt -> lex_compare a b = Gt.
Proof.
  destruct a as [[a1 a2] a3], b as [[b1 b2] b3], c as [[c1 c2] c3].
  unfold lex_compare. simpl.
  destruct (Z.compare_spec a1 c1), (Z.compare_spec b1 c1),
    (Z.compare_spec a1 b1); try done; try lia.
  all: destruct (Z.compare_spec a2 c2), (Z.compare_spec b2 c2),
    (Z.compare_spec a2 b2); try done; try lia.
  all: destruct (Z.compare_spec a3 c3), (Z.compare_spec b3 c3),
    (Z.compare_spec a3 b3); try done; try lia.
Qed.

(** A distance above a tolerance is above every smaller one. *)
Lemma gt_le_trans (d tol tol' : float64) :
  gt d tol' = true -> le tol tol' = true -> gt d tol = true.
Proof.
  intros Hgt Hle.
  assert (isnan d = false) as Hd by (by destruct d).
  destruct (le_numbers _ _ Hle) as [Ht Ht'].
  unfold gt, le, SFleb in *.
  rewrite compare_rank in Hgt, Hle |- * by done.
  rewrite (lex_trans (rank d) (rank tol) (rank tol')); [done| |].
  - by destruct (lex_compare (rank d) (rank tol')).
  - by destruct (lex_compare (rank tol) (rank tol')).
Qed.

End OrderFacts.

Section Tolerance.

Variable norm : float64 -> list float64 -> float64.

Lemma contains_mono (self : IntervalProd) (point : np.array_like float64)
    (tol tol' : float64) :
  contains norm self point tol = Ok true -> le tol tol' = true ->
  contains norm self point tol' = Ok true.
Proof.
  unfold contains. intros H Hle. simpl in *.
  case_decide; [done|].
  destruct (np.getitem _ 0); simpl in *; [|done].
  destruct (dist _ _ _ _) as [d|]; simpl in *; [|done].
  destruct (gt d tol) eqn:E; [done|].
  destruct (gt d tol') eqn:E'; [|done].
  by rewrite (OrderFacts.gt_le_trans d tol tol') in E.
Qed.

Lemma contains_inside (self : IntervalProd) (p : list float64) (tol : float64) :
  constructed self -> dim self <> 0%nat -> length p = dim self ->
  contains norm self (np.array p) tol
  = if np.any (zip_with gt p (_end self)) || np.any (zip_with lt p (_begin self))
    then Ok (negb (gt (norm inf (overshoot self p)) tol))
    else Ok (negb (gt zero tol)).
Proof.
  intros H Hdim Hp. unfold contains. simpl.
  rewrite decide_False by (by intros ?).
  destruct p as [|p0 p]; [by rewrite <- Hp in Hdim|].
  change (np.getitem (p0 :: p) 0) with (Ok (A := float64) p0). simpl.
  rewrite (dist_cases norm) by done.
  destruct (_ || _); simpl; by destruct (gt _ tol).
Qed.

(** X14. [contains] answers [False] for a point of another length than
    [dim] (where [dist] raises).  For a point of the length [dim >= 1]:
    when no coordinate is above [end[i]] or below [begin[i]] the answer
    is [True] unless [tol] is negative, and otherwise it is whether the
    maximum norm of the overshoot is not above [tol].  A NaN coordinate
    is neither above nor below, so that a point of NaNs is contained. *)
Theorem contains_cases (self : IntervalProd) (point : np.array_like float64)
    (tol : float64) :
  constructed self -> dim self <> 0%nat ->
  let p := np.atleast_1d point in
  (length p <> dim self -> contains norm self point tol = Ok false) /\
  (length p = dim self ->
   (~ outside self p ->
    contains norm self point tol = Ok (negb (gt zero tol))) /\
   (outside self p ->
    contains norm self point tol
    = Ok (negb (gt (norm inf (overshoot self p)) tol))) /\
   (Forall (fun x => isnan x = true) p ->
    contains norm self point zero = Ok true)).
Proof.
  intros H Hdim p.
  assert (forall t, contains norm self point t
                    = contains norm self (np.array p) t) as Hp by done.
  split.
  { intros Hlen. unfold contains. fold p. by rewrite decide_True. }
  intros Hlen.
  assert (~ outside self p ->
          forall t, contains norm self point t = Ok (negb (gt zero t))) as Hin.
  { intros Hno t. rewrite Hp, contains_inside by done.
    destruct (_ || _) eqn:E; [|done].
    by apply (outside_any self p H Hlen) in E. }
  split; [by intros ?; apply Hin|]. split.
  - intros Hout. rewrite Hp, contains_inside by done.
    apply (outside_any self p H Hlen) in Hout. by rewrite Hout.
  - intros Hnan. rewrite Hin; [done|].
    intros (i & x & b & e & Hx & _ & _ & Hout).
    rewrite Forall_lookup in Hnan. specialize (Hnan i x Hx). simpl in Hnan.
    destruct x; try done. by destruct Hout.
Qed.

(** X15. [contains] is monotone in the tolerance: a point contained
    under [tol] is contained under every larger tolerance. *)
Theorem contains_monotone (self : IntervalProd)
    (point : np.array_like float64) (tol tol' : float64) :
  contains norm self point tol = Ok true -> le tol tol' = true ->
  contains norm self point tol' = Ok true.
Proof.
  unfold contains. intros H Hle. simpl in *.
  case_decide; [done|].
  destruct (np.getitem _ 0); simpl in *; [|done].
  destruct (dist _ _ _ _) as [d|]; simpl in *; [|done].
  destruct (gt d tol) eqn:E; [done|].
  destruct (gt d tol') eqn:E'; [|done].
  pose proof (OrderFacts.gt_le_trans d tol tol' E' Hle) as Hgt.
  congruence.
Qed.

(** X16. [contains_set] raises [TypeError] for a set without [min] or
    without [max], whatever else holds.  For a set with both, it answers
    [True] exactly when the two are contained, it is monotone in the
    tolerance, and a set whose [min] and [max] are the bounds of the box
    is contained under every tolerance [tol >= 0]. *)
Theorem contains_set_cases (self : IntervalProd) (other : set_like)
    (tol tol' : float64) :
  constructed self -> dim self <> 0%nat ->
  (attr_min other = None \/ attr_max other = None ->
   contains_set norm self other tol = raised CapabilityMissing) /\
  (forall other_min other_max,
      attr_min other = Some other_min -> attr_max other = Some other_max ->
      (contains_set norm self other tol = ran (Ok true)
       <-> contains norm self other_min tol = Ok true /\
           contains norm self other_max tol = Ok true) /\
      (contains_set norm self other tol = ran (Ok true) ->
       le tol tol' = true ->
       contains_set norm self other tol' = ran (Ok true))) /\
  (attr_min other = Some (np.array (_begin self)) ->
   attr_max other = Some (np.array (_end self)) ->
   le zero tol = true ->
   contains_set norm self other tol = ran (Ok true)).
Proof.
  intros H Hdim.
  assert (forall t other_min other_max,
             attr_min other = Some other_min ->
             attr_max other = Some other_max ->
             contains_set norm self other t = ran (Ok true)
             <-> contains norm self other_min t = Ok true /\
                 contains norm self other_max t = Ok true) as Hboth.
  { intros t mn mx Hmn Hmx. unfold contains_set. rewrite Hmn, Hmx.
    destruct (contains norm self mn t) as [[]|]; simpl.
    - split; [by intros [= ->]|by intros [_ ->]].
    - split; [done|by intros [? _]].
    - split; [done|by intros [? _]]. }
  split; [|split].
  - unfold contains_set. intros [->| ->]; [done|].
    by destruct (attr_min other).
  - intros mn mx Hmn Hmx. split; [by apply Hboth|].
    intros [H1 H2]%(Hboth tol mn mx Hmn Hmx) Hle.
    apply (Hboth tol' mn mx Hmn Hmx).
    split; by eapply contains_mono.
  - intros Hmn Hmx Htol. apply (Hboth tol _ _ Hmn Hmx).
    destruct (contains_own_bounds norm self H Hdim) as [Hb He].
    split; by eapply contains_mono.
Qed.

End Tolerance.

(** The point [(-5, 3, 2)] of the docstring of [dist], which is 4.0
    away from the box in the maximum norm, and a point of NaNs. *)
Lemma contains_cases_witness :
  constructed slab_box /\ dim slab_box <> 0%nat /\
  contains norm_2_or_inf slab_box
           (np.array [of_int (-5); of_int 3; of_int 2]) (of_int 4) = Ok true /\
  contains norm_2_or_inf slab_box
           (np.array [of_int (-5); of_int 3; of_int 2]) (of_int 3) = Ok false /\
  contains norm_2_or_inf slab_box (np.array [nan; nan; nan]) zero = Ok true.
Proof.
  pose proof (proj1 more_boxes_constructed) as Hc.
  assert (dim slab_box <> 0%nat) as Hd by done.
  assert (outside slab_box [of_int (-5); of_int 3; of_int 2]) as Hout.
  { exists 1%nat, (of_int 3), (of_int 0), (of_int 0). by repeat split; try left. }
  split; [done|]. split; [done|]. split; [|split].
  - destruct (contains_cases norm_2_or_inf slab_box
                (np.array [of_int (-5); of_int 3; of_int 2]) (of_int 4) Hc Hd)
      as [_ Hx].
    destruct (Hx eq_refl) as (_ & Hy & _). by rewrite (Hy Hout).
  - destruct (contains_cases norm_2_or_inf slab_box
                (np.array [of_int (-5); of_int 3; of_int 2]) (of_int 3) Hc Hd)
      as [_ Hx].
    destruct (Hx eq_refl) as (_ & Hy & _). by rewrite (Hy Hout).
  - destruct (contains_cases norm_2_or_inf slab_box
                (np.array [nan; nan; nan]) zero Hc Hd) as [_ Hx].
    destruct (Hx eq_refl) as (_ & _ & Hy). apply Hy. by repeat constructor.
Defined.

Lemma contains_monotone_witness :
  contains norm_2_or_inf slab_box
           (np.array [of_int (-5); of_int 3; of_int 2]) (of_int 4) = Ok true /\
  le (of_int 4) (of_int 5) = true /\
  contains norm_2_or_inf slab_box
           (np.array [of_int (-5); of_int 3; of_int 2]) (of_int 5) = Ok true.
Proof.
  assert (contains norm_2_or_inf slab_box
            (np.array [of_int (-5); of_int 3; of_int 2]) (of_int 4) = Ok true)
    as H4 by (by vm_compute).
  assert (le (of_int 4) (of_int 5) = true) as Hle by (by vm_compute).
  split; [done|]. split; [done|].
  exact (contains_monotone norm_2_or_inf slab_box _ _ _ H4 Hle).
Defined.

(** A set whose extreme points are the bounds of the box. *)
Lemma contains_set_cases_witness :
  constructed slab_box /\ dim slab_box <> 0%nat /\
  contains_set norm_2_or_inf slab_box
    {| attr_min := Some (np.array (_begin slab_box));
       attr_max := Some (np.array (_end slab_box)) |} (frac 1 2)
  = ran (Ok true) /\
  contains_set norm_2_or_inf slab_box
    {| attr_min := Some (np.array (_begin slab_box)); attr_max := None |}
    (frac 1 2)
  = raised CapabilityMissing.
Proof.
  pose proof (proj1 more_boxes_constructed) as Hc.
  assert (dim slab_box <> 0%nat) as Hd by done.
  split; [done|]. split; [done|]. split.
  - destruct (contains_set_cases norm_2_or_inf slab_box
                {| attr_min := Some (np.array (_begin slab_box));
                   attr_max := Some (np.array (_end slab_box)) |}
                (frac 1 2) (frac 1 2) Hc Hd) as (_ & _ & Hx).
    by apply Hx.
  - destruct (contains_set_cases norm_2_or_inf slab_box
                {| attr_min := Some (np.array (_begin slab_box));
                   attr_max := None |}
                (frac 1 2) (frac 1 2) Hc Hd) as (Hx & _).
    apply Hx. by right.
Defined.

(** ** Inserting numbers *)

(** X17. A number or an array of numbers given to [insert] is inserted
    as that many degenerate axes: the values become both bounds at the
    positions [index, index + 1, ...], which are degenerate axes of the
    result, and [truedim] stays what it was.  A NaN among the values makes
    the constructor refuse the box that stands for them. *)
Theorem insert_numbers (uninitialized : nat -> float64) (self : IntervalProd)
    (a : np.array_like float64) (index : Z) :
  constructed self -> 0 <= index <= Z.of_nat (dim self) ->
  let v := np.atleast_1d a in
  let i := Z.to_nat index in
  (Exists (fun x => isnan x = true) v ->
   insert uninitialized self (inr a) index = Raise OrderingViolation) /\
  (Forall (fun x => isnan x = false) v ->
   exists x,
     insert uninitialized self (inr a) index = Ok x /\
     _begin x = take i (_begin self) ++ v ++ drop i (_begin self) /\
     _end x = take i (_end self) ++ v ++ drop i (_end self) /\
     dim x = (dim self + length v)%nat /\
     truedim x = truedim self /\
     forall (k : nat) (y : float64),
       v !! k = Some y -> Z.of_nat (i + k) ∈ _ideg x).
Proof.
  intros Hs Hi v i.
  destruct (BoxFacts.constructed_inv _ Hs) as (Hle & _).
  pose proof (Forall2_length _ _ _ Hle) as Hlen.
  assert (IntervalProd_init a a = IntervalProd_init (np.array v) (np.array v))
    as Hinit by done.
  split.
  - intros Hnan. unfold insert.
    destruct (Z.leb_spec 0 index); [|lia].
    destruct (Z.leb_spec index (Z.of_nat (dim self))); [|lia].
    simpl negb. cbv iota. rewrite Hinit. unfold IntervalProd_init.
    simpl np.atleast_1d. rewrite decide_False by (by intros ?).
    destruct (np.all (zip_with le v v)) eqn:E; [|done].
    apply BoxFacts.all_zip_with in E; [|done].
    apply SymmetryFacts.Forall2_diag in E.
    apply Exists_exists in Hnan as (x & Hx & Hn).
    rewrite Forall_forall in E. specialize (E x Hx). by destruct x.
  - intros Hnum.
    assert (Forall2 (fun x y => le x y = true) v v) as Hvv.
    { apply SymmetryFacts.Forall2_diag. eapply Forall_impl; [exact Hnum|].
      intros x Hx. by apply F64Facts.le_self. }
    pose proof (BoxFacts.init_ok v v Hvv) as Hd.
    set (d := {| _begin := v; _end := v;
                 _ideg := np.where_ (zip_with eq v v);
                 _inondeg := np.where_ (zip_with ne v v) |}) in *.
    assert (constructed d) as Hcd by (by exists (np.array v), (np.array v)).
    pose proof (InsertFacts.insert_spliced uninitialized self d (inr a) index
                  Hs Hcd Hi) as Hins.
    simpl in Hins. fold i in Hins. rewrite Hinit in Hins.
    specialize (Hins Hd).
    rewrite BoxFacts.init_ok in Hins
      by (repeat apply Forall2_app; auto using Forall2_take, Forall2_drop).
    eexists. split; [exact Hins|]. split; [done|]. split; [done|].
    pose proof (insert_constructed _ _ _ _ _ Hins) as Hx.
    assert (Forall (fun c => c = false) (zip_with ne v v)) as Hnone.
    { clear -Hnum. induction Hnum as [|y l Hy _ IH]; constructor; [|done].
      by rewrite F64Facts.ne_eq, F64Facts.eq_self. }
    split; [|split].
    + unfold dim. cbn [_begin]. rewrite !length_app, length_take, length_drop.
      subst i. unfold dim in Hi. lia.
    + rewrite (BoxFacts.truedim_count _ Hx). cbn [_begin _end].
      rewrite LayoutFacts.mask_spliced by done.
      rewrite LayoutFacts.count_spliced.
      rewrite <- BoxFacts.truedim_count by done.
      rewrite (npFacts.compress_none (zip_with ne v v)) by done. simpl. lia.
    + intros k y Hk. cbn [_ideg]. apply MoreFacts.elem_of_where.
      exists (i + k)%nat. split; [done|].
      rewrite LayoutFacts.mask_spliced by done.
      assert (length (take i (zip_with eq (_begin self) (_end self))) = i)
        as Hti.
      { rewrite length_take, length_zip_with. subst i. unfold dim in Hi. lia. }
      rewrite lookup_app_r by lia. rewrite Hti.
      replace (i + k - i)%nat with k by lia.
      rewrite lookup_app_l
        by (rewrite length_zip_with; apply lookup_lt_Some in Hk; lia).
      rewrite lookup_zip_with, Hk. simpl. rewrite F64Facts.eq_self; [done|].
      rewrite Forall_lookup in Hnum. by apply (Hnum k y).
Qed.

(** The number 7 inserted in front of [IntervalProd([-1, 2], [-0.5, 3])],
    and a NaN that is refused. *)
Lemma insert_numbers_witness :
  constructed rbox /\
  (exists x,
      insert (fun _ => nan) rbox (inr (np.scalar (of_int 7))) 0 = Ok x /\
      _begin x = [of_int 7; of_int (-1); of_int 2] /\
      _end x = [of_int 7; frac (-1) 2; of_int 3] /\ 0 ∈ _ideg x) /\
  insert (fun _ => nan) rbox (inr (np.scalar nan)) 0 = Raise OrderingViolation.
Proof.
  assert (constructed rbox) as Hr by apply example_boxes_constructed.
  split; [done|]. split.
  - destruct (proj2 (insert_numbers (fun _ => nan) rbox
                       (np.scalar (of_int 7)) 0 Hr ltac:(by vm_compute)))
      as (x & Hx & Hb & He & _ & _ & Hdeg); [by repeat constructor|].
    exists x. split; [done|]. split; [by rewrite Hb|]. split; [by rewrite He|].
    exact (Hdeg 0%nat (of_int 7) eq_refl).
  - apply (proj1 (insert_numbers (fun _ => nan) rbox (np.scalar nan) 0 Hr
                    ltac:(by vm_compute))).
    by repeat constructor.
Defined.
